(** * ScholarCite: citation extraction, selective rendering and word diff

    A shallow embedding of the string-processing core of the ScholarCite
    front end (src/App.tsx) and of its response post-processing
    (services/geminiService.ts, the [processCitations] variants), together
    with the properties stated about them.

    JavaScript strings are sequences of UTF-16 code units; they are modelled
    as [list N].  Regular-expression replacements are modelled by a generic
    left-to-right driver ([replace_from]) that is given, for each regular
    expression of the source, the function deciding whether the expression
    matches at the head of the remaining input. *)

From Stdlib Require Import List NArith ZArith Bool Lia Ascii String
  DecimalString Permutation.
Import ListNotations.

Set Implicit Arguments.

(* ------------------------------------------------------------------ *)
(** ** JavaScript strings *)

Module Js.

Local Open Scope N_scope.

(** A string is its sequence of UTF-16 code units. *)
Definition str := list N.

(** ASCII literals. *)
Definition lit (s : string) : str := map N_of_ascii (list_ascii_of_string s).

Definition ch (a : ascii) : N := N_of_ascii a.

(** The double quote. *)
Definition dquote : N := 34.

(** ASCII literals of texts that hold double quotes, written with an
    apostrophe in place of each double quote. *)
Definition quoted (s : string) : str :=
  map (fun c => if c =? 39 then dquote else c) (lit s).

Definition str_eqb (a b : str) : bool :=
  if list_eq_dec N.eq_dec a b then true else false.

(** [\s] of ECMAScript regular expressions, which is also the set removed
    by [String.prototype.trim]: WhiteSpace and LineTerminator code points. *)
Definition isWhiteSpace (c : N) : bool :=
  ((9 <=? c) && (c <=? 13)) || (c =? 32) || (c =? 160) || (c =? 5760)
  || ((8192 <=? c) && (c <=? 8202)) || (c =? 8232) || (c =? 8233)
  || (c =? 8239) || (c =? 8287) || (c =? 12288) || (c =? 65279).

(** Length of the maximal whitespace run at the head of the string: what a
    greedy [\s*] consumes. *)
Fixpoint spaces (s : str) : nat :=
  match s with
  | c :: s' => if isWhiteSpace c then S (spaces s') else O
  | [] => O
  end.

Fixpoint dropSpaces (s : str) : str :=
  match s with
  | c :: s' => if isWhiteSpace c then dropSpaces s' else s
  | [] => []
  end.

(** [String.prototype.trim]. *)
Definition trim (s : str) : str := rev (dropSpaces (rev (dropSpaces s))).

(** Truthiness of a string value: the empty string is falsy. *)
Definition nonEmpty (s : str) : bool :=
  match s with [] => false | _ => true end.

(** [a] is a prefix of [s]. *)
Fixpoint startsWith (a s : str) : bool :=
  match a, s with
  | [], _ => true
  | x :: a', y :: s' => (x =? y) && startsWith a' s'
  | _ :: _, [] => false
  end.

(** [s.split(sep)] for a string separator.  The scan is left to right;
    [skip] counts the code units of a separator occurrence still to be
    passed over and [cur] is the piece being accumulated, in reverse.
    With an empty separator JavaScript splits into single code units. *)
Fixpoint split_from (sep : str) (skip : nat) (cur : str) (s : str) : list str :=
  match s with
  | [] => [rev cur]
  | c :: s' =>
      match skip with
      | S k => split_from sep k cur s'
      | O =>
          if startsWith sep s
          then rev cur :: split_from sep (List.length sep - 1) [] s'
          else split_from sep O (c :: cur) s'
      end
  end.

Definition split (sep s : str) : list str :=
  match sep with
  | [] => map (fun c => [c]) s
  | _ => split_from sep O [] s
  end.

(** [pieces.join(sep)]. *)
Fixpoint join (sep : str) (pieces : list str) : str :=
  match pieces with
  | [] => []
  | [p] => p
  | p :: ps => p ++ sep ++ join sep ps
  end.

(** [s.includes(t)]. *)
Fixpoint includes (t s : str) : bool :=
  startsWith t s || match s with [] => false | _ :: s' => includes t s' end.

(** *** Regular-expression replacement

    A matcher answers, for the remaining input, whether the expression
    matches at its head and, if so, how many code units the match spans and
    what replaces it.  None of the expressions of the source matches the
    empty string. *)
Definition matcher := str -> option (nat * str).

(** [s.replace(/re/g, ...)]: every match is replaced, the search resuming
    right after the previous match. *)
Fixpoint replace_from (m : matcher) (skip : nat) (s : str) : str :=
  match s with
  | [] => []
  | c :: s' =>
      match skip with
      | S k => replace_from m k s'
      | O =>
          match m s with
          | Some (S n, r) => r ++ replace_from m n s'
          | _ => c :: replace_from m O s'
          end
      end
  end.

Definition replaceAll (m : matcher) (s : str) : str := replace_from m O s.

(** [s.replace(/re/, ...)] without the [g] flag: the first match only. *)
Fixpoint replaceFirst (m : matcher) (s : str) : str :=
  match s with
  | [] => []
  | c :: s' =>
      match m s with
      | Some (n, r) => r ++ skipn n s
      | None => c :: replaceFirst m s'
      end
  end.

End Js.

Import Js.

(* ------------------------------------------------------------------ *)
(** ** Data model (types.ts) *)

Inductive Lang := KOR | ENG.

(** [interface Reference]; the fields marked [?] in the source are
    options, [None] standing for an absent ([undefined]) field. *)
Record Reference := mkReference {
  id : Z;
  title : str;
  authors : str;
  year : str;
  journal : str;
  url : str;
  grade : option str;
  lang : option Lang;
  snippet : option str;
  citationReason : option str;
  relatedCitedSentence : option str;
  originalSourceSentence : option str;
  sourceParagraph : option str;
  sourceSection : option str;
  isSelected : option bool;
  citationTag : option str
}.

Record GroundingUrl := mkGroundingUrl { g_title : str; g_uri : str }.

(** [interface SavedCitation extends CitationResult]. *)
Record SavedCitation := mkSavedCitation {
  originalText : str;
  citedText : str;
  references : list Reference;
  groundingUrls : list GroundingUrl;
  timestamp : Z
}.

(** Truthiness of an optional boolean and of an optional string. *)
Definition truthyFlag (b : option bool) : bool :=
  match b with Some true => true | _ => false end.

Definition truthyStr (s : option str) : bool :=
  match s with Some t => nonEmpty t | None => false end.

(* ------------------------------------------------------------------ *)
(** ** Selective renderer (App.tsx, [getFilteredCitedText]) *)

Module Render.

(** Body of the [forEach] callback: one reference applied to the text
    accumulated so far. *)
Definition removeTag (filteredText : str) (ref : Reference) : str :=
  if negb (truthyFlag (isSelected ref)) && truthyStr (citationTag ref) then
    match citationTag ref with
    | Some t =>
        let tag := trim t in
        if nonEmpty tag then join [] (split tag filteredText) else filteredText
    | None => filteredText
    end
  else filteredText.

Definition removeTags (citedText : str) (refs : list Reference) : str :=
  fold_left removeTag refs citedText.

Definition comma : N := ch ",".
Definition period : N := ch ".".
Definition lparen : N := ch "(".
Definition rparen : N := ch ")".
Definition lbrack : N := ch "[".
Definition rbrack : N := ch "]".
Definition space : N := ch " ".

(** [open \s* close], the shape shared by five of the expressions: the
    greedy [\s*] takes the whole whitespace run, and as [close] is never a
    whitespace character no shorter run can be followed by it. *)
Definition group (open close : N) (s : str) : option nat :=
  match s with
  | c :: r =>
      if N.eqb c open then
        match skipn (spaces r) r with
        | d :: _ => if N.eqb d close then Some (spaces r + 2)%nat else None
        | [] => None
        end
      else None
  | [] => None
  end.

(** [/,\s*,/g] replaced by [','] *)
Definition commaComma : matcher := fun s =>
  match group comma comma s with Some n => Some (n, [comma]) | None => None end.

(** [/\s{2,}/g] replaced by [' '] *)
Definition spaceRun : matcher := fun s =>
  if (2 <=? spaces s)%nat then Some (spaces s, [space]) else None.

(** [/\(\s*,\s*/g] replaced by ['('] *)
Definition parenComma : matcher := fun s =>
  match group lparen comma s with
  | Some n => Some ((n + spaces (skipn n s))%nat, [lparen])
  | None => None
  end.

(** [/,\s*\)/g] replaced by [')'] *)
Definition commaParen : matcher := fun s =>
  match group comma rparen s with Some n => Some (n, [rparen]) | None => None end.

(** [/\(\s*\)/g] replaced by the empty string *)
Definition emptyParens : matcher := fun s =>
  match group lparen rparen s with Some n => Some (n, []) | None => None end.

(** [/\[\s*\]/g] replaced by the empty string *)
Definition emptyBrackets : matcher := fun s =>
  match group lbrack rbrack s with Some n => Some (n, []) | None => None end.

(** [/\s+([.,])/g] replaced by ['$1'] *)
Definition spaceBeforePunct : matcher := fun s =>
  match spaces s with
  | O => None
  | S k =>
      match skipn (S k) s with
      | d :: _ =>
          if N.eqb d period || N.eqb d comma then Some (S (S k), [d]) else None
      | [] => None
      end
  end.

(** The chain of replacements and the final [trim], in source order. *)
Definition cleanup (s : str) : str :=
  trim
    (replaceAll spaceBeforePunct
    (replaceAll emptyBrackets
    (replaceAll emptyParens
    (replaceAll commaParen
    (replaceAll parenComma
    (replaceAll spaceRun
    (replaceAll commaComma s))))))).

Definition getFilteredCitedText (citedText : str) (refs : list Reference) : str :=
  cleanup (removeTags citedText refs).

End Render.

Import Render.

(** A reference carrying the given id, tag and selection flag and no other
    content, for examples. *)
Definition tagRef (i : Z) (tag : option str) (sel : option bool) : Reference :=
  mkReference i [] [] [] [] [] None None None None None None None None sel tag.


(* ------------------------------------------------------------------ *)
(** ** Reading the renderer: active tags, matches, bracketed texts *)

(** [text.split(tag).join('')] under a name. *)
Definition removeAll (tag text : str) : str := join [] (split tag text).

(** The tag a reference removes, if any: the reference is not selected,
    has a non-empty [citationTag], and the tag is still non-empty once
    trimmed. *)
Definition activeTag (ref : Reference) : option str :=
  if negb (truthyFlag (isSelected ref)) && truthyStr (citationTag ref) then
    match citationTag ref with
    | Some t => if nonEmpty (trim t) then Some (trim t) else None
    | None => None
    end
  else None.

(** No active tag of [refs] occurs in [text]. *)
Definition tagFree (refs : list Reference) (text : str) : bool :=
  forallb (fun ref =>
             match activeTag ref with
             | Some tag => negb (includes tag text)
             | None => true
             end) refs.

(** The expression has a match somewhere in the text. *)
Fixpoint anyMatch (m : matcher) (s : str) : bool :=
  match m s with
  | Some _ => true
  | None => match s with [] => false | _ :: s' => anyMatch m s' end
  end.

(** The text holds a group that the cleanup would merge or delete: two
    commas, a comma next to a parenthesis, or an empty pair of parentheses
    or brackets, whitespace apart. *)
Definition degenerate (s : str) : bool :=
  anyMatch commaComma s || anyMatch parenComma s || anyMatch commaParen s
  || anyMatch emptyParens s || anyMatch emptyBrackets s.

(** *** What a match looks at

    Whether one of the expressions of the cleanup matches at a position
    depends on the character there and on what follows it: its first
    character, or the first one past the whitespace. *)

Definition isPunct (d : N) : bool := N.eqb d period || N.eqb d comma.

Definition headWs (s : str) : bool :=
  match s with d :: _ => isWhiteSpace d | [] => false end.

(** The first character past the leading whitespace satisfies [p]. *)
Definition solidIs (p : N -> bool) (s : str) : bool :=
  match dropSpaces s with d :: _ => p d | [] => false end.

(** Some position of the text satisfies [h]. *)
Fixpoint anyAt (h : N -> str -> bool) (s : str) : bool :=
  match s with
  | [] => false
  | c :: r => h c r || anyAt h r
  end.

Definition groupH (a b : N) : N -> str -> bool :=
  fun c r => N.eqb c a && solidIs (fun d => N.eqb d b) r.

Definition runH : N -> str -> bool :=
  fun c r => isWhiteSpace c && headWs r.

Definition punctH : N -> str -> bool :=
  fun c r => isWhiteSpace c && solidIs isPunct r.

(** None of the five groups occurs in the text. *)
Definition groupFree (s : str) : Prop :=
  anyAt (groupH comma comma) s = false
  /\ anyAt (groupH lparen comma) s = false
  /\ anyAt (groupH comma rparen) s = false
  /\ anyAt (groupH lparen rparen) s = false
  /\ anyAt (groupH lbrack rbrack) s = false.

(** Removal of the trailing whitespace, the second half of [trim]. *)
Definition dropTrailing (s : str) : str := rev (dropSpaces (rev s)).

(** Texts in which a pair of delimiters only occurs around groups that
    hold no delimiter themselves, such as "see [1] and [2]". *)
Module Flat.

Inductive item :=
| Plain (c : N)
| Group (body : str).

Definition item_eqb (a b : item) : bool :=
  match a, b with
  | Plain c, Plain d => N.eqb c d
  | Group x, Group y => str_eqb x y
  | _, _ => false
  end.

Section Delimiters.

Variables open close : N.

Definition free (s : str) : bool :=
  forallb (fun c => negb (N.eqb c open) && negb (N.eqb c close)) s.

Definition wellFormed (it : item) : bool :=
  match it with
  | Plain c => negb (N.eqb c open) && negb (N.eqb c close)
  | Group body => free body
  end.

Definition textOf (it : item) : str :=
  match it with
  | Plain c => [c]
  | Group body => open :: body ++ [close]
  end.

Definition flatten (items : list item) : str := flat_map textOf items.

(** The body of a tag of the shape [open body close]. *)
Definition bodyOf (tag : str) : option str :=
  match tag with
  | c :: rest =>
      match rev rest with
      | d :: body' =>
          if N.eqb c open && N.eqb d close && free (rev body')
          then Some (rev body') else None
      | [] => None
      end
  | [] => None
  end.

(** Every active tag of [refs] is a delimited group. *)
Definition delimitedTags (refs : list Reference) : bool :=
  forallb (fun ref =>
             match activeTag ref with
             | Some tag => match bodyOf tag with Some _ => true | None => false end
             | None => true
             end) refs.

(** The items a reference leaves in place. *)
Definition keepItem (ref : Reference) (it : item) : bool :=
  match activeTag ref with
  | Some tag =>
      match bodyOf tag with
      | Some b => negb (item_eqb it (Group b))
      | None => true
      end
  | None => true
  end.

End Delimiters.

Definition plains (s : str) : list item := map Plain s.

End Flat.

(* ------------------------------------------------------------------ *)
(** ** Word diff (App.tsx, [getWordDiff]; the earlier App.tsx has the same
    function) *)

Module Diff.

(** The three kinds of [<span>] the function emits: without a class for
    whitespace, slate for a word of the baseline, emerald for a new word. *)
Inductive Highlight := Whitespace | Unchanged | Added.

(** What is rendered: one [<span>] holding a whole text, or the array of
    classified spans. *)
Inductive DiffView :=
| Whole (text : str)
| Spans (spans : list (Highlight * str)).

(** [s.split(/(\s+)/)]: the pieces between whitespace runs alternate with
    the runs themselves, which the capture group keeps.  [cur] is the piece
    and [run] the whitespace run being read, both reversed. *)
Fixpoint splitSpaces (cur run : str) (s : str) : list str :=
  match s with
  | [] =>
      match run with
      | [] => [rev cur]
      | _ => [rev cur; rev run; []]
      end
  | c :: s' =>
      if isWhiteSpace c then splitSpaces cur (c :: run) s'
      else
        match run with
        | [] => splitSpaces (c :: cur) [] s'
        | _ => rev cur :: rev run :: splitSpaces [c] [] s'
        end
  end.

Definition words (s : str) : list str := splitSpaces [] [] s.

(** [word.trim()] is the empty string *)
Definition blank (word : str) : bool := negb (nonEmpty (trim word)).

Definition classify (oldWords : list str) (word : str) : Highlight * str :=
  if blank word then (Whitespace, word)
  else if existsb (str_eqb word) oldWords then (Unchanged, word)
  else (Added, word).

Section WithDom.

(** [stripHtml]: the text content of the HTML document the browser's
    [DOMParser] builds from the string. *)
Variable stripHtml : str -> str.

Definition getWordDiff (oldStr newStr : str) : DiffView :=
  if negb (nonEmpty oldStr) || negb (nonEmpty newStr) then Whole newStr
  else
    let cleanOld := stripHtml oldStr in
    let cleanNew := stripHtml newStr in
    let oldWords := words cleanOld in
    let newWords := words cleanNew in
    Spans (map (classify oldWords) newWords).

End WithDom.

End Diff.

(* ------------------------------------------------------------------ *)
(** ** Selection toggle (App.tsx, [toggleReferenceSelection]) *)

Definition setSelected (ref : Reference) (b : option bool) : Reference :=
  mkReference (id ref) (title ref) (authors ref) (year ref) (journal ref)
    (url ref) (grade ref) (lang ref) (snippet ref) (citationReason ref)
    (relatedCitedSentence ref) (originalSourceSentence ref)
    (sourceParagraph ref) (sourceSection ref) b (citationTag ref).

(** [{ ...ref, isSelected: !ref.isSelected }] *)
Definition flipSelected (ref : Reference) : Reference :=
  setSelected ref (Some (negb (truthyFlag (isSelected ref)))).

(** The toggle on values: what the state holds after the update, seen as
    plain data. *)
Module Toggle.

Definition toggleRef (refId : Z) (ref : Reference) : Reference :=
  if Z.eqb (id ref) refId then flipSelected ref else ref.

Definition toggleSession (sessionTimestamp refId : Z) (session : SavedCitation)
  : SavedCitation :=
  if Z.eqb (timestamp session) sessionTimestamp then
    mkSavedCitation (originalText session) (citedText session)
      (map (toggleRef refId) (references session))
      (groundingUrls session) (timestamp session)
  else session.

Definition toggleReferenceSelection (sessionTimestamp refId : Z)
  (prev : list SavedCitation) : list SavedCitation :=
  map (toggleSession sessionTimestamp refId) prev.

End Toggle.

(** The toggle on a store of objects.  Sessions and references are objects
    with an identity; an object spread allocates a new object and [return
    session] or [: ref] hands back the object that was there.  Arrays are
    only ever rebuilt by [map] and are kept as lists of addresses. *)
Module Store.

Definition addr := nat.

Record SessionObj := mkSessionObj {
  o_originalText : str;
  o_citedText : str;
  o_references : list addr;
  o_groundingUrls : list GroundingUrl;
  o_timestamp : Z
}.

Inductive cell :=
| RefCell (ref : Reference)
| SessionCell (session : SessionObj).

Definition heap := list cell.

(** State threaded through the update; [None] is a read of an address that
    holds no object of the expected kind. *)
Definition M (A : Type) : Type := heap -> option (A * heap).

Definition ret {A} (a : A) : M A := fun h => Some (a, h).

Definition bind {A B} (m : M A) (f : A -> M B) : M B :=
  fun h => match m h with Some (a, h') => f a h' | None => None end.

Notation "x <- m ;; k" := (bind m (fun x => k))
  (at level 61, m at next level, right associativity).

Definition alloc (c : cell) : M addr :=
  fun h => Some (List.length h, h ++ [c]).

Definition readRef (a : addr) : M Reference :=
  fun h => match nth_error h a with Some (RefCell r) => Some (r, h) | _ => None end.

Definition readSession (a : addr) : M SessionObj :=
  fun h => match nth_error h a with Some (SessionCell s) => Some (s, h) | _ => None end.

Fixpoint mapM {A B} (f : A -> M B) (l : list A) : M (list B) :=
  match l with
  | [] => ret []
  | a :: l' => b <- f a ;; bs <- mapM f l' ;; ret (b :: bs)
  end.

Definition toggleRef (refId : Z) (a : addr) : M addr :=
  ref <- readRef a ;;
  if Z.eqb (id ref) refId then alloc (RefCell (flipSelected ref)) else ret a.

Definition toggleSession (sessionTimestamp refId : Z) (a : addr) : M addr :=
  session <- readSession a ;;
  if Z.eqb (o_timestamp session) sessionTimestamp then
    refs <- mapM (toggleRef refId) (o_references session) ;;
    alloc (SessionCell
             (mkSessionObj (o_originalText session) (o_citedText session) refs
                (o_groundingUrls session) (o_timestamp session)))
  else ret a.

Definition toggleReferenceSelection (sessionTimestamp refId : Z)
  (prev : list addr) : M (list addr) :=
  mapM (toggleSession sessionTimestamp refId) prev.

(** Reading the data behind addresses, without changing the store. *)
Fixpoint viewRefs (h : heap) (l : list addr) : option (list Reference) :=
  match l with
  | [] => Some []
  | a :: l' =>
      match nth_error h a, viewRefs h l' with
      | Some (RefCell r), Some rs => Some (r :: rs)
      | _, _ => None
      end
  end.

Definition viewSession (h : heap) (a : addr) : option SavedCitation :=
  match nth_error h a with
  | Some (SessionCell s) =>
      match viewRefs h (o_references s) with
      | Some rs =>
          Some (mkSavedCitation (o_originalText s) (o_citedText s) rs
                  (o_groundingUrls s) (o_timestamp s))
      | None => None
      end
  | _ => None
  end.

Fixpoint viewHistory (h : heap) (l : list addr) : option (list SavedCitation) :=
  match l with
  | [] => Some []
  | a :: l' =>
      match viewSession h a, viewHistory h l' with
      | Some s, Some ss => Some (s :: ss)
      | _, _ => None
      end
  end.

End Store.

(* ------------------------------------------------------------------ *)
(** ** Decoded JSON values *)

Module Json.

(** What [JSON.parse] returns.  Numbers are restricted to integers, which
    is all the reference ids need. *)
Local Unset Elimination Schemes.
Inductive json :=
| JNull
| JBool (b : bool)
| JNum (n : Z)
| JStr (s : str)
| JArr (items : list json)
| JObj (fields : list (str * json)).
Local Set Elimination Schemes.

Inductive JsError := TypeError.

(** Result of evaluating code that may throw. *)
Inductive Outcome (A : Type) :=
| Returns (a : A)
| Throws (e : JsError).

Arguments Returns {A} a.
Arguments Throws {A} e.

Definition bindO {A B} (m : Outcome A) (f : A -> Outcome B) : Outcome B :=
  match m with Returns a => f a | Throws e => Throws e end.

(** Truthiness; [None] is [undefined]. *)
Definition truthy (v : option json) : bool :=
  match v with
  | None | Some JNull => false
  | Some (JBool b) => b
  | Some (JNum n) => negb (Z.eqb n 0)
  | Some (JStr s) => nonEmpty s
  | Some (JArr _) | Some (JObj _) => true
  end.

Fixpoint lookup (key : str) (fields : list (str * json)) : option json :=
  match fields with
  | [] => None
  | (k, v) :: rest => if str_eqb k key then Some v else lookup key rest
  end.

(** [fields[key] = v] on an ordinary object: an existing property keeps its
    place, a new one goes last. *)
Fixpoint setField (key : str) (v : json) (fields : list (str * json))
  : list (str * json) :=
  match fields with
  | [] => [(key, v)]
  | (k, w) :: rest =>
      if str_eqb k key then (k, v) :: rest else (k, w) :: setField key v rest
  end.

(** [ref.key] for the property names the service reads ([title],
    [originalSourceSentence], [citationTag], [id]), none of which is a
    property of a primitive wrapper or of an array: reading from [null]
    throws, reading from anything but an object yields [undefined]. *)
Definition getProp (ref : json) (key : str) : Outcome (option json) :=
  match ref with
  | JNull => Throws TypeError
  | JObj fields => Returns (lookup key fields)
  | _ => Returns None
  end.

Definition indexKey (i : nat) : str :=
  lit (NilEmpty.string_of_uint (Nat.to_uint i)).

Fixpoint indexed {A} (f : A -> json) (i : nat) (l : list A) : list (str * json) :=
  match l with
  | [] => []
  | a :: l' => (indexKey i, f a) :: indexed f (S i) l'
  end.

(** Own enumerable properties copied by an object spread [{ ...ref }]. *)
Definition ownFields (ref : json) : list (str * json) :=
  match ref with
  | JObj fields => fields
  | JArr items => indexed (fun v => v) O items
  | JStr s => indexed (fun c => JStr [c]) O s
  | JNull | JBool _ | JNum _ => []
  end.

End Json.

Import Json.

(* ------------------------------------------------------------------ *)
(** ** A reader of JSON text

    [JSON.parse] belongs to the JavaScript runtime and the service below is
    stated over any such function.  This reader is the instance used to run
    the service on example responses; it follows the JSON grammar, with
    numbers limited to integers. *)

Module JsonText.

Local Open Scope N_scope.

Fixpoint ws (s : str) : str :=
  match s with
  | c :: s' =>
      if (c =? 32) || (c =? 9) || (c =? 10) || (c =? 13) then ws s' else s
  | [] => []
  end.

Definition hexDigit (c : N) : option N :=
  if (48 <=? c) && (c <=? 57) then Some (c - 48)
  else if (97 <=? c) && (c <=? 102) then Some (c - 87)
  else if (65 <=? c) && (c <=? 70) then Some (c - 55)
  else None.

Definition escape (c : N) : option N :=
  if c =? dquote then Some c
  else if c =? ch "\" then Some c
  else if c =? ch "/" then Some c
  else if c =? ch "b" then Some 8
  else if c =? ch "f" then Some 12
  else if c =? ch "n" then Some 10
  else if c =? ch "r" then Some 13
  else if c =? ch "t" then Some 9
  else None.

(** The characters of a string literal after its opening quote. *)
Fixpoint chars (fuel : nat) (s acc : str) : option (str * str) :=
  match fuel with
  | O => None
  | S f =>
      match s with
      | [] => None
      | c :: r =>
          if c =? dquote then Some (rev acc, r)
          else if c =? ch "\" then
            match r with
            | e :: r' =>
                if e =? ch "u" then
                  match r' with
                  | a :: b :: c' :: d :: r'' =>
                      match hexDigit a, hexDigit b, hexDigit c', hexDigit d with
                      | Some x, Some y, Some z, Some w =>
                          chars f r'' (((x * 16 + y) * 16 + z) * 16 + w :: acc)
                      | _, _, _, _ => None
                      end
                  | _ => None
                  end
                else
                  match escape e with
                  | Some x => chars f r' (x :: acc)
                  | None => None
                  end
            | [] => None
            end
          else if c <? 32 then None
          else chars f r (c :: acc)
      end
  end.

Fixpoint digits (s : str) (acc : Z) : Z * str :=
  match s with
  | c :: r =>
      if (48 <=? c) && (c <=? 57)
      then digits r (acc * 10 + Z.of_N (c - 48))%Z
      else (acc, s)
  | [] => (acc, [])
  end.

Definition isDigit (c : N) : bool := (48 <=? c) && (c <=? 57).

(** An integer; a fraction or an exponent is not read. *)
Definition number (s : str) : option (Z * str) :=
  let '(neg, r) :=
    match s with
    | c :: r => if c =? ch "-" then (true, r) else (false, s)
    | [] => (false, s)
    end in
  match r with
  | c :: r' =>
      if isDigit c then
        let '(n, rest) := if c =? 48 then (0%Z, r') else digits r 0%Z in
        match rest with
        | d :: _ =>
            if (d =? ch ".") || (d =? ch "e") || (d =? ch "E") || isDigit d
            then None
            else Some (if neg then (- n)%Z else n, rest)
        | [] => Some (if neg then (- n)%Z else n, rest)
        end
      else None
  | [] => None
  end.

Section Containers.

Variable value : str -> option (json * str).

(** Elements after [[], up to the closing bracket. *)
Fixpoint elements (fuel : nat) (s : str) (acc : list json)
  : option (list json * str) :=
  match fuel with
  | O => None
  | S f =>
      match value s with
      | Some (v, r) =>
          match ws r with
          | c :: r' =>
              if c =? ch "," then elements f r' (v :: acc)
              else if c =? ch "]" then Some (rev (v :: acc), r')
              else None
          | [] => None
          end
      | None => None
      end
  end.

(** Members after [{], up to the closing brace; a repeated name keeps its
    place and takes the later value. *)
Fixpoint members (fuel : nat) (s : str) (acc : list (str * json))
  : option (list (str * json) * str) :=
  match fuel with
  | O => None
  | S f =>
      match ws s with
      | q :: r =>
          if q =? dquote then
            match chars (S (List.length r)) r [] with
            | Some (name, r1) =>
                match ws r1 with
                | c :: r2 =>
                    if c =? ch ":" then
                      match value r2 with
                      | Some (v, r3) =>
                          match ws r3 with
                          | d :: r4 =>
                              if d =? ch "," then members f r4 (setField name v acc)
                              else if d =? ch "}" then Some (setField name v acc, r4)
                              else None
                          | [] => None
                          end
                      | None => None
                      end
                    else None
                | [] => None
                end
            | None => None
            end
          else None
      | [] => None
      end
  end.

End Containers.

Fixpoint value (fuel : nat) (s : str) : option (json * str) :=
  match fuel with
  | O => None
  | S f =>
      match ws s with
      | c :: r =>
          if c =? dquote then
            match chars (S (List.length r)) r [] with
            | Some (t, r') => Some (JStr t, r')
            | None => None
            end
          else if c =? ch "[" then
            match ws r with
            | d :: r' =>
                if d =? ch "]" then Some (JArr [], r')
                else
                  match elements (value f) (S (List.length r)) r [] with
                  | Some (vs, r'') => Some (JArr vs, r'')
                  | None => None
                  end
            | [] => None
            end
          else if c =? ch "{" then
            match ws r with
            | d :: r' =>
                if d =? ch "}" then Some (JObj [], r')
                else
                  match members (value f) (S (List.length r)) r [] with
                  | Some (fs, r'') => Some (JObj fs, r'')
                  | None => None
                  end
            | [] => None
            end
          else if startsWith (lit "null") (c :: r) then Some (JNull, skipn 3 r)
          else if startsWith (lit "true") (c :: r) then Some (JBool true, skipn 3 r)
          else if startsWith (lit "false") (c :: r) then Some (JBool false, skipn 4 r)
          else
            match number (c :: r) with
            | Some (n, r') => Some (JNum n, r')
            | None => None
            end
      | [] => None
      end
  end.

Definition parse (text : str) : option json :=
  match value (S (List.length text)) text with
  | Some (v, rest) => match ws rest with [] => Some v | _ => None end
  | None => None
  end.

End JsonText.

(* ------------------------------------------------------------------ *)
(** ** Response post-processing (services/geminiService.ts) *)

Module Service.

Local Open Scope N_scope.

Fixpoint indexOf (c : N) (s : str) : option nat :=
  match s with
  | [] => None
  | d :: s' => if d =? c then Some O else option_map S (indexOf c s')
  end.

Fixpoint lastIndexOf (c : N) (s : str) : option nat :=
  match s with
  | [] => None
  | d :: s' =>
      match lastIndexOf c s' with
      | Some i => Some (S i)
      | None => if d =? c then Some O else None
      end
  end.

(** [s.substring(a, b)] for [a <= b]. *)
Definition substring (a b : nat) (s : str) : str := firstn (b - a) (skipn a s).

Definition extractJsonArray (text : str) : option str :=
  match indexOf lbrack text, lastIndexOf rbrack text with
  | Some firstBracket, Some lastBracket =>
      if (firstBracket <? lastBracket)%nat
      then Some (substring firstBracket (lastBracket + 1) text)
      else None
  | _, _ => None
  end.

Definition sentinel : str := lit "---REFERENCES_START---".

(** Case-insensitive comparison with a lower-case ASCII pattern: the [i]
    flag makes a pattern letter match its two ASCII cases only. *)
Definition lower (c : N) : N := if (65 <=? c) && (c <=? 90) then c + 32 else c.

Fixpoint startsWithCI (a s : str) : bool :=
  match a, s with
  | [], _ => true
  | x :: a', y :: s' => (x =? lower y) && startsWithCI a' s'
  | _ :: _, [] => false
  end.

(** What a greedy [[:\s]*] consumes. *)
Fixpoint colonSpaces (s : str) : nat :=
  match s with
  | c :: s' => if (c =? ch ":") || isWhiteSpace c then S (colonSpaces s') else O
  | [] => O
  end.

(** [/Cited Text[:\s]*/i] replaced by the empty string *)
Definition citedTextLabel : matcher := fun s =>
  if startsWithCI (lit "cited text") s
  then Some ((10 + colonSpaces (skipn 10 s))%nat, [])
  else None.

Definition stripLabel (s : str) : str := trim (replaceFirst citedTextLabel s).

(** The fixed text returned when no narrative was found. *)
Definition fallbackText : str :=
  [48516; 49437; 32; 44208; 44284; 47484; 32; 49373; 49457; 54616; 51648; 32;
   47803; 54664; 49845; 45768; 45796; 46].

Record CitationResult := mkCitationResult {
  r_originalText : str;
  r_citedText : str;
  r_references : list json;
  r_groundingUrls : list GroundingUrl
}.

(** [ref.title && ref.originalSourceSentence && ref.citationTag], as a
    condition. *)
Definition keeps (ref : json) : Outcome bool :=
  bindO (getProp ref (lit "title")) (fun t =>
  if truthy t then
    bindO (getProp ref (lit "originalSourceSentence")) (fun o =>
    if truthy o then
      bindO (getProp ref (lit "citationTag")) (fun c => Returns (truthy c))
    else Returns false)
  else Returns false).

(** [items.filter(callback)] with a callback that may throw. *)
Fixpoint filterO (p : json -> Outcome bool) (items : list json)
  : Outcome (list json) :=
  match items with
  | [] => Returns []
  | v :: rest =>
      bindO (p v) (fun b =>
      bindO (filterO p rest) (fun kept =>
      Returns (if b then v :: kept else kept)))
  end.

Section WithEnvironment.

(** [JSON.parse]; [None] when it throws its [SyntaxError]. *)
Variable JSON_parse : str -> option json.

(** [Math.floor(Math.random() * 1000)] at the successive calls of
    [Math.random]. *)
Variable randomInt : nat -> Z.

(** [try { rawReferences = JSON.parse(jsonContent); } catch (e) { ... }]
    with [rawReferences] still holding its initial [[]]. *)
Definition tryParse (jsonContent : str) : json :=
  match JSON_parse jsonContent with
  | Some v => v
  | None => JArr []
  end.

(** The sentinel / no-sentinel block: the narrative and the raw payload. *)
Definition parseStep (fullResponse : str) : str * json :=
  if includes sentinel fullResponse then
    let parts := split sentinel fullResponse in
    let citedText := stripLabel (nth 0 parts []) in
    match extractJsonArray (nth 1 parts []) with
    | Some jsonContent =>
        if nonEmpty jsonContent then (citedText, tryParse jsonContent)
        else (citedText, JArr [])
    | None => (citedText, JArr [])
    end
  else
    match extractJsonArray fullResponse with
    | Some jsonContent =>
        if nonEmpty jsonContent then
          (stripLabel (nth 0 (split jsonContent fullResponse) []),
           tryParse jsonContent)
        else (trim fullResponse, JArr [])
    | None => (trim fullResponse, JArr [])
    end.

(** The [map] callback: [{ ...ref, isSelected: true, id: ref.id || ... }];
    [k] counts the calls of [Math.random] made so far. *)
Definition normalize (k : nat) (ref : json) : Outcome (json * nat) :=
  bindO (getProp ref (lit "id")) (fun i =>
  let fields := setField (lit "isSelected") (JBool true) (ownFields ref) in
  match i with
  | Some v =>
      if truthy i then Returns (JObj (setField (lit "id") v fields), k)
      else Returns (JObj (setField (lit "id") (JNum (randomInt k)) fields), S k)
  | None => Returns (JObj (setField (lit "id") (JNum (randomInt k)) fields), S k)
  end).

Fixpoint mapNormalize (k : nat) (items : list json) : Outcome (list json * nat) :=
  match items with
  | [] => Returns ([], k)
  | v :: rest =>
      bindO (normalize k v) (fun '(w, k1) =>
      bindO (mapNormalize k1 rest) (fun '(ws, k2) =>
      Returns (w :: ws, k2)))
  end.

Definition buildReferences (k : nat) (rawReferences : json)
  : Outcome (list json * nat) :=
  match rawReferences with
  | JArr items => bindO (filterO keeps items) (mapNormalize k)
  | _ => Returns ([], k)
  end.

(** [processCitations] from the point where the model's answer text is
    available; an error thrown inside is re-thrown by the [catch]. *)
Definition processResponse (k : nat) (input fullResponse : str)
  : Outcome (CitationResult * nat) :=
  let '(citedText, rawReferences) := parseStep fullResponse in
  bindO (buildReferences k rawReferences) (fun '(refs, k') =>
  Returns
    (mkCitationResult input
       (if nonEmpty citedText then citedText else fallbackText) refs [],
     k')).

End WithEnvironment.

End Service.

(* ------------------------------------------------------------------ *)
(** ** Frame of a toggle

    What a toggle may change between a session and its updated version. *)

Definition sameButSelection (r r' : Reference) : Prop :=
  id r' = id r /\ title r' = title r /\ authors r' = authors r
  /\ year r' = year r /\ journal r' = journal r /\ url r' = url r
  /\ grade r' = grade r /\ lang r' = lang r /\ snippet r' = snippet r
  /\ citationReason r' = citationReason r
  /\ relatedCitedSentence r' = relatedCitedSentence r
  /\ originalSourceSentence r' = originalSourceSentence r
  /\ sourceParagraph r' = sourceParagraph r
  /\ sourceSection r' = sourceSection r
  /\ citationTag r' = citationTag r.

(** [hit] tells whether the owning session is the one addressed. *)
Definition refFrame (hit : bool) (refId : Z) (r r' : Reference) : Prop :=
  sameButSelection r r'
  /\ isSelected r' =
       if hit && Z.eqb (id r) refId
       then Some (negb (truthyFlag (isSelected r)))
       else isSelected r.

Definition sessionFrame (sessionTimestamp refId : Z) (s s' : SavedCitation)
  : Prop :=
  originalText s' = originalText s
  /\ citedText s' = citedText s
  /\ groundingUrls s' = groundingUrls s
  /\ timestamp s' = timestamp s
  /\ Forall2 (refFrame (Z.eqb (timestamp s) sessionTimestamp) refId)
       (references s) (references s').

(* ------------------------------------------------------------------ *)
(** ** The earlier variant of the post-processing

    An earlier [processCitations] locates the payload with regular
    expressions and returns the decoded value as it is. *)

Module Legacy.

Import Service.

Local Open Scope N_scope.

(** [/\[[\s\S]*\]/]: from an opening bracket, the greedy [[\s\S]*] runs to
    the end of the text and gives back characters up to the last closing
    bracket. *)
Definition bracketSpan (s : str) : option nat :=
  match s with
  | c :: r =>
      if c =? lbrack then
        match lastIndexOf rbrack r with
        | Some i => Some (i + 2)%nat
        | None => None
        end
      else None
  | [] => None
  end.

(** Length of the longest prefix of [t] that ends with [}\s*\]]. *)
Fixpoint lastClose (t : str) : option nat :=
  match t with
  | [] => None
  | c :: t' =>
      match lastClose t' with
      | Some n => Some (S n)
      | None =>
          if c =? ch "}" then
            match skipn (spaces t') t' with
            | d :: _ => if d =? rbrack then Some (spaces t' + 2)%nat else None
            | [] => None
            end
          else None
      end
  end.

(** [/\[\s*{[\s\S]*}\s*\]/] *)
Definition objectArraySpan (s : str) : option nat :=
  match s with
  | c :: r =>
      if c =? lbrack then
        match skipn (spaces r) r with
        | d :: t =>
            if d =? ch "{" then
              match lastClose t with
              | Some n => Some (spaces r + n + 2)%nat
              | None => None
              end
            else None
        | [] => None
        end
      else None
  | [] => None
  end.

(** [s.match(re)], as the text of the first match. *)
Fixpoint matchFirst (m : str -> option nat) (s : str) : option str :=
  match s with
  | [] => None
  | _ :: s' =>
      match m s with
      | Some n => Some (firstn n s)
      | None => matchFirst m s'
      end
  end.

Section WithEnvironment.

Variable JSON_parse : str -> option json.

Definition parseStep (fullResponse : str) : str * json :=
  if includes sentinel fullResponse then
    let parts := split sentinel fullResponse in
    let citedText := stripLabel (nth 0 parts []) in
    match matchFirst bracketSpan (nth 1 parts []) with
    | Some jsonPart => (citedText, tryParse JSON_parse jsonPart)
    | None => (citedText, JArr [])
    end
  else
    match matchFirst objectArraySpan fullResponse with
    | Some jsonMatch =>
        (stripLabel (nth 0 (split jsonMatch fullResponse) []),
         tryParse JSON_parse jsonMatch)
    | None => (stripLabel fullResponse, JArr [])
    end.

(** The result, given the grounding links read from the answer's
    metadata; the decoded payload is returned without validation. *)
Definition processResponse (links : list GroundingUrl) (input fullResponse : str)
  : str * str * json * list GroundingUrl :=
  let '(citedText, references) := parseStep fullResponse in
  (input, if nonEmpty citedText then citedText else fullResponse,
   references, links).

End WithEnvironment.

End Legacy.

(* ------------------------------------------------------------------ *)
(** ** Reading the validation step as data *)

Module Validation.

Import Service.

(** What [keeps] computes on a value that is not [null]: only an object
    has the three properties. *)
Definition keptRecord (ref : json) : bool :=
  match ref with
  | JObj fields =>
      truthy (lookup (lit "title") fields)
      && truthy (lookup (lit "originalSourceSentence") fields)
      && truthy (lookup (lit "citationTag") fields)
  | _ => false
  end.

Definition idOf (ref : json) : option json :=
  match ref with JObj fields => lookup (lit "id") fields | _ => None end.

Section WithRandom.

Variable randomInt : nat -> Z.

(** [w] is a normalised copy of the record [v]: an object whose
    [isSelected] is [true], whose [id] is that of [v] when it is truthy and
    one of the random integers otherwise, and whose other properties are
    those of [v]. *)
Definition normalizedAs (v w : json) : Prop :=
  exists fields,
    w = JObj fields
    /\ lookup (lit "isSelected") fields = Some (JBool true)
    /\ (if truthy (idOf v) then lookup (lit "id") fields = idOf v
        else exists j, lookup (lit "id") fields = Some (JNum (randomInt j)))
    /\ forall key, key <> lit "id" -> key <> lit "isSelected" ->
         lookup key fields = lookup key (ownFields v).

End WithRandom.

End Validation.

(* ------------------------------------------------------------------ *)
(** ** The specification's alternatives

    Definitions that follow the wording of the specification rather than
    the source, kept apart to be compared with the code. *)

Module Spec.

Local Open Scope N_scope.

(** Per-record validity as the specification words it: a non-empty title,
    at least one of ([originalSourceSentence], [snippet]) and a non-empty
    [citationTag]. *)
Definition specValid (ref : json) : bool :=
  match ref with
  | JObj fields =>
      truthy (lookup (lit "title") fields)
      && (truthy (lookup (lit "originalSourceSentence") fields)
          || truthy (lookup (lit "snippet") fields))
      && truthy (lookup (lit "citationTag") fields)
  | _ => false
  end.

(** The balanced-bracket scan of the specification.  From the opening
    bracket on, [depth] goes up on an unescaped bracket or brace outside a
    string literal and down on the closing ones; [inString] flips on an
    unescaped double quote; [escaped] holds for the character after an
    unescaped backslash.  The span ends where the depth is back to zero;
    [acc] is the span read so far, reversed. *)
Fixpoint scanDepth (depth : Z) (inString escaped : bool) (acc s : str)
  : option str :=
  match s with
  | [] => None
  | c :: r =>
      if escaped then scanDepth depth inString false (c :: acc) r
      else if c =? ch "\" then scanDepth depth inString true (c :: acc) r
      else if c =? dquote then scanDepth depth (negb inString) false (c :: acc) r
      else if inString then scanDepth depth inString false (c :: acc) r
      else if (c =? ch "[") || (c =? ch "{") then
        scanDepth (depth + 1) inString false (c :: acc) r
      else if (c =? ch "]") || (c =? ch "}") then
        if Z.eqb (depth - 1) 0 then Some (rev (c :: acc))
        else scanDepth (depth - 1) inString false (c :: acc) r
      else scanDepth depth inString false (c :: acc) r
  end.

(** The search for the first unescaped opening bracket outside a string
    literal, followed by the depth scan. *)
Fixpoint scanStart (inString escaped : bool) (s : str) : option str :=
  match s with
  | [] => None
  | c :: r =>
      if escaped then scanStart inString false r
      else if c =? ch "\" then scanStart inString true r
      else if c =? dquote then scanStart (negb inString) false r
      else if (c =? ch "[") && negb inString then scanDepth 1 false false [c] r
      else scanStart inString false r
  end.

Definition balancedScan (text : str) : option str := scanStart false false text.

(** The precondition under which the specification states that the order
    of removal does not matter: no tag of a deselected reference is a
    substring of a different tag of the same list. *)
Definition noTagWithinAnother (refs : list Reference) : bool :=
  forallb (fun r =>
    match citationTag r with
    | Some t =>
        truthyFlag (isSelected r)
        || forallb (fun r' =>
             match citationTag r' with
             | Some t' => str_eqb t t' || negb (includes t t')
             | None => true
             end) refs
    | None => true
    end) refs.

End Spec.

(* ------------------------------------------------------------------ *)
(** ** Example data *)

Module Examples.

Import Store.

(** A store with two sessions: the one at address 2 (timestamp 100) holds
    the references at 0 and 1, the one at 4 (timestamp 200) the reference
    at 3.  The history lists the most recent session first. *)
Definition heap0 : heap :=
  [ RefCell (tagRef 1 (Some (lit "[1]")) (Some true));
    RefCell (tagRef 2 (Some (lit "[2]")) None);
    SessionCell (mkSessionObj (lit "draft") (lit "Draft [1] [2].") [0; 1]%nat [] 100);
    RefCell (tagRef 1 (Some (lit "(Lee, 2023)")) (Some false));
    SessionCell (mkSessionObj (lit "other") (lit "Other (Lee, 2023).") [3]%nat [] 200) ].

Definition history0 : list addr := [4; 2]%nat.

Definition sessions0 : list SavedCitation :=
  [ mkSavedCitation (lit "other") (lit "Other (Lee, 2023).")
      [tagRef 1 (Some (lit "(Lee, 2023)")) (Some false)] [] 200;
    mkSavedCitation (lit "draft") (lit "Draft [1] [2].")
      [tagRef 1 (Some (lit "[1]")) (Some true); tagRef 2 (Some (lit "[2]")) None]
      [] 100 ].

(** A record with a title holding brackets, as a decoded value and as the
    JSON text of a one-element array. *)
Definition draftStudy : json :=
  JObj [ (lit "id", JNum 1);
         (lit "title", JStr (lit "A [draft] Study"));
         (lit "originalSourceSentence", JStr (lit "We study drafts."));
         (lit "citationTag", JStr (lit "[1]")) ].

Definition draftStudyBody : str :=
  quoted "{'id': 1, 'title': 'A [draft] Study', 'originalSourceSentence': 'We study drafts.', 'citationTag': '[1]'}".

Definition draftStudyText : str := lbrack :: draftStudyBody ++ [rbrack].

Definition newline : str := [10%N].

(** A response whose payload is followed by a remark that cites a tag. *)
Definition remarkResponse : str :=
  lit "Cited Text: Drafts matter [1]." ++ newline ++ Service.sentinel ++ newline
  ++ draftStudyText ++ newline ++ lit "Note: [1] is a preprint.".

(** A response whose payload is the array alone. *)
Definition plainResponse : str :=
  lit "Cited Text: Drafts matter [1]." ++ newline ++ Service.sentinel ++ newline
  ++ draftStudyText ++ newline.

(** A response whose payload is wrapped in a fenced block labeled json. *)
Definition fencedPayload : str :=
  newline ++ lit "```json" ++ newline ++ draftStudyText ++ newline ++ lit "```".

Definition fencedResponse : str :=
  lit "Cited Text: Drafts matter [1]." ++ newline ++ Service.sentinel
  ++ fencedPayload.

(** A record with a snippet as its only evidence. *)
Definition snippetOnly : json :=
  JObj [ (lit "id", JNum 1);
         (lit "title", JStr (lit "A Study"));
         (lit "snippet", JStr (lit "Summary of the paper."));
         (lit "citationTag", JStr (lit "[1]")) ].

(** A record without an id. *)
Definition noId : json :=
  JObj [ (lit "title", JStr (lit "Another Study"));
         (lit "originalSourceSentence", JStr (lit "We study more."));
         (lit "citationTag", JStr (lit "[2]")) ].

(** "AI improves outcomes [1] and [2]." as plain characters and groups,
    and three references. *)
Definition outcomes : list Flat.item :=
  Flat.plains (lit "AI improves outcomes ") ++ [Flat.Group (lit "1")]
  ++ Flat.plains (lit " and ") ++ [Flat.Group (lit "2")]
  ++ Flat.plains (lit ".").

Definition ref1 : Reference := tagRef 1 (Some (lit "[1]")) (Some false).
Definition ref2 : Reference := tagRef 2 (Some (lit " [2] ")) None.
Definition ref3 : Reference := tagRef 3 (Some (lit "[3]")) (Some true).

End Examples.

(* ------------------------------------------------------------------ *)
(** ** The tags a list of references removes *)

(** The active tags of the references, in the order of the list. *)
Definition activeTags (refs : list Reference) : list str :=
  flat_map (fun ref => match activeTag ref with Some tag => [tag] | None => [] end)
    refs.

(** A session as it is displayed. *)
Definition rendered (s : SavedCitation) : str :=
  getFilteredCitedText (citedText s) (references s).

(** A length-only expression seen as a matcher. *)
Definition asMatcher (m : str -> option nat) : matcher :=
  fun s => match m s with Some n => Some (n, []) | None => None end.

(** A transformation that never lengthens a text and changes it only by
    making it shorter. *)
Definition shrinks (f : str -> str) : Prop :=
  forall s, (List.length (f s) <= List.length s)%nat
            /\ (List.length (f s) = List.length s -> f s = s).

(** A match spans at least two characters of the text, and what replaces
    it is at most one character long. *)
Definition contracting (m : matcher) : Prop :=
  forall s k r, m s = Some (k, r) ->
    (2 <= k <= List.length s)%nat /\ (List.length r <= 1)%nat.

(* ------------------------------------------------------------------ *)
(** ** Bibliographic exports (utils/enwGenerator.ts, utils/risGenerator.ts) *)

Module Bibliography.

Definition nl : str := [10%N].

(** The statements of the [forEach] callback of [generateENW], in order. *)
Definition enwStep (enwContent : str) (ref : Reference) : str :=
  let enwContent := enwContent ++ lit "%0 Journal Article" ++ nl in
  let enwContent := enwContent ++ lit "%T " ++ title ref ++ nl in
  let enwContent := enwContent ++ lit "%A " ++ authors ref ++ nl in
  let enwContent := enwContent ++ lit "%D " ++ year ref ++ nl in
  let enwContent := enwContent ++ lit "%J " ++ journal ref ++ nl in
  let enwContent := enwContent ++ lit "%U " ++ url ref ++ nl in
  enwContent ++ nl.

Definition generateENW (references : list Reference) : str :=
  fold_left enwStep references [].

(** The statements of the [forEach] callback of [generateRIS]. *)
Definition risStep (risContent : str) (ref : Reference) : str :=
  let risContent := risContent ++ lit "TY  - JOUR" ++ nl in
  let risContent := risContent ++ lit "TI  - " ++ title ref ++ nl in
  let risContent := risContent ++ lit "AU  - " ++ authors ref ++ nl in
  let risContent := risContent ++ lit "PY  - " ++ year ref ++ nl in
  let risContent := risContent ++ lit "JO  - " ++ journal ref ++ nl in
  let risContent := risContent ++ lit "UR  - " ++ url ref ++ nl in
  risContent ++ lit "ER  - " ++ nl ++ nl.

Definition generateRIS (references : list Reference) : str :=
  fold_left risStep references [].

(** The five fields both formats write. *)
Definition bibFields (ref : Reference) : list str :=
  [title ref; authors ref; year ref; journal ref; url ref].

Definition lineFree (s : str) : bool := forallb (fun c => negb (N.eqb c 10)) s.

(** None of the five fields of the reference holds a line feed. *)
Definition fieldsLineFree (ref : Reference) : bool :=
  forallb lineFree (bibFields ref).

End Bibliography.

(* ------------------------------------------------------------------ *)
(** ** Application state (App.tsx) *)

Module App.

Inductive AppStatus := IDLE | UPLOADING | SEARCHING | SYNCING_DOCS | COMPLETED | ERROR.

(** [interface CitationResult], as the application holds it. *)
Record CitationResult := mkCitationResult {
  res_originalText : str;
  res_citedText : str;
  res_references : list Reference;
  res_groundingUrls : list GroundingUrl
}.

(** [{ ...data, timestamp: Date.now() }] *)
Definition stamp (data : CitationResult) (now : Z) : SavedCitation :=
  mkSavedCitation (res_originalText data) (res_citedText data)
    (res_references data) (res_groundingUrls data) now.

(** The pieces of component state the handlers below read and write. *)
Record State := mkState {
  savedCitations : list SavedCitation;
  selectedSessionTimestamp : option Z;
  status : AppStatus;
  error : option str
}.

(** How the awaited [processCitations] call ended: with a result, or with
    a thrown value whose [message] may be absent. *)
Inductive Settled :=
| Resolved (data : CitationResult)
| Rejected (message : option str).

(** The message shown when the thrown value carries none. *)
Definition defaultError : str :=
  [48516; 49437; 32; 51473; 32; 50724; 47448; 44032; 32; 48156; 49373; 54664;
   49845; 45768; 45796; 46]%N.

(** [handleCiteAction], from the content of the input box to the state
    left once the call has settled; [now] is what [Date.now()] returns. *)
Definition handleCiteAction (inputText : str) (now : Z) (outcome : Settled)
  (st : State) : State :=
  if negb (nonEmpty (trim inputText)) then st
  else
    match outcome with
    | Resolved data =>
        mkState (stamp data now :: savedCitations st) (Some now) COMPLETED None
    | Rejected message =>
        mkState (savedCitations st) (selectedSessionTimestamp st) ERROR
          (Some (match message with
                 | Some m => if nonEmpty m then m else defaultError
                 | None => defaultError
                 end))
    end.

(** The [activeSession] memo: a timestamp that is [null] or [0] is no
    selection. *)
Definition activeSession (st : State) : option SavedCitation :=
  match selectedSessionTimestamp st with
  | None => hd_error (savedCitations st)
  | Some t =>
      if Z.eqb t 0 then hd_error (savedCitations st)
      else
        match find (fun s => Z.eqb (timestamp s) t) (savedCitations st) with
        | Some s => Some s
        | None => hd_error (savedCitations st)
        end
  end.

(** [toggleReferenceSelection] as a state update. *)
Definition toggleReferenceSelection (sessionTimestamp refId : Z) (st : State)
  : State :=
  mkState
    (Toggle.toggleReferenceSelection sessionTimestamp refId (savedCitations st))
    (selectedSessionTimestamp st) (status st) (error st).

(** [references.filter(r => r.isSelected)] *)
Definition activeReferences (refs : list Reference) : list Reference :=
  filter (fun r => truthyFlag (isSelected r)) refs.

Inductive Format := MD | DOC.
Inductive Scope := SELECTED | ALL.

Definition scopeName (scope : Scope) : str :=
  match scope with SELECTED => lit "SELECTED" | ALL => lit "ALL" end.

(** [filteredTargets] of [handleExportResources]. *)
Definition filteredTargets (scope : Scope) (st : State) : list SavedCitation :=
  let targets :=
    match scope with
    | SELECTED => match activeSession st with Some s => [s] | None => [] end
    | ALL => savedCitations st
    end in
  filter (fun t => negb (Nat.eqb (List.length (references t)) 0))
    (map (fun t =>
            mkSavedCitation (originalText t) (citedText t)
              (activeReferences (references t)) (groundingUrls t) (timestamp t))
         targets).

(** An integer in a template literal. *)
Definition decimal (z : Z) : str := lit (NilZero.string_of_int (Z.to_int z)).

(** The arguments of a [downloadFile] call. *)
Record Download := mkDownload {
  content : str;
  fileName : str;
  contentType : str
}.

Section WithExporters.

(** [generateEvidenceMD] and [generateEvidenceDoc] of utils/exportEvidence,
    which is not part of the sources at hand. *)
Variables generateEvidenceMD generateEvidenceDoc : list SavedCitation -> str.

(** [handleExportResources]: the download it triggers, if any. *)
Definition handleExportResources (format : Format) (scope : Scope) (now : Z)
  (st : State) : option Download :=
  let targets := filteredTargets scope st in
  if Nat.eqb (List.length targets) 0 then None
  else
    match format with
    | MD =>
        Some (mkDownload (generateEvidenceMD targets)
                (lit "Evidence_" ++ scopeName scope ++ lit "_" ++ decimal now
                 ++ lit ".md")
                (lit "text/markdown"))
    | DOC =>
        Some (mkDownload (generateEvidenceDoc targets)
                (lit "Evidence_" ++ scopeName scope ++ lit "_" ++ decimal now
                 ++ lit ".doc")
                (lit "application/msword"))
    end.

End WithExporters.

(** The [Export .ENW] button of [ResultCard]. *)
Definition exportEnw (res : SavedCitation) : Download :=
  mkDownload (Bibliography.generateENW (activeReferences (references res)))
    (lit "citation_" ++ decimal (timestamp res) ++ lit ".enw")
    (lit "text/plain").

(** *** Paragraphs of an uploaded document ([processFile]) *)

(** [/\n\s*\n/]: from a line feed, the greedy [\s*] takes the whole
    whitespace run and gives back characters down to its last line feed. *)
Definition blankLine (s : str) : option nat :=
  match s with
  | c :: r =>
      if N.eqb c 10 then
        match Service.lastIndexOf 10%N (firstn (spaces r) r) with
        | Some i => Some (i + 2)%nat
        | None => None
        end
      else None
  | [] => None
  end.

(** [s.split(re)] for an expression without capture groups that never
    matches the empty string. *)
Fixpoint splitBy_from (m : str -> option nat) (skip : nat) (cur s : str)
  : list str :=
  match s with
  | [] => [rev cur]
  | c :: s' =>
      match skip with
      | S k => splitBy_from m k cur s'
      | O =>
          match m s with
          | Some (S n) => rev cur :: splitBy_from m n [] s'
          | _ => splitBy_from m O (c :: cur) s'
          end
      end
  end.

Definition splitBy (m : str -> option nat) (s : str) : list str :=
  splitBy_from m O [] s.

(** [fullText.split(/\n\s*\n/).map(p => p.trim()).filter(p => p.length > 40)] *)
Definition paragraphsOf (fullText : str) : list str :=
  filter (fun p => Nat.ltb 40 (List.length p))
    (map trim (splitBy blankLine fullText)).

(** The text holds a blank line: two line feeds with nothing but
    whitespace between them. *)
Definition holdsBlankLine (p : str) : Prop :=
  exists pre ws post,
    forallb isWhiteSpace ws = true /\ p = pre ++ 10%N :: ws ++ 10%N :: post.

(** The text of a document, page by page: the items of a page joined by a
    space, each page followed by two line feeds. *)
Definition fullTextOf (pages : list (list str)) : str :=
  fold_left (fun fullText items => fullText ++ join (lit " ") items ++ [10; 10]%N)
    pages [].

End App.

(* ------------------------------------------------------------------ *)
(** ** The earlier application shells *)

Module EarlierApp.

(** [updateCitedText] of the earlier App.tsx. *)
Definition updateCitedText (t : Z) (newText : str) (prev : list SavedCitation)
  : list SavedCitation :=
  map (fun c =>
         if Z.eqb (timestamp c) t
         then mkSavedCitation (originalText c) newText (references c)
                (groundingUrls c) (timestamp c)
         else c) prev.

Definition isDigit (c : N) : bool := N.leb 48 c && N.leb c 57.

(** The year box: [e.target.value.replace(/\D/g, '').slice(0, 4)] *)
Definition typedYear (value : str) : str := firstn 4 (filter isDigit value).

(** [customYear.length === 4 ? customYear : selectedYear] *)
Definition finalYear (customYear selectedYear : str) : str :=
  if Nat.eqb (List.length customYear) 4 then customYear else selectedYear.

(** [/^\d{4}$/.test(yearRange)] of the service it calls. *)
Definition isCustomYear (yearRange : str) : bool :=
  Nat.eqb (List.length yearRange) 4 && forallb isDigit yearRange.

End EarlierApp.

(* ================================================================== *)
(** * Properties *)

(* ------------------------------------------------------------------ *)
(** ** Facts about [split], [join] and the replacement driver *)

Lemma split_eq (s a : str) : a <> [] -> split a s = split_from a O [] s.
Proof. destruct a; [congruence|reflexivity]. Qed.

Lemma length_pos (a : str) : a <> [] -> exists m, List.length a = S m.
Proof. destruct a; [congruence|]. simpl. eauto. Qed.

Lemma startsWith_nil (a : str) : a <> [] -> startsWith a [] = false.
Proof. destruct a; [congruence|reflexivity]. Qed.

Section SplitFacts.

Variable sep : str.
Hypothesis sep_nonempty : sep <> [].

Lemma startsWith_app (a s : str) :
  startsWith a s = true -> s = a ++ skipn (List.length a) s.
Proof.
  revert s; induction a as [|x a IH]; intros [|y s] H; simpl in *;
    try reflexivity; try discriminate.
  apply andb_prop in H as [Hxy Ha].
  apply N.eqb_eq in Hxy; subst y.
  f_equal; auto.
Qed.

Lemma startsWith_prefix (a s : str) : startsWith a (a ++ s) = true.
Proof.
  induction a as [|x a IH]; simpl; [reflexivity|].
  now rewrite N.eqb_refl, IH.
Qed.

Lemma startsWith_weaken (a s t : str) :
  startsWith a s = true -> startsWith a (s ++ t) = true.
Proof.
  revert s; induction a as [|x a IH]; intros [|y s] H; simpl in *;
    try reflexivity; try discriminate.
  apply andb_prop in H as [Hxy Ha].
  rewrite Hxy; simpl; auto.
Qed.

Lemma split_from_skip (k : nat) : forall (s cur : str),
  split_from sep k cur s = split_from sep O cur (skipn k s).
Proof.
  induction k as [|k IH]; intros s cur; [reflexivity|].
  destruct s as [|c s]; [reflexivity|].
  simpl. apply IH.
Qed.

Lemma split_from_nonnil (s : str) : forall k cur, split_from sep k cur s <> [].
Proof.
  induction s as [|c s IH]; intros k cur; simpl; [discriminate|].
  destruct k; [|apply IH].
  destruct (startsWith sep (c :: s)); [discriminate|apply IH].
Qed.

Lemma join_cons (p : str) (ps : list str) :
  ps <> [] -> join sep (p :: ps) = p ++ sep ++ join sep ps.
Proof. destruct ps; [congruence|reflexivity]. Qed.

(** Re-joining the pieces with the separator restores the text: the
    pieces are what is left once the occurrences found by the scan are
    taken out. *)
Lemma join_split_from (n : nat) : forall (s cur : str),
  (List.length s <= n)%nat ->
  join sep (split_from sep O cur s) = rev cur ++ s.
Proof.
  induction n as [|n IH]; intros s cur Hn.
  - destruct s; [simpl; now rewrite app_nil_r|simpl in Hn; lia].
  - destruct s as [|c s]; [simpl; now rewrite app_nil_r|].
    simpl split_from.
    destruct (startsWith sep (c :: s)) eqn:E.
    + rewrite join_cons by apply split_from_nonnil.
      rewrite split_from_skip, IH.
      * f_equal. simpl rev. simpl app.
        pose proof (startsWith_app _ _ E) as Hs.
        destruct (length_pos sep_nonempty) as [m Hm].
        rewrite Hs at 1. rewrite Hm. simpl. now rewrite Nat.sub_0_r.
      * rewrite length_skipn. simpl in Hn. lia.
    + rewrite IH by (simpl in Hn; lia).
      simpl. now rewrite <- app_assoc.
Qed.

Lemma join_split (s : str) : join sep (split sep s) = s.
Proof.
  rewrite (split_eq s sep_nonempty).
  now rewrite (join_split_from (n := List.length s)).
Qed.

Lemma includes_false_iff (s : str) :
  includes sep s = false <->
  forall k, (k < List.length s)%nat -> startsWith sep (skipn k s) = false.
Proof.
  induction s as [|c s IH].
  - simpl. rewrite orb_false_r, (startsWith_nil sep_nonempty).
    split; [intros _ k Hk; lia|reflexivity].
  - cbn [includes]. rewrite orb_false_iff, IH. split.
    + intros [H0 Hs] [|k] Hk; [exact H0|]. apply Hs. simpl in Hk. lia.
    + intros H. split; [apply (H O); simpl; lia|].
      intros k Hk. apply (H (S k)). simpl. lia.
Qed.

(** No piece contains the separator. *)
Lemma split_from_free (s : str) : forall k cur,
  (forall j, (j < List.length cur)%nat ->
             startsWith sep (skipn j (rev cur ++ skipn k s)) = false) ->
  Forall (fun p => includes sep p = false) (split_from sep k cur s).
Proof.
  assert (Hcur : forall cur t,
    (forall j, (j < List.length cur)%nat ->
               startsWith sep (skipn j (rev cur ++ t)) = false) ->
    includes sep (rev cur) = false).
  { intros cur t H. apply includes_false_iff. intros j Hj.
    rewrite length_rev in Hj. specialize (H j Hj).
    destruct (startsWith sep (skipn j (rev cur))) eqn:E; [|reflexivity].
    apply (startsWith_weaken _ _ t) in E.
    rewrite skipn_app in H.
    replace (j - List.length (rev cur))%nat with O in H
      by (rewrite length_rev; lia).
    simpl in H. congruence. }
  induction s as [|c s IH]; intros k cur H.
  - simpl. constructor; [|constructor].
    apply (Hcur cur (skipn k [])). exact H.
  - destruct k as [|k].
    + simpl split_from. simpl skipn in H.
      destruct (startsWith sep (c :: s)) eqn:E.
      * constructor; [apply (Hcur cur (c :: s)); exact H|].
        apply IH. simpl. intros j Hj. lia.
      * apply IH. intros j Hj. simpl skipn. simpl rev.
        rewrite <- app_assoc. simpl.
        simpl in Hj.
        destruct (Nat.eq_dec j (List.length cur)) as [->|Hne].
        -- rewrite skipn_app, <- (length_rev cur), skipn_all, Nat.sub_diag.
           simpl. exact E.
        -- apply H. lia.
    + simpl. apply IH. exact H.
Qed.

Lemma split_free (s : str) :
  Forall (fun p => includes sep p = false) (split sep s).
Proof.
  rewrite (split_eq s sep_nonempty).
  apply split_from_free. simpl. intros j Hj. lia.
Qed.

End SplitFacts.


(* ------------------------------------------------------------------ *)
(** ** Selective renderer: the worked example and absent flags *)

(** C1. With the text "AI improves outcomes [1] and [2]." and the
    references [1] (deselected) and [2] (selected), the renderer returns
    "AI improves outcomes and [2].": the occurrence of the deselected tag is
    removed and the double space left behind is collapsed. *)
Theorem C1_scenario_one :
  getFilteredCitedText (lit "AI improves outcomes [1] and [2].")
    [tagRef 1 (Some (lit "[1]")) (Some false);
     tagRef 2 (Some (lit "[2]")) (Some true)]
  = lit "AI improves outcomes and [2].".
Proof. vm_compute. reflexivity. Qed.

Lemma removeTag_absent_flag (text : str) (ref : Reference) :
  isSelected ref = None ->
  removeTag text ref = removeTag text (setSelected ref (Some false)).
Proof. intros H. unfold removeTag. rewrite H. reflexivity. Qed.

Lemma nonEmpty_true (s : str) : s <> [] -> nonEmpty s = true.
Proof. destruct s; [congruence|reflexivity]. Qed.

Lemma join_nil_concat (pieces : list str) : join [] pieces = List.concat pieces.
Proof.
  induction pieces as [|p ps IH]; [reflexivity|].
  destruct ps as [|q ps]; [simpl; now rewrite app_nil_r|].
  cbn [join List.concat app] in *. now rewrite IH.
Qed.

Lemma removeTag_absent (ref : Reference) (tag text : str) :
  isSelected ref = None -> citationTag ref = Some tag -> tag <> [] ->
  removeTag text ref
  = if nonEmpty (trim tag) then List.concat (split (trim tag) text) else text.
Proof.
  intros Hsel Htag Hne. unfold removeTag. rewrite Hsel, Htag. simpl.
  rewrite (nonEmpty_true Hne). destruct (nonEmpty (trim tag)); [|reflexivity].
  apply join_nil_concat.
Qed.

(** C9. A reference whose [isSelected] is absent and whose [citationTag]
    is non-empty is rendered exactly like a deselected one.  When the
    renderer comes to it, the text read so far is made of pieces holding no
    occurrence of the trimmed tag, with one occurrence of the tag between
    two consecutive pieces, and what the renderer returns is what it returns
    for the pieces put together without the tag and the references that
    follow: for the reference alone, the cleanup of the pieces put together.
    (A tag made of whitespace only trims to the empty string, has no
    occurrence to remove, and the reference is without effect.) *)
Theorem C9_absent_flag_removes_tag (ref : Reference) (tag : str) :
  isSelected ref = None ->
  citationTag ref = Some tag ->
  tag <> [] ->
  (forall text before after,
     getFilteredCitedText text (before ++ ref :: after)
     = getFilteredCitedText text (before ++ setSelected ref (Some false) :: after))
  /\ (trim tag <> [] ->
      forall text after,
        text = join (trim tag) (split (trim tag) text)
        /\ Forall (fun piece => includes (trim tag) piece = false)
             (split (trim tag) text)
        /\ getFilteredCitedText text (ref :: after)
           = getFilteredCitedText (List.concat (split (trim tag) text)) after
        /\ getFilteredCitedText text [ref]
           = cleanup (List.concat (split (trim tag) text)))
  /\ (trim tag <> [] ->
      forall text before after,
        getFilteredCitedText text (before ++ ref :: after)
        = getFilteredCitedText
            (List.concat (split (trim tag) (removeTags text before))) after)
  /\ (trim tag = [] ->
      forall text before after,
        getFilteredCitedText text (before ++ ref :: after)
        = getFilteredCitedText text (before ++ after)).
Proof.
  intros Hsel Htag Hne.
  assert (Hstep : forall text before after,
             removeTags text (before ++ ref :: after)
             = removeTags (removeTag (removeTags text before) ref) after)
    by (intros; unfold removeTags; now rewrite fold_left_app).
  split; [|split; [|split]].
  - intros text before after. unfold getFilteredCitedText, removeTags.
    rewrite !fold_left_app. simpl.
    now rewrite (removeTag_absent_flag _ _ Hsel).
  - intros Ht text after.
    split; [symmetry; now apply join_split|].
    split; [now apply split_free|].
    pose proof (@removeTag_absent ref tag text Hsel Htag Hne) as Hr.
    rewrite (nonEmpty_true Ht) in Hr.
    unfold getFilteredCitedText, removeTags. cbn [fold_left].
    now rewrite Hr.
  - intros Ht text before after. unfold getFilteredCitedText.
    rewrite Hstep.
    rewrite (@removeTag_absent ref tag (removeTags text before) Hsel Htag Hne).
    now rewrite (nonEmpty_true Ht).
  - intros Ht text before after. unfold getFilteredCitedText.
    rewrite Hstep.
    rewrite (@removeTag_absent ref tag (removeTags text before) Hsel Htag Hne).
    rewrite Ht. simpl. unfold removeTags. now rewrite fold_left_app.
Qed.

Lemma C9_witness :
  getFilteredCitedText (lit "See [1] and [1], then [2].")
    [tagRef 1 (Some (lit " [1] ")) None]
  = cleanup (List.concat (split (lit "[1]") (lit "See [1] and [1], then [2].")))
  /\ getFilteredCitedText (lit "See [1] and [1], then [2].")
       [tagRef 1 (Some (lit " [1] ")) None]
     = lit "See and, then [2].".
Proof.
  destruct (@C9_absent_flag_removes_tag
              (tagRef 1 (Some (lit " [1] ")) None) (lit " [1] ")
              eq_refl eq_refl ltac:(discriminate)) as (_ & Hhead & _).
  destruct (Hhead ltac:(vm_compute; discriminate)
              (lit "See [1] and [1], then [2].") []) as (_ & _ & _ & Hone).
  split; [exact Hone|]. rewrite Hone. vm_compute. reflexivity.
Defined.

(* ------------------------------------------------------------------ *)
(** ** Word diff *)

Import Diff.

Lemma str_eqb_refl (w : str) : str_eqb w w = true.
Proof. unfold str_eqb. destruct (list_eq_dec N.eq_dec w w); congruence. Qed.

Lemma classify_text (old : list str) (l : list str) :
  map snd (map (classify old) l) = l.
Proof.
  induction l as [|w l IH]; simpl; [reflexivity|]. rewrite IH. f_equal.
  unfold classify. destruct (blank w); [reflexivity|].
  destruct (existsb _ _); reflexivity.
Qed.

Lemma classify_member (old : list str) (w : str) :
  In w old -> blank w = false -> classify old w = (Unchanged, w).
Proof.
  intros Hin Hb. unfold classify. rewrite Hb.
  replace (existsb (str_eqb w) old) with true; [reflexivity|].
  symmetry. apply existsb_exists. exists w. split; [exact Hin|apply str_eqb_refl].
Qed.

(** C6, as the code has it.  With an empty baseline the guard at the top
    of [getWordDiff] answers with the revised text in one unclassified
    span: no token is marked as added.  For a non-empty text compared with
    itself the spans spell the tokens of its text content and every token
    that is not whitespace is classified as unchanged. *)
Theorem C6_word_diff (stripHtml : str -> str) :
  (forall T, getWordDiff stripHtml [] T = Whole T)
  /\ (forall T, T <> [] ->
        exists spans,
          getWordDiff stripHtml T T = Spans spans
          /\ map snd spans = words (stripHtml T)
          /\ forall c w, In (c, w) spans -> blank w = false -> c = Unchanged).
Proof.
  split; [reflexivity|].
  intros T HT. unfold getWordDiff. rewrite (nonEmpty_true HT). simpl.
  eexists. split; [reflexivity|]. split; [apply classify_text|].
  intros c w Hin Hb.
  apply in_map_iff in Hin as (w' & Hc & Hw').
  rewrite classify_member in Hc; [congruence|exact Hw'|].
  unfold classify in Hc. destruct (blank w') eqn:E.
  - inversion Hc; subst. congruence.
  - reflexivity.
Qed.

Lemma C6_witness :
  exists spans,
    getWordDiff (fun s => s) (lit "alpha  beta") (lit "alpha  beta") = Spans spans
    /\ map snd spans = words (lit "alpha  beta")
    /\ forall c w, In (c, w) spans -> blank w = false -> c = Unchanged.
Proof.
  apply (proj2 (C6_word_diff (fun s => s)) (lit "alpha  beta")).
  discriminate.
Defined.

(** As the specification words it the property fails: for the empty baseline and the revised
    text "new text" the result is the single span, not spans in which the
    two words are marked as added. *)
Lemma C6_counterexample :
  getWordDiff (fun s => s) [] (lit "new text") = Whole (lit "new text")
  /\ ~ (exists spans,
          getWordDiff (fun s => s) [] (lit "new text") = Spans spans
          /\ forall c w, In (c, w) spans -> blank w = false -> c = Added).
Proof.
  split; [reflexivity|]. intros (spans & H & _). discriminate H.
Qed.

(* ------------------------------------------------------------------ *)
(** ** Selection toggle *)

Lemma flipSelected_frame (hit : bool) (refId : Z) (r : Reference) :
  refFrame hit refId r (if hit && Z.eqb (id r) refId then flipSelected r else r).
Proof.
  unfold refFrame, sameButSelection.
  destruct (hit && Z.eqb (id r) refId); simpl; repeat split; reflexivity.
Qed.

Lemma toggleRefs_frame (refId : Z) (rs : list Reference) :
  Forall2 (refFrame true refId) rs (map (Toggle.toggleRef refId) rs).
Proof.
  induction rs as [|r rs IH]; simpl; constructor; [|exact IH].
  exact (flipSelected_frame true refId r).
Qed.

Lemma untouched_frame (refId : Z) (rs : list Reference) :
  Forall2 (refFrame false refId) rs rs.
Proof.
  induction rs as [|r rs IH]; constructor; [|exact IH].
  exact (flipSelected_frame false refId r).
Qed.

Lemma toggleSession_frame (ts refId : Z) (s : SavedCitation) :
  sessionFrame ts refId s (Toggle.toggleSession ts refId s).
Proof.
  unfold sessionFrame, Toggle.toggleSession.
  destruct (Z.eqb (timestamp s) ts); simpl; repeat split;
    auto using toggleRefs_frame, untouched_frame.
Qed.

Lemma toggle_frame (ts refId : Z) (prev : list SavedCitation) :
  Forall2 (sessionFrame ts refId) prev
    (Toggle.toggleReferenceSelection ts refId prev).
Proof.
  induction prev as [|s prev IH]; simpl; constructor; [|exact IH].
  apply toggleSession_frame.
Qed.

Section StoreFacts.

Import Store.

Lemma nth_error_ext (h ext : heap) (a : addr) (c : cell) :
  nth_error h a = Some c -> nth_error (h ++ ext) a = Some c.
Proof.
  intros H. rewrite nth_error_app1; [exact H|].
  apply nth_error_Some. congruence.
Qed.

Lemma viewRefs_ext (h ext : heap) (l : list addr) (rs : list Reference) :
  viewRefs h l = Some rs -> viewRefs (h ++ ext) l = Some rs.
Proof.
  revert rs; induction l as [|a l IH]; intros rs H; simpl in *; [exact H|].
  destruct (nth_error h a) as [[r|s]|] eqn:E; try discriminate.
  rewrite (nth_error_ext _ ext _ E).
  destruct (viewRefs h l) as [rs0|]; [|discriminate].
  now rewrite (IH rs0 eq_refl).
Qed.

Lemma viewSession_ext (h ext : heap) (a : addr) (s : SavedCitation) :
  viewSession h a = Some s -> viewSession (h ++ ext) a = Some s.
Proof.
  unfold viewSession. intros H.
  destruct (nth_error h a) as [[r|o]|] eqn:E; try discriminate.
  rewrite (nth_error_ext _ ext _ E).
  destruct (viewRefs h (o_references o)) as [rs|] eqn:V; [|discriminate].
  now rewrite (viewRefs_ext _ ext _ V).
Qed.

Lemma viewHistory_ext (h ext : heap) (l : list addr) (ss : list SavedCitation) :
  viewHistory h l = Some ss -> viewHistory (h ++ ext) l = Some ss.
Proof.
  revert ss; induction l as [|a l IH]; intros ss H; simpl in *; [exact H|].
  destruct (viewSession h a) as [s|] eqn:E; [|discriminate].
  rewrite (viewSession_ext _ ext _ E).
  destruct (viewHistory h l) as [ss0|]; [|discriminate].
  now rewrite (IH ss0 eq_refl).
Qed.

Variables sessionTimestamp refId : Z.

Lemma toggleRef_store (h : heap) (a : addr) (r : Reference) :
  nth_error h a = Some (RefCell r) ->
  exists a' ext,
    toggleRef refId a h = Some (a', h ++ ext)
    /\ nth_error (h ++ ext) a' = Some (RefCell (Toggle.toggleRef refId r)).
Proof.
  intros H. unfold toggleRef, bind, readRef, Toggle.toggleRef. rewrite H.
  destruct (Z.eqb (id r) refId).
  - exists (List.length h), [RefCell (flipSelected r)]. split; [reflexivity|].
    now rewrite nth_error_app2, Nat.sub_diag by lia.
  - exists a, []. rewrite app_nil_r. split; [reflexivity|exact H].
Qed.

Lemma toggleRefs_store (l : list addr) : forall (h : heap) (rs : list Reference),
  viewRefs h l = Some rs ->
  exists l' ext,
    mapM (toggleRef refId) l h = Some (l', h ++ ext)
    /\ viewRefs (h ++ ext) l' = Some (map (Toggle.toggleRef refId) rs).
Proof.
  induction l as [|a l IH]; intros h rs H; simpl in H.
  - inversion H; subst. exists [], []. rewrite app_nil_r. split; reflexivity.
  - destruct (nth_error h a) as [[r|s]|] eqn:E; try discriminate.
    destruct (viewRefs h l) as [rs0|] eqn:V; [|discriminate].
    inversion H; subst rs; clear H.
    destruct (toggleRef_store _ _ E) as (a' & e1 & Ht & Ha').
    destruct (IH (h ++ e1) rs0 (viewRefs_ext _ e1 _ V)) as (l' & e2 & Hm & Hv).
    exists (a' :: l'), (e1 ++ e2).
    simpl. unfold bind at 1. rewrite Ht. unfold bind at 1. rewrite Hm.
    rewrite app_assoc. split; [reflexivity|].
    simpl. rewrite (nth_error_ext _ e2 _ Ha'), Hv. reflexivity.
Qed.

Lemma toggleSession_store (h : heap) (a : addr) (s : SavedCitation) :
  viewSession h a = Some s ->
  exists a' ext,
    toggleSession sessionTimestamp refId a h = Some (a', h ++ ext)
    /\ viewSession (h ++ ext) a'
       = Some (Toggle.toggleSession sessionTimestamp refId s)
    /\ (if Z.eqb (timestamp s) sessionTimestamp
        then List.length h <= a' else a' = a)%nat.
Proof.
  unfold viewSession. intros H.
  destruct (nth_error h a) as [[r|o]|] eqn:E; try discriminate.
  destruct (viewRefs h (o_references o)) as [rs|] eqn:V; [|discriminate].
  inversion H; subst s; clear H.
  unfold toggleSession, bind, readSession, Toggle.toggleSession. rewrite E.
  simpl. destruct (Z.eqb (o_timestamp o) sessionTimestamp).
  - destruct (toggleRefs_store _ _ V) as (l' & e1 & Hm & Hv).
    rewrite Hm. unfold alloc.
    exists (List.length (h ++ e1)), (e1 ++ [SessionCell
      (mkSessionObj (o_originalText o) (o_citedText o) l'
         (o_groundingUrls o) (o_timestamp o))]).
    rewrite app_assoc. split; [reflexivity|]. split.
    + rewrite nth_error_app2, Nat.sub_diag by lia. simpl.
      now rewrite (viewRefs_ext _ _ _ Hv).
    + rewrite length_app. lia.
  - exists a, []. rewrite app_nil_r. split; [reflexivity|].
    split; [|reflexivity]. now rewrite E, V.
Qed.

Lemma toggle_store (prev : list addr) : forall (h : heap) (ss : list SavedCitation),
  viewHistory h prev = Some ss ->
  exists prev' ext,
    toggleReferenceSelection sessionTimestamp refId prev h
    = Some (prev', h ++ ext)
    /\ viewHistory (h ++ ext) prev'
       = Some (Toggle.toggleReferenceSelection sessionTimestamp refId ss)
    /\ Forall2 (fun a a' => forall s, viewSession h a = Some s ->
                  if Z.eqb (timestamp s) sessionTimestamp
                  then (List.length h <= a')%nat else a' = a) prev prev'.
Proof.
  unfold toggleReferenceSelection.
  induction prev as [|a prev IH]; intros h ss H; simpl in H.
  - inversion H; subst. exists [], []. rewrite app_nil_r.
    repeat split; constructor.
  - destruct (viewSession h a) as [s|] eqn:E; [|discriminate].
    destruct (viewHistory h prev) as [ss0|] eqn:V; [|discriminate].
    inversion H; subst ss; clear H.
    destruct (toggleSession_store _ _ E) as (a' & e1 & Ht & Ha' & Hal).
    destruct (IH (h ++ e1) ss0 (viewHistory_ext _ e1 _ V))
      as (prev' & e2 & Hm & Hv & Hrest).
    exists (a' :: prev'), (e1 ++ e2).
    simpl. unfold bind at 1. rewrite Ht. unfold bind at 1. rewrite Hm.
    rewrite app_assoc. split; [reflexivity|]. split.
    + simpl. rewrite (viewSession_ext _ e2 _ Ha'), Hv. reflexivity.
    + constructor.
      * intros s' Hs'. rewrite E in Hs'. inversion Hs'; subst s'. exact Hal.
      * eapply Forall2_impl; [|exact Hrest].
        intros b b' Hb s' Hs'.
        specialize (Hb s' (viewSession_ext _ e1 _ Hs')).
        destruct (Z.eqb (timestamp s') sessionTimestamp); [|exact Hb].
        rewrite length_app in Hb. lia.
Qed.

End StoreFacts.

(** C10. On a store in which every address of the history leads to a
    session and its references, the toggle runs to completion and only
    allocates: the store is extended, so no existing object is written to
    and the previous history still reads as before.  The new history reads
    as the previous one with each session of the given timestamp rebuilt
    and, in it, the flag of each reference of the given id negated; every
    other session is the very same object, while a rebuilt session is a
    fresh one.  Texts, grounding links, timestamps and all reference fields
    but [isSelected] are the same in both readings. *)
Theorem C10_toggle_frame (h : Store.heap) (prev : list Store.addr)
    (sessions : list SavedCitation) (sessionTimestamp refId : Z) :
  Store.viewHistory h prev = Some sessions ->
  exists prev' ext,
    Store.toggleReferenceSelection sessionTimestamp refId prev h
    = Some (prev', h ++ ext)
    /\ Store.viewHistory (h ++ ext) prev = Some sessions
    /\ Store.viewHistory (h ++ ext) prev'
       = Some (Toggle.toggleReferenceSelection sessionTimestamp refId sessions)
    /\ Forall2 (sessionFrame sessionTimestamp refId) sessions
         (Toggle.toggleReferenceSelection sessionTimestamp refId sessions)
    /\ Forall2 (fun a a' => forall s, Store.viewSession h a = Some s ->
                  if Z.eqb (timestamp s) sessionTimestamp
                  then (List.length h <= a')%nat else a' = a) prev prev'.
Proof.
  intros H.
  destruct (toggle_store sessionTimestamp refId _ _ H)
    as (prev' & ext & Hrun & Hview & Halias).
  exists prev', ext. repeat split; auto using viewHistory_ext, toggle_frame.
Qed.

Lemma C10_witness :
  exists prev' ext,
    Store.toggleReferenceSelection 100 2 Examples.history0 Examples.heap0
    = Some (prev', Examples.heap0 ++ ext)
    /\ Store.viewHistory (Examples.heap0 ++ ext) Examples.history0
       = Some Examples.sessions0
    /\ Store.viewHistory (Examples.heap0 ++ ext) prev'
       = Some (Toggle.toggleReferenceSelection 100 2 Examples.sessions0)
    /\ Forall2 (sessionFrame 100 2) Examples.sessions0
         (Toggle.toggleReferenceSelection 100 2 Examples.sessions0)
    /\ Forall2 (fun a a' => forall s,
                  Store.viewSession Examples.heap0 a = Some s ->
                  if Z.eqb (timestamp s) 100
                  then (List.length Examples.heap0 <= a')%nat else a' = a)
         Examples.history0 prev'.
Proof.
  apply (@C10_toggle_frame Examples.heap0 Examples.history0 Examples.sessions0
           100 2).
  reflexivity.
Defined.

(** The run of the example: the reference of id 2 in the session of
    timestamp 100 goes from an absent flag to [true] in a new object at
    address 5, the rebuilt session is the new object at address 6, and the
    other session keeps its address. *)
Example toggle_run :
  Store.toggleReferenceSelection 100 2 Examples.history0 Examples.heap0
  = Some ([4; 6]%nat,
          Examples.heap0 ++
          [ Store.RefCell (tagRef 2 (Some (lit "[2]")) (Some true));
            Store.SessionCell
              (Store.mkSessionObj (lit "draft") (lit "Draft [1] [2].")
                 [0; 5]%nat [] 100) ]).
Proof. vm_compute. reflexivity. Qed.

Import Service Validation Spec.


(* ------------------------------------------------------------------ *)
(** ** Validation and normalisation of the decoded payload *)

Lemma str_eqb_eq (a b : str) : str_eqb a b = true <-> a = b.
Proof. unfold str_eqb. destruct (list_eq_dec N.eq_dec a b); split; congruence. Qed.

Lemma str_eqb_neq (a b : str) : a <> b -> str_eqb a b = false.
Proof. unfold str_eqb. destruct (list_eq_dec N.eq_dec a b); congruence. Qed.

Lemma lookup_setField_same (key : str) (v : json) (fields : list (str * json)) :
  lookup key (setField key v fields) = Some v.
Proof.
  induction fields as [|[k w] fields IH]; simpl.
  - now rewrite str_eqb_refl.
  - destruct (str_eqb k key) eqn:E; simpl; rewrite E; [reflexivity|exact IH].
Qed.

Lemma lookup_setField_other (key key' : str) (v : json) (fields : list (str * json)) :
  key' <> key ->
  lookup key' (setField key v fields) = lookup key' fields.
Proof.
  intros Hne. induction fields as [|[k w] fields IH]; simpl.
  - now rewrite str_eqb_neq by congruence.
  - destruct (str_eqb k key) eqn:E; simpl.
    + apply str_eqb_eq in E. subst k. now rewrite str_eqb_neq by congruence.
    + destruct (str_eqb k key'); [reflexivity|exact IH].
Qed.

Lemma keeps_keptRecord (v : json) :
  v <> JNull -> keeps v = Returns (keptRecord v).
Proof.
  intros Hv. destruct v; try congruence; try reflexivity.
  unfold keeps, keptRecord. simpl.
  destruct (truthy (lookup (lit "title") fields)); [|reflexivity].
  destruct (truthy (lookup (lit "originalSourceSentence") fields)); reflexivity.
Qed.

Lemma filterO_filter (items : list json) :
  Forall (fun v => v <> JNull) items ->
  filterO keeps items = Returns (filter keptRecord items).
Proof.
  induction 1 as [|v items Hv _ IH]; simpl; [reflexivity|].
  rewrite (keeps_keptRecord Hv), IH. reflexivity.
Qed.

Section Normalisation.

Variable randomInt : nat -> Z.

Lemma normalize_normalizedAs (k : nat) (v : json) :
  v <> JNull ->
  exists w k',
    normalize randomInt k v = Returns (w, k') /\ normalizedAs randomInt v w.
Proof.
  intros Hv.
  assert (Hid : getProp v (lit "id") = Returns (idOf v))
    by (destruct v; try congruence; reflexivity).
  unfold normalize. rewrite Hid. simpl.
  set (fields := setField (lit "isSelected") (JBool true) (ownFields v)).
  assert (Hsel : forall x, lookup (lit "isSelected") (setField (lit "id") x fields)
                           = Some (JBool true)).
  { intros x. rewrite lookup_setField_other by discriminate.
    apply lookup_setField_same. }
  assert (Hrest : forall x key, key <> lit "id" -> key <> lit "isSelected" ->
            lookup key (setField (lit "id") x fields) = lookup key (ownFields v)).
  { intros x key H1 H2. unfold fields.
    now rewrite !lookup_setField_other by assumption. }
  unfold normalizedAs.
  destruct (idOf v) as [i|] eqn:Ei.
  - destruct (truthy (Some i)) eqn:Et.
    + eexists _, _. split; [reflexivity|]. eexists. split; [reflexivity|].
      repeat split; auto using lookup_setField_same.
    + eexists _, _. split; [reflexivity|]. eexists. split; [reflexivity|].
      repeat split; auto. exists k. apply lookup_setField_same.
  - eexists _, _. split; [reflexivity|]. eexists. split; [reflexivity|].
    simpl. repeat split; auto. exists k. apply lookup_setField_same.
Qed.

Lemma mapNormalize_normalizedAs (items : list json) : forall k,
  Forall (fun v => v <> JNull) items ->
  exists refs k',
    mapNormalize randomInt k items = Returns (refs, k')
    /\ Forall2 (normalizedAs randomInt) items refs.
Proof.
  induction items as [|v items IH]; intros k H.
  - exists [], k. split; [reflexivity|constructor].
  - inversion H as [|? ? Hv Hrest]; subst.
    destruct (normalize_normalizedAs k Hv) as (w & k1 & Hn & Hw).
    destruct (IH k1 Hrest) as (ws & k2 & Hm & Hws).
    exists (w :: ws), k2. simpl. rewrite Hn. simpl. rewrite Hm. simpl.
    split; [reflexivity|]. constructor; assumption.
Qed.

Lemma buildReferences_normalizedAs (k : nat) (items : list json) :
  Forall (fun v => v <> JNull) items ->
  exists refs k',
    buildReferences randomInt k (JArr items) = Returns (refs, k')
    /\ Forall2 (normalizedAs randomInt) (filter keptRecord items) refs.
Proof.
  intros H. unfold buildReferences. rewrite (filterO_filter H). simpl.
  apply mapNormalize_normalizedAs.
  apply Forall_forall. intros v Hin. apply filter_In in Hin as [Hin _].
  revert v Hin. now apply Forall_forall.
Qed.

End Normalisation.

(** C4, as the code has it.  In a decoded payload without [null] entries
    a record is kept if and only if it is an object whose [title],
    [originalSourceSentence] and [citationTag] are all truthy (a [snippet]
    does not stand in for the source sentence); the other entries are
    dropped without an error, and the result lists one normalised copy per
    kept record, in the order of the payload. *)
Theorem C4_record_validity (randomInt : nat -> Z) (k : nat) (items : list json) :
  Forall (fun v => v <> JNull) items ->
  filterO keeps items = Returns (filter keptRecord items)
  /\ exists refs k',
       buildReferences randomInt k (JArr items) = Returns (refs, k')
       /\ Forall2 (normalizedAs randomInt) (filter keptRecord items) refs.
Proof.
  intros H. split; [now apply filterO_filter|].
  now apply buildReferences_normalizedAs.
Qed.

Lemma C4_witness :
  filterO keeps [Examples.snippetOnly; JNum 3; Examples.noId; Examples.draftStudy]
  = Returns (filter keptRecord
               [Examples.snippetOnly; JNum 3; Examples.noId; Examples.draftStudy])
  /\ exists refs k',
       buildReferences (fun _ => 5%Z) 0
         (JArr [Examples.snippetOnly; JNum 3; Examples.noId; Examples.draftStudy])
       = Returns (refs, k')
       /\ Forall2 (normalizedAs (fun _ => 5%Z))
            (filter keptRecord
               [Examples.snippetOnly; JNum 3; Examples.noId; Examples.draftStudy])
            refs.
Proof.
  apply (@C4_record_validity (fun _ => 5%Z) 0
           [Examples.snippetOnly; JNum 3; Examples.noId; Examples.draftStudy]).
  repeat constructor; discriminate.
Defined.

(** As the specification words it the property fails: a record with a title, a snippet and a tag
    meets the stated condition and is dropped by the code. *)
Lemma C4_counterexample :
  specValid Examples.snippetOnly = true
  /\ buildReferences (fun _ => 5%Z) 0 (JArr [Examples.snippetOnly])
     = Returns ([], O).
Proof. split; vm_compute; reflexivity. Qed.

(** A [null] entry makes the filter throw, and with it the whole call. *)
Lemma null_entry_throws (randomInt : nat -> Z) (k : nat) (before after : list json) :
  Forall (fun v => v <> JNull) before ->
  buildReferences randomInt k (JArr (before ++ JNull :: after)) = Throws TypeError.
Proof.
  intros H. unfold buildReferences.
  replace (filterO keeps (before ++ JNull :: after)) with (@Throws (list json) TypeError);
    [reflexivity|].
  induction H as [|v before Hv _ IH]; simpl; [reflexivity|].
  rewrite (keeps_keptRecord Hv). simpl. now rewrite <- IH.
Qed.

(** C7, as the code has it.  For a payload without [null] entries, every
    reference of the result carries [isSelected = true]; its id is the
    provided one when that is truthy, and otherwise an integer drawn at
    random from 0 to 999.  Nothing compares ids with one another. *)
Theorem C7_normalisation (randomInt : nat -> Z) (k : nat) (items : list json) :
  (forall j, (0 <= randomInt j < 1000)%Z) ->
  Forall (fun v => v <> JNull) items ->
  exists refs k',
    buildReferences randomInt k (JArr items) = Returns (refs, k')
    /\ Forall2 (fun v w =>
         exists fields,
           w = JObj fields
           /\ lookup (lit "isSelected") fields = Some (JBool true)
           /\ (if truthy (idOf v) then lookup (lit "id") fields = idOf v
               else exists n, lookup (lit "id") fields = Some (JNum n)
                              /\ (0 <= n < 1000)%Z))
         (filter keptRecord items) refs.
Proof.
  intros Hrange H.
  destruct (buildReferences_normalizedAs randomInt k H) as (refs & k' & Hb & Hn).
  exists refs, k'. split; [exact Hb|].
  eapply Forall2_impl; [|exact Hn].
  intros v w (fields & Hw & Hsel & Hid & _).
  exists fields. repeat split; auto.
  destruct (truthy (idOf v)); [exact Hid|].
  destruct Hid as (j & Hj). exists (randomInt j). auto.
Qed.

Lemma C7_witness :
  exists refs k',
    buildReferences (fun _ => 5%Z) 0
      (JArr [Examples.noId; JBool true; Examples.draftStudy]) = Returns (refs, k')
    /\ Forall2 (fun v w =>
         exists fields,
           w = JObj fields
           /\ lookup (lit "isSelected") fields = Some (JBool true)
           /\ (if truthy (idOf v) then lookup (lit "id") fields = idOf v
               else exists n, lookup (lit "id") fields = Some (JNum n)
                              /\ (0 <= n < 1000)%Z))
         (filter keptRecord [Examples.noId; JBool true; Examples.draftStudy]) refs.
Proof.
  apply (@C7_normalisation (fun _ => 5%Z) 0
           [Examples.noId; JBool true; Examples.draftStudy]).
  - intros j. lia.
  - repeat constructor; discriminate.
Defined.

(** As the specification words it the property fails: two kept records share the id 1, the one
    provided and the one drawn for the record without an id. *)
Lemma C7_counterexample :
  exists refs,
    buildReferences (fun _ => 1%Z) 0 (JArr [Examples.draftStudy; Examples.noId])
    = Returns (refs, 1%nat)
    /\ map idOf refs = [Some (JNum 1); Some (JNum 1)]
    /\ ~ NoDup (map idOf refs).
Proof.
  eexists. split; [vm_compute; reflexivity|]. split; [reflexivity|].
  simpl. intros H. inversion H as [|? ? Hin _]. apply Hin. left. reflexivity.
Qed.

(* ------------------------------------------------------------------ *)
(** ** Locating the payload *)

Lemma indexOf_first (c : N) (pre rest : str) :
  ~ In c pre -> indexOf c (pre ++ c :: rest) = Some (List.length pre).
Proof.
  induction pre as [|d pre IH]; simpl; intros H.
  - now rewrite N.eqb_refl.
  - destruct (N.eqb_spec d c) as [->|_]; [exfalso; auto|].
    rewrite IH by auto. reflexivity.
Qed.

Lemma lastIndexOf_absent (c : N) (s : str) :
  ~ In c s -> lastIndexOf c s = None.
Proof.
  induction s as [|d s IH]; simpl; intros H; [reflexivity|].
  rewrite IH by auto.
  destruct (N.eqb_spec d c) as [->|_]; [exfalso; auto|reflexivity].
Qed.

Lemma lastIndexOf_last (c : N) (pre post : str) :
  ~ In c post -> lastIndexOf c (pre ++ c :: post) = Some (List.length pre).
Proof.
  intros H. induction pre as [|d pre IH]; simpl.
  - rewrite lastIndexOf_absent by exact H. now rewrite N.eqb_refl.
  - now rewrite IH.
Qed.

Lemma extractJsonArray_span (pre body post : str) :
  ~ In lbrack pre -> ~ In rbrack post ->
  extractJsonArray (pre ++ lbrack :: body ++ rbrack :: post)
  = Some (lbrack :: body ++ [rbrack]).
Proof.
  intros Hpre Hpost. unfold extractJsonArray.
  rewrite indexOf_first by exact Hpre.
  replace (pre ++ lbrack :: body ++ rbrack :: post)
    with ((pre ++ lbrack :: body) ++ rbrack :: post)
    by (now rewrite <- app_assoc).
  rewrite lastIndexOf_last by exact Hpost.
  rewrite length_app. simpl List.length.
  replace (List.length pre <? List.length pre + S (List.length body))%nat
    with true by (symmetry; apply Nat.ltb_lt; lia).
  f_equal. unfold substring.
  rewrite <- app_assoc. rewrite skipn_app, skipn_all, Nat.sub_diag. simpl skipn.
  replace (List.length pre + S (List.length body) + 1 - List.length pre)%nat
    with (List.length (lbrack :: body ++ [rbrack]))
    by (simpl; rewrite length_app; simpl; lia).
  simpl app at 1.
  replace (lbrack :: body ++ rbrack :: post)
    with ((lbrack :: body ++ [rbrack]) ++ post)
    by (simpl; now rewrite <- app_assoc).
  rewrite app_nil_l, firstn_app, firstn_all, Nat.sub_diag.
  simpl firstn. now rewrite app_nil_r.
Qed.

(** The earlier variant takes the same span. *)
Lemma matchFirst_no_close (s : str) :
  lastIndexOf rbrack s = None -> Legacy.matchFirst Legacy.bracketSpan s = None.
Proof.
  induction s as [|c s IH]; [reflexivity|]. simpl.
  destruct (lastIndexOf rbrack s) as [i|] eqn:E; [discriminate|].
  intros _. rewrite (IH eq_refl). now destruct (N.eqb c lbrack).
Qed.

Lemma extractJsonArray_cons (c : N) (s : str) :
  c <> lbrack -> extractJsonArray (c :: s) = extractJsonArray s.
Proof.
  intros Hc. unfold extractJsonArray. simpl.
  destruct (N.eqb_spec c lbrack) as [|_]; [congruence|].
  destruct (indexOf lbrack s) as [f|]; simpl; [|reflexivity].
  destruct (lastIndexOf rbrack s) as [l|]; [reflexivity|].
  now destruct (N.eqb c rbrack).
Qed.

Lemma legacy_span (s : str) :
  Legacy.matchFirst Legacy.bracketSpan s = extractJsonArray s.
Proof.
  induction s as [|c s IH]; [reflexivity|].
  destruct (N.eqb_spec c lbrack) as [->|Hc].
  - unfold extractJsonArray.
    cbn [indexOf lastIndexOf Legacy.matchFirst Legacy.bracketSpan].
    rewrite !N.eqb_refl.
    destruct (lastIndexOf rbrack s) as [i|] eqn:E.
    + unfold substring. cbn [Nat.ltb Nat.leb skipn].
      now replace (i + 2)%nat with (S i + 1 - 0)%nat by lia.
    + rewrite (matchFirst_no_close _ E).
      now destruct (N.eqb lbrack rbrack).
  - rewrite (extractJsonArray_cons _ Hc), <- IH. simpl.
    destruct (N.eqb_spec c lbrack); [congruence|reflexivity].
Qed.

(** C3, as the code has it.  The payload is taken from the first opening
    bracket to the last closing bracket of the text that follows the
    sentinel, with no depth count and no regard for string literals.  When
    the array opens at the first opening bracket of that text and closes at
    its last closing bracket, brackets within the array, inside string
    literals or not, do not cut the span short: the whole array is what is
    handed to [JSON.parse].  The regular expression of the earlier variant
    takes the same span. *)
Theorem C3_first_to_last_bracket (JSON_parse : str -> option json) :
  (forall pre body post,
     ~ In lbrack pre -> ~ In rbrack post ->
     extractJsonArray (pre ++ lbrack :: body ++ rbrack :: post)
     = Some (lbrack :: body ++ [rbrack]))
  /\ (forall fullResponse pre body post,
        includes sentinel fullResponse = true ->
        nth 1 (split sentinel fullResponse) []
        = pre ++ lbrack :: body ++ rbrack :: post ->
        ~ In lbrack pre -> ~ In rbrack post ->
        snd (parseStep JSON_parse fullResponse)
        = tryParse JSON_parse (lbrack :: body ++ [rbrack]))
  /\ (forall text,
        Legacy.matchFirst Legacy.bracketSpan text = extractJsonArray text).
Proof.
  split; [exact extractJsonArray_span|]. split; [|exact legacy_span].
  intros fullResponse pre body post Hinc Hpart Hpre Hpost.
  unfold parseStep. rewrite Hinc, Hpart.
  rewrite extractJsonArray_span by assumption. reflexivity.
Qed.

Lemma C3_witness :
  snd (parseStep JsonText.parse Examples.plainResponse)
  = tryParse JsonText.parse (lbrack :: Examples.draftStudyBody ++ [rbrack]).
Proof.
  apply (proj1 (proj2 (C3_first_to_last_bracket JsonText.parse))
           Examples.plainResponse Examples.newline Examples.draftStudyBody
           Examples.newline).
  - vm_compute. reflexivity.
  - vm_compute. reflexivity.
  - vm_compute. intros [H|[]]. discriminate H.
  - vm_compute. intros [H|[]]. discriminate H.
Defined.

(** The third scenario end to end: the record whose title holds brackets
    is decoded and kept. *)
Example scenario_three_plain :
  option_map (fun r => r_references (fst r))
    (match processResponse JsonText.parse (fun _ => 5%Z) 0 (lit "in")
             Examples.plainResponse with
     | Returns r => Some r
     | Throws _ => None
     end)
  = Some [JObj (setField (lit "isSelected") (JBool true)
                  (ownFields Examples.draftStudy))].
Proof. vm_compute. reflexivity. Qed.

(** As the specification words it the property fails: when a remark citing a tag follows the
    array, the span taken by the code runs on to the bracket of the remark,
    is not the span of the balanced scan, and does not decode, so that the
    reference is lost. *)
Lemma C3_counterexample :
  balancedScan (nth 1 (split sentinel Examples.remarkResponse) [])
  = Some Examples.draftStudyText
  /\ extractJsonArray (nth 1 (split sentinel Examples.remarkResponse) [])
     = Some (Examples.draftStudyText ++ Examples.newline ++ lit "Note: [1]")
  /\ JsonText.parse Examples.draftStudyText = Some (JArr [Examples.draftStudy])
  /\ snd (parseStep JsonText.parse Examples.remarkResponse) = JArr [].
Proof. repeat split; vm_compute; reflexivity. Qed.

(* ------------------------------------------------------------------ *)
(** ** A payload that does not decode *)

Lemma split_from_two (sep : str) (s : str) : forall cur,
  sep <> [] -> includes sep s = true ->
  exists p0 p1 rest, split_from sep O cur s = p0 :: p1 :: rest.
Proof.
  induction s as [|c s IH]; intros cur Hne Hinc.
  - simpl in Hinc. rewrite (startsWith_nil Hne) in Hinc. discriminate.
  - simpl split_from. cbn [includes] in Hinc.
    destruct (startsWith sep (c :: s)) eqn:E.
    + destruct (split_from sep (List.length sep - 1) [] s) as [|p1 rest] eqn:R.
      * exfalso. exact (split_from_nonnil _ _ _ _ R).
      * eauto.
    + simpl in Hinc. apply IH; assumption.
Qed.

Lemma sentinel_nonempty : sentinel <> [].
Proof. discriminate. Qed.

Lemma split_sentinel (fullResponse : str) :
  includes sentinel fullResponse = true ->
  exists before after more,
    split sentinel fullResponse = before :: after :: more
    /\ fullResponse = before ++ sentinel ++ join sentinel (after :: more)
    /\ includes sentinel before = false.
Proof.
  intros Hinc.
  pose proof (join_split sentinel_nonempty fullResponse) as Hjoin.
  pose proof (split_free sentinel_nonempty fullResponse) as Hfree.
  rewrite (split_eq _ sentinel_nonempty) in *.
  destruct (@split_from_two sentinel fullResponse [] sentinel_nonempty Hinc)
    as (p0 & p1 & rest & Hs).
  rewrite Hs in *. exists p0, p1, rest. split; [reflexivity|]. split.
  - rewrite <- Hjoin at 1. reflexivity.
  - now inversion Hfree.
Qed.

Lemma undecodable_step (JSON_parse : str -> option json)
    (fullResponse : str) :
  includes sentinel fullResponse = true ->
  (forall span,
     extractJsonArray (nth 1 (split sentinel fullResponse) []) = Some span ->
     JSON_parse span = None) ->
  exists before after more,
    split sentinel fullResponse = before :: after :: more
    /\ fullResponse = before ++ sentinel ++ join sentinel (after :: more)
    /\ includes sentinel before = false
    /\ parseStep JSON_parse fullResponse = (stripLabel before, JArr [])
    /\ (forall randomInt k input,
          processResponse JSON_parse randomInt k input fullResponse
          = Returns
              (mkCitationResult input
                 (if nonEmpty (stripLabel before) then stripLabel before
                  else fallbackText) [] [],
               k))
    /\ Legacy.parseStep JSON_parse fullResponse = (stripLabel before, JArr []).
Proof.
  intros Hinc Hbad.
  destruct (split_sentinel _ Hinc) as (before & after & more & Hs & Hfull & Hfree).
  exists before, after, more. do 3 (split; [assumption|]).
  assert (Hstep : parseStep JSON_parse fullResponse = (stripLabel before, JArr [])).
  { unfold parseStep. rewrite Hinc. rewrite Hs in *. simpl nth in *.
    destruct (extractJsonArray after) as [span|] eqn:E; [|reflexivity].
    unfold tryParse. rewrite (Hbad span eq_refl).
    destruct (nonEmpty span); reflexivity. }
  split; [exact Hstep|]. split.
  - intros randomInt k input. unfold processResponse. rewrite Hstep. reflexivity.
  - unfold Legacy.parseStep. rewrite Hinc. rewrite Hs in *. simpl nth in *.
    rewrite legacy_span.
    destruct (extractJsonArray after) as [span|] eqn:E; [|reflexivity].
    unfold tryParse. now rewrite (Hbad span eq_refl).
Qed.

(** The second scenario, and a payload that opens an array it never
    completes. *)
Example scenario_two :
  parseStep JsonText.parse
    (lit " Cited Text:  Drafts matter. " ++ sentinel ++ lit "not json")
  = (lit "Drafts matter.", JArr [])
  /\ parseStep JsonText.parse
       (lit "Drafts matter [1]." ++ sentinel ++ quoted "[{'id': 1, ]")
     = (lit "Drafts matter [1].", JArr []).
Proof. split; vm_compute; reflexivity. Qed.

(* ------------------------------------------------------------------ *)
(** ** Removal of a tag, step by step *)

Lemma removeTag_activeTag (text : str) (ref : Reference) :
  removeTag text ref =
  match activeTag ref with
  | Some tag => removeAll tag text
  | None => text
  end.
Proof.
  unfold removeTag, activeTag.
  destruct (negb (truthyFlag (isSelected ref)) && truthyStr (citationTag ref));
    [|reflexivity].
  destruct (citationTag ref) as [t|]; [|reflexivity].
  destruct (nonEmpty (trim t)); reflexivity.
Qed.

Lemma startsWith_head (x : N) (t s : str) :
  t <> [] -> startsWith [x] t = false -> startsWith t (x :: s) = false.
Proof.
  destruct t as [|y t]; [congruence|]. simpl. intros _.
  rewrite (N.eqb_sym y x). destruct (N.eqb x y); [discriminate|reflexivity].
Qed.

Section RemoveAll.

Variable tag : str.
Hypothesis tag_nonempty : tag <> [].

Lemma join_nil_split_from (s : str) : forall cur,
  join [] (split_from tag O cur s) = rev cur ++ join [] (split_from tag O [] s).
Proof.
  induction s as [|x s IH]; intros cur.
  - simpl. now rewrite app_nil_r.
  - simpl split_from. destruct (startsWith tag (x :: s)).
    + rewrite !join_cons by (apply split_from_nonnil). reflexivity.
    + rewrite IH, (IH [x]). simpl. now rewrite <- app_assoc.
Qed.

Lemma removeAll_nil : removeAll tag [] = [].
Proof. unfold removeAll. now rewrite (split_eq _ tag_nonempty). Qed.

Lemma removeAll_miss (x : N) (s : str) :
  startsWith tag (x :: s) = false ->
  removeAll tag (x :: s) = x :: removeAll tag s.
Proof.
  intros H. unfold removeAll. rewrite !(split_eq _ tag_nonempty).
  simpl split_from. rewrite H. now rewrite join_nil_split_from.
Qed.

Lemma removeAll_hit (s : str) : removeAll tag (tag ++ s) = removeAll tag s.
Proof.
  unfold removeAll. rewrite !(split_eq _ tag_nonempty).
  pose proof (startsWith_prefix tag s) as H.
  destruct (length_pos tag_nonempty) as [m Hm].
  destruct (tag ++ s) as [|x r] eqn:E.
  - destruct tag; [congruence|discriminate].
  - simpl split_from. rewrite H.
    rewrite join_cons by (apply split_from_nonnil).
    rewrite split_from_skip. simpl.
    replace (skipn (List.length tag - 1) r) with s; [reflexivity|].
    assert (Hr : skipn (List.length tag) (x :: r) = s)
      by (rewrite <- E, skipn_app, skipn_all, Nat.sub_diag; reflexivity).
    rewrite Hm in *. simpl in Hr.
    replace (S m - 1)%nat with m by lia. now symmetry.
Qed.

Lemma removeAll_pass (pre s : str) :
  Forall (fun x => startsWith [x] tag = false) pre ->
  removeAll tag (pre ++ s) = pre ++ removeAll tag s.
Proof.
  induction 1 as [|x pre Hx _ IH]; [reflexivity|].
  simpl. rewrite removeAll_miss, IH; [reflexivity|].
  now apply startsWith_head.
Qed.

(** A text without occurrence of the tag is left as it is. *)
Lemma removeAll_absent (s : str) :
  includes tag s = false -> removeAll tag s = s.
Proof.
  induction s as [|x s IH]; intros H; [apply removeAll_nil|].
  cbn [includes] in H. apply orb_false_iff in H as [H0 H1].
  rewrite removeAll_miss by exact H0. now rewrite IH.
Qed.

End RemoveAll.

(* ------------------------------------------------------------------ *)
(** ** Order of removal on bracketed texts *)

Section FlatFacts.

Import Flat.

Variables open close : N.
Hypothesis open_close : open <> close.

Abbreviation free := (free open close).
Abbreviation wellFormed := (wellFormed open close).
Abbreviation flatten := (flatten open close).
Abbreviation bodyOf := (bodyOf open close).
Abbreviation keepItem := (keepItem open close).

Lemma free_cons (x : N) (b : str) :
  free (x :: b) = true -> x <> open /\ x <> close /\ free b = true.
Proof.
  simpl. intros H. apply andb_prop in H as [H Hb].
  apply andb_prop in H as [Ho Hc].
  repeat split; try assumption; intros ->; rewrite N.eqb_refl in *; discriminate.
Qed.

Lemma bodyOf_shape (tag b : str) :
  bodyOf tag = Some b -> tag = open :: b ++ [close] /\ free b = true.
Proof.
  unfold Flat.bodyOf. destruct tag as [|c rest]; [discriminate|].
  destruct (rev rest) as [|d body'] eqn:E; [discriminate|].
  destruct (N.eqb_spec c open) as [->|]; [|discriminate].
  destruct (N.eqb_spec d close) as [->|]; [|discriminate].
  simpl. destruct (Flat.free open close (rev body')) eqn:F; [|discriminate].
  intros H. inversion H; subst b. split; [|exact F].
  f_equal. rewrite <- (rev_involutive rest), E. reflexivity.
Qed.

Lemma body_prefix (b : str) : forall (b' r : str),
  free b = true -> free b' = true ->
  startsWith (b ++ [close]) (b' ++ close :: r) = true -> b = b'.
Proof.
  induction b as [|x b IH]; intros [|y b'] r Hb Hb' H; simpl in H.
  - reflexivity.
  - apply free_cons in Hb' as (_ & Hy & _).
    apply andb_prop in H as [H _]. apply N.eqb_eq in H. congruence.
  - apply free_cons in Hb as (_ & Hx & _).
    apply andb_prop in H as [H _]. apply N.eqb_eq in H. congruence.
  - apply andb_prop in H as [Hxy H]. apply N.eqb_eq in Hxy. subst y.
    apply free_cons in Hb as (_ & _ & Hb).
    apply free_cons in Hb' as (_ & _ & Hb').
    f_equal. eapply IH; eassumption.
Qed.

Lemma free_pass (tag' b : str) :
  free b = true ->
  Forall (fun x => startsWith [x] (open :: tag') = false) (b ++ [close]).
Proof.
  intros Hb. apply Forall_app. split.
  - induction b as [|x b IH]; constructor.
    + apply free_cons in Hb as (Hx & _ & _). simpl.
      destruct (N.eqb_spec x open); [congruence|reflexivity].
    + apply IH. now apply free_cons in Hb as (_ & _ & Hb).
  - constructor; [|constructor]. simpl.
    destruct (N.eqb_spec close open); [congruence|reflexivity].
Qed.

Lemma removeAll_flatten (b : str) (items : list item) :
  free b = true ->
  forallb wellFormed items = true ->
  removeAll (open :: b ++ [close]) (flatten items)
  = flatten (filter (fun it => negb (item_eqb it (Group b))) items).
Proof.
  intros Hb.
  assert (Hne : open :: b ++ [close] <> []) by discriminate.
  induction items as [|it items IH]; intros Hwf.
  - apply (removeAll_nil Hne).
  - simpl in Hwf. apply andb_prop in Hwf as [Hit Hwf].
    specialize (IH Hwf). destruct it as [c|body]; simpl filter.
    + simpl in Hit. apply andb_prop in Hit as [Hc _].
      simpl. rewrite removeAll_miss, IH; [reflexivity|exact Hne|].
      simpl. rewrite N.eqb_sym. now destruct (N.eqb c open).
    + simpl in Hit. cbn [Flat.flatten flat_map Flat.textOf].
      destruct (str_eqb body b) eqn:E.
      * apply str_eqb_eq in E. subst body. simpl negb. cbv iota.
        change (open :: b ++ [close]) with ([open] ++ b ++ [close]) at 2.
        rewrite <- !app_assoc.
        change ([open] ++ b ++ [close] ++ flat_map (Flat.textOf open close) items)
          with (open :: b ++ [close] ++ flat_map (Flat.textOf open close) items).
        replace (open :: b ++ [close] ++ flat_map (Flat.textOf open close) items)
          with ((open :: b ++ [close]) ++ flat_map (Flat.textOf open close) items)
          by (simpl; now rewrite <- app_assoc).
        rewrite (removeAll_hit Hne). exact IH.
      * simpl negb. cbv iota. cbn [Flat.flatten flat_map Flat.textOf].
        simpl app at 2.
        rewrite removeAll_miss; [|exact Hne|].
        -- rewrite (removeAll_pass Hne); [|now apply free_pass].
           change ((open :: body ++ [close]) ++
                   flat_map (Flat.textOf open close)
                     (filter (fun it => negb (item_eqb it (Group b))) items))
             with (open :: (body ++ [close]) ++
                   flat_map (Flat.textOf open close)
                     (filter (fun it => negb (item_eqb it (Group b))) items)).
           do 2 f_equal. exact IH.
        -- simpl. rewrite N.eqb_refl. simpl.
           destruct (startsWith (b ++ [close])
                       ((body ++ [close]) ++ flat_map (Flat.textOf open close) items))
             eqn:S; [|reflexivity].
           rewrite <- app_assoc in S. simpl in S.
           apply body_prefix in S; [|assumption..].
           subst body. now rewrite str_eqb_refl in E.
Qed.

Lemma filter_wellFormed (p : item -> bool) (items : list item) :
  forallb wellFormed items = true -> forallb wellFormed (filter p items) = true.
Proof.
  induction items as [|it items IH]; simpl; [reflexivity|].
  intros H. apply andb_prop in H as [Hit H].
  destruct (p it); simpl; [rewrite Hit|]; auto.
Qed.

Lemma removeTag_flatten (ref : Reference) (items : list item) :
  delimitedTags open close [ref] = true ->
  forallb wellFormed items = true ->
  removeTag (flatten items) ref = flatten (filter (keepItem ref) items).
Proof.
  unfold delimitedTags, Flat.keepItem. simpl. rewrite andb_true_r.
  rewrite removeTag_activeTag.
  destruct (activeTag ref) as [tag|].
  - destruct (bodyOf tag) as [b|] eqn:E; [|discriminate]. intros _ Hwf.
    apply bodyOf_shape in E as [-> Hb]. now apply removeAll_flatten.
  - intros _ _. clear. induction items as [|it items IH]; simpl; congruence.
Qed.

Lemma removeTags_flatten (refs : list Reference) : forall (items : list item),
  delimitedTags open close refs = true ->
  forallb wellFormed items = true ->
  removeTags (flatten items) refs
  = flatten (fold_left (fun its ref => filter (keepItem ref) its) refs items).
Proof.
  induction refs as [|ref refs IH]; intros items Hd Hwf; [reflexivity|].
  unfold delimitedTags in Hd. simpl in Hd. apply andb_prop in Hd as [Href Hd].
  unfold removeTags. simpl.
  rewrite removeTag_flatten; [|unfold delimitedTags; simpl; now rewrite Href|exact Hwf].
  apply IH; [exact Hd|now apply filter_wellFormed].
Qed.

Lemma filter_swap (p q : item -> bool) (items : list item) :
  filter p (filter q items) = filter q (filter p items).
Proof.
  induction items as [|it items IH]; simpl; [reflexivity|].
  destruct (q it) eqn:Q, (p it) eqn:P; simpl; rewrite ?Q, ?P, IH; reflexivity.
Qed.

Lemma keep_permutation (refs refs' : list Reference) :
  Permutation refs refs' ->
  forall items,
    fold_left (fun its ref => filter (keepItem ref) its) refs items
    = fold_left (fun its ref => filter (keepItem ref) its) refs' items.
Proof.
  induction 1 as [|ref l l' _ IH|a b l|l l' l'' _ IH1 _ IH2]; intros items; simpl.
  - reflexivity.
  - apply IH.
  - now rewrite filter_swap.
  - now rewrite IH1.
Qed.

Lemma delimitedTags_permutation (refs refs' : list Reference) :
  Permutation refs refs' ->
  delimitedTags open close refs = true -> delimitedTags open close refs' = true.
Proof.
  unfold delimitedTags. intros Hp H.
  apply forallb_forall. intros ref Hin.
  apply (proj1 (forallb_forall _ _) H).
  apply Permutation_in with (l := refs'); [now apply Permutation_sym|exact Hin].
Qed.

End FlatFacts.

(** C8, as the code has it.  When the text is made of plain characters
    and of groups [open body close] whose bodies hold neither delimiter (as
    in "see [1] and [2]"), and every tag that is removed is such a group,
    the rendered text is the same for every order of the references. *)
Theorem C8_order_of_removal (open close : N) (items : list Flat.item)
    (refs refs' : list Reference) :
  open <> close ->
  forallb (Flat.wellFormed open close) items = true ->
  Flat.delimitedTags open close refs = true ->
  Permutation refs refs' ->
  getFilteredCitedText (Flat.flatten open close items) refs'
  = getFilteredCitedText (Flat.flatten open close items) refs.
Proof.
  intros Hoc Hwf Hd Hp. unfold getFilteredCitedText. f_equal.
  rewrite !removeTags_flatten;
    eauto using delimitedTags_permutation.
  f_equal. symmetry. now apply keep_permutation.
Qed.

Lemma C8_witness :
  getFilteredCitedText (Flat.flatten lbrack rbrack Examples.outcomes)
    ([Examples.ref2; Examples.ref3] ++ [Examples.ref1])
  = getFilteredCitedText (Flat.flatten lbrack rbrack Examples.outcomes)
      [Examples.ref1; Examples.ref2; Examples.ref3].
Proof.
  apply (@C8_order_of_removal lbrack rbrack Examples.outcomes
           [Examples.ref1; Examples.ref2; Examples.ref3]
           ([Examples.ref2; Examples.ref3] ++ [Examples.ref1])).
  - intros H. vm_compute in H. discriminate H.
  - vm_compute. reflexivity.
  - vm_compute. reflexivity.
  - apply Permutation_cons_append.
Defined.

(** As the specification words it the property fails: neither of the
    tags "[1]" and "[2]" is a substring of the other, both occur in the text
    "See [1] and [[2]1].", and the text is rendered as "See and [1]." when
    "[1]" is removed first and as "See and." when "[2]" is. *)
Lemma C8_counterexample :
  noTagWithinAnother
    [tagRef 1 (Some (lit "[1]")) (Some false);
     tagRef 2 (Some (lit "[2]")) (Some false)] = true
  /\ Permutation
       [tagRef 1 (Some (lit "[1]")) (Some false);
        tagRef 2 (Some (lit "[2]")) (Some false)]
       [tagRef 2 (Some (lit "[2]")) (Some false);
        tagRef 1 (Some (lit "[1]")) (Some false)]
  /\ getFilteredCitedText (lit "See [1] and [[2]1].")
       [tagRef 1 (Some (lit "[1]")) (Some false);
        tagRef 2 (Some (lit "[2]")) (Some false)] = lit "See and [1]."
  /\ getFilteredCitedText (lit "See [1] and [[2]1].")
       [tagRef 2 (Some (lit "[2]")) (Some false);
        tagRef 1 (Some (lit "[1]")) (Some false)] = lit "See and.".
Proof.
  split; [vm_compute; reflexivity|]. split; [apply perm_swap|].
  split; vm_compute; reflexivity.
Qed.

(* ------------------------------------------------------------------ *)
(** ** The replacement driver and the matches *)

Lemma skipn_spaces (s : str) : skipn (spaces s) s = dropSpaces s.
Proof.
  induction s as [|c s IH]; simpl; [reflexivity|].
  destruct (isWhiteSpace c); [exact IH|reflexivity].
Qed.

Lemma replace_from_skip (m : matcher) (k : nat) : forall s,
  replace_from m k s = replaceAll m (skipn k s).
Proof.
  induction k as [|k IH]; intros s; [reflexivity|].
  destruct s as [|c s]; [reflexivity|]. simpl. apply IH.
Qed.

Lemma replaceAll_none (m : matcher) (c : N) (s : str) :
  m (c :: s) = None -> replaceAll m (c :: s) = c :: replaceAll m s.
Proof. intros H. unfold replaceAll. simpl. now rewrite H. Qed.

Lemma replaceAll_some (m : matcher) (c : N) (s r : str) (n : nat) :
  m (c :: s) = Some (S n, r) ->
  replaceAll m (c :: s) = r ++ replaceAll m (skipn n s).
Proof.
  intros H. unfold replaceAll at 1. simpl. rewrite H.
  now rewrite replace_from_skip.
Qed.

(** Where the expression has no match the replacement changes nothing. *)
Lemma replaceAll_id (m : matcher) (s : str) :
  anyMatch m s = false -> replaceAll m s = s.
Proof.
  induction s as [|c s IH]; [reflexivity|].
  cbn [anyMatch]. destruct (m (c :: s)) eqn:E; [discriminate|].
  intros H. rewrite (replaceAll_none _ _ _ E). now rewrite IH.
Qed.

Lemma anyMatch_anyAt (m : matcher) (h : N -> str -> bool) :
  m [] = None ->
  (forall c r, match m (c :: r) with Some _ => true | None => false end = h c r) ->
  forall s, anyMatch m s = anyAt h s.
Proof.
  intros Hnil Hh. induction s as [|c s IH]; simpl.
  - now rewrite Hnil.
  - rewrite <- Hh, <- IH. destruct (m (c :: s)); reflexivity.
Qed.

Lemma group_groupH (a b : N) (c : N) (r : str) :
  match group a b (c :: r) with Some _ => true | None => false end
  = groupH a b c r.
Proof.
  unfold group, groupH, solidIs. rewrite skipn_spaces.
  destruct (N.eqb c a); [|reflexivity]. simpl.
  destruct (dropSpaces r) as [|d t]; [reflexivity|].
  destruct (N.eqb d b); reflexivity.
Qed.

Lemma commaComma_anyAt (s : str) :
  anyMatch commaComma s = anyAt (groupH comma comma) s.
Proof.
  apply anyMatch_anyAt; [reflexivity|]. intros c r.
  rewrite <- group_groupH. unfold commaComma.
  destruct (group comma comma (c :: r)); reflexivity.
Qed.

Lemma parenComma_anyAt (s : str) :
  anyMatch parenComma s = anyAt (groupH lparen comma) s.
Proof.
  apply anyMatch_anyAt; [reflexivity|]. intros c r.
  rewrite <- group_groupH. unfold parenComma.
  destruct (group lparen comma (c :: r)); reflexivity.
Qed.

Lemma commaParen_anyAt (s : str) :
  anyMatch commaParen s = anyAt (groupH comma rparen) s.
Proof.
  apply anyMatch_anyAt; [reflexivity|]. intros c r.
  rewrite <- group_groupH. unfold commaParen.
  destruct (group comma rparen (c :: r)); reflexivity.
Qed.

Lemma emptyParens_anyAt (s : str) :
  anyMatch emptyParens s = anyAt (groupH lparen rparen) s.
Proof.
  apply anyMatch_anyAt; [reflexivity|]. intros c r.
  rewrite <- group_groupH. unfold emptyParens.
  destruct (group lparen rparen (c :: r)); reflexivity.
Qed.

Lemma emptyBrackets_anyAt (s : str) :
  anyMatch emptyBrackets s = anyAt (groupH lbrack rbrack) s.
Proof.
  apply anyMatch_anyAt; [reflexivity|]. intros c r.
  rewrite <- group_groupH. unfold emptyBrackets.
  destruct (group lbrack rbrack (c :: r)); reflexivity.
Qed.

Lemma spaces_zero (s : str) : headWs s = false <-> spaces s = O.
Proof.
  destruct s as [|c s]; simpl; [tauto|].
  destruct (isWhiteSpace c); split; congruence.
Qed.

Lemma spaceRun_anyAt (s : str) : anyMatch spaceRun s = anyAt runH s.
Proof.
  apply anyMatch_anyAt; [reflexivity|]. intros c r.
  unfold spaceRun, runH. simpl.
  destruct (isWhiteSpace c); [|reflexivity]. simpl.
  destruct r as [|d r]; [reflexivity|]. simpl.
  destruct (isWhiteSpace d); reflexivity.
Qed.

Lemma spaceBeforePunct_anyAt (s : str) :
  anyMatch spaceBeforePunct s = anyAt punctH s.
Proof.
  apply anyMatch_anyAt; [reflexivity|]. intros c r.
  unfold spaceBeforePunct, punctH, solidIs. simpl spaces.
  destruct (isWhiteSpace c); [|reflexivity].
  change (skipn (S (spaces r)) (c :: r)) with (skipn (spaces r) r).
  rewrite skipn_spaces. simpl.
  destruct (dropSpaces r) as [|d t]; [reflexivity|].
  unfold isPunct. destruct (N.eqb d period || N.eqb d comma); reflexivity.
Qed.

(* ------------------------------------------------------------------ *)
(** ** The two whitespace stages of the cleanup *)

Lemma str_length_ind (P : str -> Prop) :
  (forall s, (forall t, (List.length t < List.length s)%nat -> P t) -> P s) ->
  forall s, P s.
Proof.
  intros H s. remember (List.length s) as n eqn:E.
  revert s E. induction n as [n IH] using lt_wf_ind.
  intros s ->. apply H. intros t Ht. exact (IH _ Ht t eq_refl).
Qed.

Lemma dropSpaces_length (s : str) :
  (List.length (dropSpaces s) <= List.length s)%nat.
Proof.
  induction s as [|c s IH]; simpl; [lia|].
  destruct (isWhiteSpace c); simpl; lia.
Qed.

Lemma headWs_dropSpaces (s : str) : headWs (dropSpaces s) = false.
Proof.
  induction s as [|c s IH]; simpl; [reflexivity|].
  destruct (isWhiteSpace c) eqn:E; [exact IH|]. simpl. exact E.
Qed.

Lemma dropSpaces_solid (s : str) : headWs s = false -> dropSpaces s = s.
Proof. destruct s as [|c s]; simpl; [reflexivity|]. now intros ->. Qed.

Lemma anyAt_dropSpaces (h : N -> str -> bool) (s : str) :
  anyAt h (dropSpaces s) = true -> anyAt h s = true.
Proof.
  induction s as [|c s IH]; simpl; [auto|].
  destruct (isWhiteSpace c); [|auto].
  intros H. rewrite (IH H). apply orb_true_r.
Qed.

Lemma anyAt_dropSpaces_false (h : N -> str -> bool) (s : str) :
  anyAt h s = false -> anyAt h (dropSpaces s) = false.
Proof.
  intros H. destruct (anyAt h (dropSpaces s)) eqn:E; [|reflexivity].
  apply anyAt_dropSpaces in E. congruence.
Qed.

Lemma solidIs_ws (p : N -> bool) (c : N) (s : str) :
  isWhiteSpace c = true -> solidIs p (c :: s) = solidIs p s.
Proof. intros H. unfold solidIs. simpl. now rewrite H. Qed.

Lemma solidIs_solid (p : N -> bool) (c : N) (s : str) :
  isWhiteSpace c = false -> solidIs p (c :: s) = p c.
Proof. intros H. unfold solidIs. simpl. now rewrite H. Qed.

Lemma solidIs_dropSpaces (p : N -> bool) (s : str) :
  solidIs p (dropSpaces s) = solidIs p s.
Proof.
  unfold solidIs. now rewrite (dropSpaces_solid _ (headWs_dropSpaces s)).
Qed.

Lemma isPunct_solid (d : N) : isPunct d = true -> isWhiteSpace d = false.
Proof.
  unfold isPunct. intros H. apply orb_prop in H as [H|H];
    apply N.eqb_eq in H; subst d; reflexivity.
Qed.

Section Collapse.

Abbreviation collapse := (replaceAll spaceRun).

Lemma collapse_solid (c : N) (s : str) :
  isWhiteSpace c = false -> collapse (c :: s) = c :: collapse s.
Proof.
  intros H. apply replaceAll_none. unfold spaceRun. simpl. now rewrite H.
Qed.

Lemma collapse_single (c : N) (s : str) :
  isWhiteSpace c = true -> headWs s = false ->
  collapse (c :: s) = c :: collapse s.
Proof.
  intros H Hs. apply replaceAll_none. unfold spaceRun. simpl. rewrite H.
  apply spaces_zero in Hs. now rewrite Hs.
Qed.

Lemma collapse_run (c : N) (s : str) :
  isWhiteSpace c = true -> headWs s = true ->
  collapse (c :: s) = space :: collapse (dropSpaces s).
Proof.
  intros H Hs.
  destruct (spaces s) as [|k] eqn:E.
  - apply spaces_zero in E. congruence.
  - rewrite (@replaceAll_some spaceRun c s [space] (S k)).
    + rewrite <- E, skipn_spaces. reflexivity.
    + unfold spaceRun. simpl. now rewrite H, E.
Qed.

Lemma collapse_headWs (s : str) : headWs s = false -> headWs (collapse s) = false.
Proof.
  destruct s as [|c s]; [reflexivity|]. intros H. simpl in H.
  rewrite collapse_solid by exact H. exact H.
Qed.

Lemma collapse_solidIs (p : N -> bool) : forall s,
  solidIs p (collapse s) = solidIs p s.
Proof.
  induction s as [s IH] using str_length_ind.
  destruct s as [|c s]; [reflexivity|].
  destruct (isWhiteSpace c) eqn:Ec.
  - destruct (headWs s) eqn:Hs.
    + rewrite collapse_run by assumption.
      rewrite !solidIs_ws by (assumption || reflexivity).
      rewrite IH, solidIs_dropSpaces; [reflexivity|].
      pose proof (dropSpaces_length s). simpl. lia.
    + rewrite collapse_single by assumption.
      rewrite !solidIs_ws by assumption. apply IH. simpl. lia.
  - rewrite collapse_solid by assumption. now rewrite !solidIs_solid.
Qed.

(** Collapsing whitespace creates none of the groups. *)
Lemma collapse_group (a b : N) : isWhiteSpace a = false -> forall s,
  anyAt (groupH a b) (collapse s) = true -> anyAt (groupH a b) s = true.
Proof.
  intros Ha. induction s as [s IH] using str_length_ind.
  destruct s as [|c s]; [auto|].
  assert (Hc : isWhiteSpace c = true -> groupH a b c = fun _ => false).
  { intros Hc. unfold groupH. destruct (N.eqb_spec c a); [congruence|reflexivity]. }
  destruct (isWhiteSpace c) eqn:Ec.
  - destruct (headWs s) eqn:Hs.
    + rewrite collapse_run by assumption. simpl.
      unfold groupH at 1. destruct (N.eqb_spec space a) as [<-|_]; [discriminate|].
      simpl. intros H. apply IH in H.
      * apply anyAt_dropSpaces in H. rewrite H. apply orb_true_r.
      * pose proof (dropSpaces_length s). simpl. lia.
    + rewrite collapse_single by assumption. simpl.
      rewrite (Hc eq_refl). simpl. intros H. apply IH in H; [exact H|simpl; lia].
  - rewrite collapse_solid by assumption. simpl.
    unfold groupH at 1 3. rewrite collapse_solidIs.
    intros H. apply orb_prop in H as [H|H]; [now rewrite H|].
    apply IH in H; [|simpl; lia]. rewrite H. apply orb_true_r.
Qed.

(** After it no two whitespace characters are adjacent. *)
Lemma collapse_run_free : forall s, anyAt runH (collapse s) = false.
Proof.
  induction s as [s IH] using str_length_ind.
  destruct s as [|c s]; [reflexivity|].
  destruct (isWhiteSpace c) eqn:Ec.
  - destruct (headWs s) eqn:Hs.
    + rewrite collapse_run by assumption. simpl.
      unfold runH at 1.
      rewrite (collapse_headWs _ (headWs_dropSpaces s)), andb_false_r. simpl.
      apply IH. pose proof (dropSpaces_length s). simpl. lia.
    + rewrite collapse_single by assumption. simpl.
      unfold runH at 1. rewrite (collapse_headWs _ Hs), andb_false_r. simpl.
      apply IH. simpl. lia.
  - rewrite collapse_solid by assumption. simpl.
    unfold runH at 1. rewrite Ec. simpl. apply IH. simpl. lia.
Qed.

End Collapse.

Section Tighten.

Abbreviation tighten := (replaceAll spaceBeforePunct).

Lemma tighten_solid (c : N) (s : str) :
  isWhiteSpace c = false -> tighten (c :: s) = c :: tighten s.
Proof.
  intros H. apply replaceAll_none. unfold spaceBeforePunct. simpl. now rewrite H.
Qed.

Lemma tighten_hit (c d : N) (s t : str) :
  isWhiteSpace c = true -> dropSpaces s = d :: t -> isPunct d = true ->
  tighten (c :: s) = d :: tighten t.
Proof.
  intros H Hs Hd.
  rewrite (@replaceAll_some spaceBeforePunct c s [d] (S (spaces s))).
  - replace (skipn (S (spaces s)) s) with (skipn 1 (skipn (spaces s) s))
      by (rewrite skipn_skipn; reflexivity).
    rewrite skipn_spaces, Hs. reflexivity.
  - unfold spaceBeforePunct. simpl spaces. rewrite H.
    change (skipn (S (spaces s)) (c :: s)) with (skipn (spaces s) s).
    rewrite skipn_spaces, Hs. unfold isPunct in Hd. now rewrite Hd.
Qed.

Lemma tighten_miss (c : N) (s : str) :
  isWhiteSpace c = true -> solidIs isPunct s = false ->
  tighten (c :: s) = c :: tighten s.
Proof.
  intros H Hs. apply replaceAll_none.
  unfold spaceBeforePunct. simpl spaces. rewrite H.
  change (skipn (S (spaces s)) (c :: s)) with (skipn (spaces s) s).
  rewrite skipn_spaces. unfold solidIs, isPunct in Hs.
  destruct (dropSpaces s) as [|d t]; [reflexivity|]. now rewrite Hs.
Qed.

(** The three cases of a step on a non-empty text. *)
Lemma tighten_cases (c : N) (s : str) :
  (isWhiteSpace c = false /\ tighten (c :: s) = c :: tighten s)
  \/ (isWhiteSpace c = true /\ solidIs isPunct s = false
      /\ tighten (c :: s) = c :: tighten s)
  \/ (isWhiteSpace c = true /\ exists d t,
        dropSpaces s = d :: t /\ isPunct d = true
        /\ tighten (c :: s) = d :: tighten t).
Proof.
  destruct (isWhiteSpace c) eqn:Ec; [|left; auto using tighten_solid].
  right. destruct (solidIs isPunct s) eqn:Hs; [right|left; auto using tighten_miss].
  split; [reflexivity|]. unfold solidIs in Hs.
  destruct (dropSpaces s) as [|d t] eqn:E; [discriminate|].
  exists d, t. auto using tighten_hit.
Qed.

Lemma dropSpaces_tail_length (s t : str) (d : N) :
  dropSpaces s = d :: t -> (List.length t < List.length s)%nat.
Proof.
  intros H. pose proof (dropSpaces_length s) as L. rewrite H in L. simpl in L. lia.
Qed.

Lemma tighten_headWs (s : str) : headWs s = false -> headWs (tighten s) = false.
Proof.
  destruct s as [|c s]; [reflexivity|]. intros H. simpl in H.
  rewrite tighten_solid by exact H. exact H.
Qed.

Lemma tighten_solidIs (p : N -> bool) : forall s,
  solidIs p (tighten s) = solidIs p s.
Proof.
  induction s as [|c s IH]; [reflexivity|].
  destruct (tighten_cases c s) as [[Ec ->]|[(Ec & Hs & ->)|(Ec & d & t & Hd & Hp & ->)]].
  - now rewrite !solidIs_solid.
  - now rewrite !solidIs_ws.
  - rewrite (@solidIs_ws p c s Ec).
    rewrite solidIs_solid by (now apply isPunct_solid).
    unfold solidIs. now rewrite Hd.
Qed.

(** Removing the whitespace before a period or a comma creates none of
    the groups. *)
Lemma tighten_group (a b : N) : isWhiteSpace a = false -> forall s,
  anyAt (groupH a b) (tighten s) = true -> anyAt (groupH a b) s = true.
Proof.
  intros Ha. induction s as [s IH] using str_length_ind.
  destruct s as [|c s]; [auto|].
  assert (Hc : isWhiteSpace c = true -> groupH a b c = fun _ => false).
  { intros Hc. unfold groupH. destruct (N.eqb_spec c a); [congruence|reflexivity]. }
  destruct (tighten_cases c s) as [[Ec ->]|[(Ec & Hs & ->)|(Ec & d & t & Hd & Hp & ->)]];
    simpl.
  - unfold groupH at 1 3. rewrite tighten_solidIs.
    intros H. apply orb_prop in H as [H|H]; [now rewrite H|].
    apply IH in H; [|simpl; lia]. rewrite H. apply orb_true_r.
  - rewrite (Hc Ec). simpl. intros H. apply IH in H; [exact H|simpl; lia].
  - rewrite (Hc Ec). simpl. intros H. apply anyAt_dropSpaces. rewrite Hd.
    simpl. unfold groupH at 1 in H. unfold groupH at 1.
    rewrite tighten_solidIs in H.
    apply orb_prop in H as [H|H]; [now rewrite H|].
    apply IH in H; [|simpl; apply dropSpaces_tail_length in Hd; lia].
    rewrite H. apply orb_true_r.
Qed.

(** It creates no pair of adjacent whitespace characters. *)
Lemma tighten_run_free : forall s,
  anyAt runH s = false -> anyAt runH (tighten s) = false.
Proof.
  induction s as [s IH] using str_length_ind.
  destruct s as [|c s]; [auto|]. simpl. intros H.
  apply orb_false_iff in H as [Hh Ht].
  destruct (tighten_cases c s) as [[Ec ->]|[(Ec & Hs & ->)|(Ec & d & t & Hd & Hp & ->)]];
    simpl.
  - unfold runH at 1. rewrite Ec. simpl. apply IH; [simpl; lia|exact Ht].
  - unfold runH in Hh. rewrite Ec in Hh. simpl in Hh.
    unfold runH at 1. rewrite (tighten_headWs _ Hh), andb_false_r. simpl.
    apply IH; [simpl; lia|exact Ht].
  - unfold runH at 1. rewrite (isPunct_solid _ Hp). simpl.
    apply IH; [simpl; apply dropSpaces_tail_length in Hd; lia|].
    apply anyAt_dropSpaces_false in Ht. rewrite Hd in Ht. simpl in Ht.
    now apply orb_false_iff in Ht as [_ Ht].
Qed.

(** After it no whitespace is left before a period or a comma. *)
Lemma tighten_punct_free : forall s, anyAt punctH (tighten s) = false.
Proof.
  induction s as [s IH] using str_length_ind.
  destruct s as [|c s]; [reflexivity|].
  destruct (tighten_cases c s) as [[Ec ->]|[(Ec & Hs & ->)|(Ec & d & t & Hd & Hp & ->)]];
    simpl.
  - unfold punctH at 1. rewrite Ec. simpl. apply IH. simpl. lia.
  - unfold punctH at 1. rewrite tighten_solidIs, Hs, andb_false_r. simpl.
    apply IH. simpl. lia.
  - unfold punctH at 1. rewrite (isPunct_solid _ Hp). simpl.
    apply IH. simpl. apply dropSpaces_tail_length in Hd. lia.
Qed.

End Tighten.

(* ------------------------------------------------------------------ *)
(** ** Trimming *)

Lemma trim_dropTrailing (s : str) : trim s = dropTrailing (dropSpaces s).
Proof. reflexivity. Qed.

Lemma dropSpaces_all (s : str) : forallb isWhiteSpace s = true -> dropSpaces s = [].
Proof.
  induction s as [|c s IH]; simpl; [reflexivity|].
  destruct (isWhiteSpace c); [exact IH|discriminate].
Qed.

Lemma dropSpaces_app (x y : str) :
  dropSpaces (x ++ y)
  = if forallb isWhiteSpace x then dropSpaces y else dropSpaces x ++ y.
Proof.
  induction x as [|c x IH]; simpl; [reflexivity|].
  destruct (isWhiteSpace c); [exact IH|reflexivity].
Qed.

Lemma forallb_rev (p : N -> bool) (s : str) : forallb p (rev s) = forallb p s.
Proof.
  induction s as [|c s IH]; simpl; [reflexivity|].
  rewrite forallb_app, IH. simpl. rewrite andb_true_r. apply andb_comm.
Qed.

Lemma dropTrailing_cons (c : N) (s : str) :
  dropTrailing (c :: s)
  = if isWhiteSpace c && forallb isWhiteSpace s then []
    else c :: dropTrailing s.
Proof.
  unfold dropTrailing. simpl rev. rewrite dropSpaces_app, forallb_rev.
  destruct (forallb isWhiteSpace s) eqn:E.
  - rewrite andb_true_r. simpl.
    destruct (isWhiteSpace c); [reflexivity|].
    rewrite dropSpaces_all by (now rewrite forallb_rev). reflexivity.
  - rewrite andb_false_r, rev_app_distr. reflexivity.
Qed.

Lemma dropTrailing_solidIs (p : N -> bool) (s : str) :
  solidIs p (dropTrailing s) = solidIs p s.
Proof.
  induction s as [|c s IH]; [reflexivity|].
  rewrite dropTrailing_cons.
  destruct (isWhiteSpace c) eqn:Ec; simpl andb.
  - destruct (forallb isWhiteSpace s) eqn:E.
    + unfold solidIs. simpl. rewrite Ec. now rewrite dropSpaces_all.
    + now rewrite !solidIs_ws.
  - now rewrite !solidIs_solid.
Qed.

Lemma dropTrailing_headWs (s : str) :
  headWs (dropTrailing s) = true -> headWs s = true.
Proof.
  destruct s as [|c s]; [auto|]. rewrite dropTrailing_cons.
  destruct (isWhiteSpace c && forallb isWhiteSpace s); [discriminate|auto].
Qed.

Lemma anyAt_dropTrailing (h : N -> str -> bool) :
  (forall c r, h c (dropTrailing r) = true -> h c r = true) ->
  forall s, anyAt h (dropTrailing s) = true -> anyAt h s = true.
Proof.
  intros Hh. induction s as [|c s IH]; [auto|].
  rewrite dropTrailing_cons.
  destruct (isWhiteSpace c && forallb isWhiteSpace s); [discriminate|].
  simpl. intros H. apply orb_prop in H as [H|H].
  - now rewrite (Hh _ _ H).
  - rewrite (IH H). apply orb_true_r.
Qed.

Lemma anyAt_trim (h : N -> str -> bool) (s : str) :
  (forall c r, h c (dropTrailing r) = true -> h c r = true) ->
  anyAt h s = false -> anyAt h (trim s) = false.
Proof.
  intros Hh H. rewrite trim_dropTrailing.
  destruct (anyAt h (dropTrailing (dropSpaces s))) eqn:E; [|reflexivity].
  apply (anyAt_dropTrailing _ Hh) in E. apply anyAt_dropSpaces in E. congruence.
Qed.

Lemma groupH_dropTrailing (a b c : N) (r : str) :
  groupH a b c (dropTrailing r) = true -> groupH a b c r = true.
Proof. unfold groupH. now rewrite dropTrailing_solidIs. Qed.

Lemma runH_dropTrailing (c : N) (r : str) :
  runH c (dropTrailing r) = true -> runH c r = true.
Proof.
  unfold runH. intros H. apply andb_prop in H as [-> H].
  now rewrite (dropTrailing_headWs _ H).
Qed.

Lemma punctH_dropTrailing (c : N) (r : str) :
  punctH c (dropTrailing r) = true -> punctH c r = true.
Proof. unfold punctH. now rewrite dropTrailing_solidIs. Qed.

Lemma dropTrailing_idempotent (s : str) :
  dropTrailing (dropTrailing s) = dropTrailing s.
Proof.
  unfold dropTrailing. rewrite rev_involutive.
  now rewrite (dropSpaces_solid _ (headWs_dropSpaces (rev s))).
Qed.

Lemma trim_idempotent (s : str) : trim (trim s) = trim s.
Proof.
  rewrite !trim_dropTrailing.
  assert (H : headWs (dropTrailing (dropSpaces s)) = false).
  { pose proof (headWs_dropSpaces s) as H.
    destruct (dropSpaces s) as [|c t]; [reflexivity|].
    rewrite dropTrailing_cons. simpl in H. rewrite H. simpl. exact H. }
  rewrite (dropSpaces_solid _ H). apply dropTrailing_idempotent.
Qed.

(* ------------------------------------------------------------------ *)
(** ** A second rendering *)

Lemma degenerate_groupFree (s : str) : degenerate s = false -> groupFree s.
Proof.
  unfold degenerate, groupFree.
  rewrite commaComma_anyAt, parenComma_anyAt, commaParen_anyAt,
    emptyParens_anyAt, emptyBrackets_anyAt.
  intros H. repeat (apply orb_false_iff in H as [H ?]). auto.
Qed.

Lemma groupFree_map (f : str -> str) (s : str) :
  (forall a b, isWhiteSpace a = false ->
     anyAt (groupH a b) (f s) = true -> anyAt (groupH a b) s = true) ->
  groupFree s -> groupFree (f s).
Proof.
  intros Hf (H1 & H2 & H3 & H4 & H5).
  repeat split;
    match goal with
    | |- anyAt (groupH ?a ?b) _ = false =>
        destruct (anyAt (groupH a b) (f s)) eqn:E; [|reflexivity];
        apply Hf in E; [congruence|reflexivity]
    end.
Qed.

Lemma groupFree_stages (s : str) :
  groupFree s ->
  replaceAll commaComma s = s /\ replaceAll parenComma s = s
  /\ replaceAll commaParen s = s /\ replaceAll emptyParens s = s
  /\ replaceAll emptyBrackets s = s.
Proof.
  intros (H1 & H2 & H3 & H4 & H5).
  repeat split; apply replaceAll_id;
    rewrite ?commaComma_anyAt, ?parenComma_anyAt, ?commaParen_anyAt,
      ?emptyParens_anyAt, ?emptyBrackets_anyAt; assumption.
Qed.

(** On a text without any of the groups the cleanup is its two whitespace
    stages and the trim. *)
Lemma cleanup_groupFree (s : str) :
  groupFree s ->
  cleanup s = trim (replaceAll spaceBeforePunct (replaceAll spaceRun s)).
Proof.
  intros H. unfold cleanup.
  destruct (groupFree_stages H) as (-> & _).
  assert (Hc : groupFree (replaceAll spaceRun s))
    by (apply groupFree_map; [intros a b Ha; now apply collapse_group|exact H]).
  destruct (groupFree_stages Hc) as (_ & -> & -> & -> & ->). reflexivity.
Qed.

(** The cleaned text is left as it is by a second cleanup. *)
Lemma cleanup_stable (s : str) :
  degenerate s = false -> cleanup (cleanup s) = cleanup s.
Proof.
  intros H. apply degenerate_groupFree in H.
  rewrite (cleanup_groupFree H).
  set (y := replaceAll spaceRun s).
  set (z := replaceAll spaceBeforePunct y).
  assert (Hy : groupFree y)
    by (apply groupFree_map; [intros a b Ha; now apply collapse_group|exact H]).
  assert (Hz : groupFree z)
    by (apply groupFree_map; [intros a b Ha; now apply tighten_group|exact Hy]).
  assert (Ho : groupFree (trim z)).
  { apply groupFree_map; [|exact Hz]. intros a b _ E.
    destruct (anyAt (groupH a b) z) eqn:F; [reflexivity|].
    rewrite (anyAt_trim _ _ (groupH_dropTrailing a b) F) in E. discriminate. }
  assert (Hrun : anyAt runH (trim z) = false).
  { apply anyAt_trim; [exact runH_dropTrailing|].
    apply tighten_run_free, collapse_run_free. }
  assert (Hpunct : anyAt punctH (trim z) = false).
  { apply anyAt_trim; [exact punctH_dropTrailing|apply tighten_punct_free]. }
  rewrite (cleanup_groupFree Ho).
  rewrite (replaceAll_id spaceRun) by (now rewrite spaceRun_anyAt).
  rewrite (replaceAll_id spaceBeforePunct) by (now rewrite spaceBeforePunct_anyAt).
  apply trim_idempotent.
Qed.

Lemma removeTags_tagFree (refs : list Reference) (text : str) :
  tagFree refs text = true -> removeTags text refs = text.
Proof.
  unfold tagFree, removeTags.
  induction refs as [|ref refs IH]; simpl; [reflexivity|].
  intros H. apply andb_prop in H as [Href H].
  rewrite removeTag_activeTag.
  destruct (activeTag ref) as [tag|] eqn:E; [|exact (IH H)].
  rewrite removeAll_absent; [exact (IH H)| |].
  - unfold activeTag in E.
    destruct (negb (truthyFlag (isSelected ref)) && truthyStr (citationTag ref));
      [|discriminate].
    destruct (citationTag ref) as [t|]; [|discriminate].
    destruct (nonEmpty (trim t)) eqn:F; [|discriminate].
    inversion E; subst tag. intros Hnil. rewrite Hnil in F. discriminate.
  - now destruct (includes tag text).
Qed.

(** C2, as the code has it.  Rendering the rendered text again gives the
    same text whenever the text left by the removal of the tags holds none
    of the groups that the cleanup merges or deletes (two commas, a comma
    next to a parenthesis, an empty pair of parentheses or brackets,
    whitespace apart) and the rendered text holds no occurrence of a tag
    that is to be removed. *)
Theorem C2_second_rendering (citedText : str) (refs : list Reference) :
  degenerate (removeTags citedText refs) = false ->
  tagFree refs (getFilteredCitedText citedText refs) = true ->
  getFilteredCitedText (getFilteredCitedText citedText refs) refs
  = getFilteredCitedText citedText refs.
Proof.
  intros Hd Hfree. unfold getFilteredCitedText at 1.
  rewrite (removeTags_tagFree _ _ Hfree).
  unfold getFilteredCitedText. now apply cleanup_stable.
Qed.

Lemma C2_witness :
  getFilteredCitedText
    (getFilteredCitedText (lit "  AI improves outcomes [1]  and [2] , we think .  ")
       [Examples.ref1; Examples.ref2; Examples.ref3])
    [Examples.ref1; Examples.ref2; Examples.ref3]
  = getFilteredCitedText (lit "  AI improves outcomes [1]  and [2] , we think .  ")
      [Examples.ref1; Examples.ref2; Examples.ref3].
Proof.
  apply (@C2_second_rendering
           (lit "  AI improves outcomes [1]  and [2] , we think .  ")
           [Examples.ref1; Examples.ref2; Examples.ref3]).
  - vm_compute. reflexivity.
  - vm_compute. reflexivity.
Defined.

(** As the specification words it the property fails.  With the tag "Lee, 2023" deselected, the
    text "Deep learning helps (Lee, 2023) a lot." is rendered with the two
    spaces that the deletion of the empty parentheses leaves, and a second
    rendering collapses them.  Without any reference, three commas become
    two and then one. *)
Lemma C2_counterexample :
  getFilteredCitedText (lit "Deep learning helps (Lee, 2023) a lot.")
    [tagRef 1 (Some (lit "Lee, 2023")) (Some false)]
  = lit "Deep learning helps  a lot."
  /\ getFilteredCitedText
       (getFilteredCitedText (lit "Deep learning helps (Lee, 2023) a lot.")
          [tagRef 1 (Some (lit "Lee, 2023")) (Some false)])
       [tagRef 1 (Some (lit "Lee, 2023")) (Some false)]
     = lit "Deep learning helps a lot."
  /\ getFilteredCitedText (lit ",,,") [] = lit ",,"
  /\ getFilteredCitedText (getFilteredCitedText (lit ",,,") []) [] = lit ",".
Proof. repeat split; vm_compute; reflexivity. Qed.

(* ================================================================== *)
(** * Further properties of the code *)

(* ------------------------------------------------------------------ *)
(** ** What the rendered text depends on *)

Lemma removeTags_activeTags (refs : list Reference) : forall text,
  removeTags text refs
  = fold_left (fun t tag => removeAll tag t) (activeTags refs) text.
Proof.
  unfold removeTags, activeTags.
  induction refs as [|ref refs IH]; intros text; [reflexivity|].
  simpl. rewrite fold_left_app, removeTag_activeTag, IH.
  destruct (activeTag ref); reflexivity.
Qed.

Lemma render_same_tags (text : str) (refs refs' : list Reference) :
  activeTags refs = activeTags refs' ->
  getFilteredCitedText text refs = getFilteredCitedText text refs'.
Proof.
  intros H. unfold getFilteredCitedText. now rewrite !removeTags_activeTags, H.
Qed.

(** The rendered text depends on the references only through the
    sequence of their active tags: references that are selected, carry no
    tag or a blank one can be added, dropped or moved, and a tag can be
    padded with whitespace, without any effect; when there is no active tag
    the result is the cleaned text. *)
Theorem render_by_active_tags :
  (forall text refs refs',
     activeTags refs = activeTags refs' ->
     getFilteredCitedText text refs = getFilteredCitedText text refs')
  /\ (forall text refs,
        activeTags refs = [] -> getFilteredCitedText text refs = cleanup text).
Proof.
  split.
  - exact render_same_tags.
  - intros text refs H. unfold getFilteredCitedText.
    now rewrite removeTags_activeTags, H.
Qed.

Lemma render_by_active_tags_witness :
  getFilteredCitedText (lit "AI improves outcomes [1] and [2].")
    [Examples.ref3; Examples.ref1; tagRef 9 None (Some false); Examples.ref2]
  = getFilteredCitedText (lit "AI improves outcomes [1] and [2].")
      [tagRef 1 (Some (lit "  [1]")) None; tagRef 4 (Some (lit "   ")) (Some false);
       tagRef 2 (Some (lit "[2]")) (Some false)].
Proof.
  apply (proj1 render_by_active_tags
           (lit "AI improves outcomes [1] and [2].")
           [Examples.ref3; Examples.ref1; tagRef 9 None (Some false); Examples.ref2]
           [tagRef 1 (Some (lit "  [1]")) None;
            tagRef 4 (Some (lit "   ")) (Some false);
            tagRef 2 (Some (lit "[2]")) (Some false)]).
  vm_compute. reflexivity.
Defined.

(* ------------------------------------------------------------------ *)
(** ** Shape of the rendered text *)

(** Whatever the text and the references, the rendered text has no
    whitespace at either end and no whitespace in front of a period or a
    comma. *)
Theorem render_trimmed_and_tight (text : str) (refs : list Reference) :
  trim (getFilteredCitedText text refs) = getFilteredCitedText text refs
  /\ headWs (getFilteredCitedText text refs) = false
  /\ anyMatch spaceBeforePunct (getFilteredCitedText text refs) = false.
Proof.
  unfold getFilteredCitedText, cleanup.
  set (z := replaceAll emptyBrackets _).
  split; [apply trim_idempotent|]. split.
  - rewrite <- (trim_idempotent (replaceAll spaceBeforePunct z)) at 1.
    rewrite (trim_dropTrailing (trim _)).
    pose proof (headWs_dropSpaces (trim (replaceAll spaceBeforePunct z))) as H.
    destruct (dropSpaces (trim (replaceAll spaceBeforePunct z))) as [|c t];
      [reflexivity|].
    rewrite dropTrailing_cons. simpl in H. rewrite H. simpl. exact H.
  - rewrite spaceBeforePunct_anyAt.
    apply anyAt_trim; [exact punctH_dropTrailing|apply tighten_punct_free].
Qed.

(* ------------------------------------------------------------------ *)
(** ** Rendering only ever shortens *)

Lemma shrinks_compose (f g : str -> str) :
  shrinks f -> shrinks g -> shrinks (fun s => g (f s)).
Proof.
  intros Hf Hg s. destruct (Hf s) as [Lf Ef]. destruct (Hg (f s)) as [Lg Eg].
  split; [lia|]. intros H.
  assert (E1 : List.length (f s) = List.length s) by lia.
  rewrite Eg by lia. now apply Ef.
Qed.

Lemma spaces_length (s : str) : (spaces s <= List.length s)%nat.
Proof.
  induction s as [|c s IH]; simpl; [lia|].
  destruct (isWhiteSpace c); simpl; lia.
Qed.

Lemma skipn_cons_length (k : nat) (s t : str) (d : N) :
  skipn k s = d :: t -> (k < List.length s)%nat.
Proof.
  intros H. pose proof (length_skipn k s) as L. rewrite H in L. simpl in L. lia.
Qed.

Lemma group_length (a b : N) (s : str) (n : nat) :
  group a b s = Some n -> (2 <= n <= List.length s)%nat.
Proof.
  unfold group. destruct s as [|c r]; [discriminate|].
  destruct (N.eqb c a); [|discriminate].
  destruct (skipn (spaces r) r) as [|d t] eqn:E; [discriminate|].
  destruct (N.eqb d b); [|discriminate].
  intros H. inversion H; subst n. apply skipn_cons_length in E. simpl. lia.
Qed.

Lemma commaComma_contracting : contracting commaComma.
Proof.
  intros s k r. unfold commaComma.
  destruct (group comma comma s) as [n|] eqn:E; [|discriminate].
  intros H. inversion H; subst. split; [now apply (group_length _ _ _ E)|simpl; lia].
Qed.

Lemma commaParen_contracting : contracting commaParen.
Proof.
  intros s k r. unfold commaParen.
  destruct (group comma rparen s) as [n|] eqn:E; [|discriminate].
  intros H. inversion H; subst. split; [now apply (group_length _ _ _ E)|simpl; lia].
Qed.

Lemma emptyParens_contracting : contracting emptyParens.
Proof.
  intros s k r. unfold emptyParens.
  destruct (group lparen rparen s) as [n|] eqn:E; [|discriminate].
  intros H. inversion H; subst. split; [now apply (group_length _ _ _ E)|simpl; lia].
Qed.

Lemma emptyBrackets_contracting : contracting emptyBrackets.
Proof.
  intros s k r. unfold emptyBrackets.
  destruct (group lbrack rbrack s) as [n|] eqn:E; [|discriminate].
  intros H. inversion H; subst. split; [now apply (group_length _ _ _ E)|simpl; lia].
Qed.

Lemma parenComma_contracting : contracting parenComma.
Proof.
  intros s k r. unfold parenComma.
  destruct (group lparen comma s) as [n|] eqn:E; [|discriminate].
  intros H. inversion H; subst. apply group_length in E.
  pose proof (spaces_length (skipn n s)) as L. rewrite length_skipn in L.
  split; [lia|simpl; lia].
Qed.

Lemma spaceRun_contracting : contracting spaceRun.
Proof.
  intros s k r. unfold spaceRun.
  destruct (2 <=? spaces s)%nat eqn:E; [|discriminate].
  intros H. inversion H; subst. apply Nat.leb_le in E.
  pose proof (spaces_length s). split; [lia|simpl; lia].
Qed.

Lemma spaceBeforePunct_contracting : contracting spaceBeforePunct.
Proof.
  intros s k r. unfold spaceBeforePunct.
  destruct (spaces s) as [|n]; [discriminate|].
  destruct (skipn (S n) s) as [|d t] eqn:E; [discriminate|].
  destruct (N.eqb d period || N.eqb d comma); [|discriminate].
  intros H. inversion H; subst. apply skipn_cons_length in E.
  split; [lia|simpl; lia].
Qed.

Lemma replaceAll_shrinks (m : matcher) : contracting m -> shrinks (replaceAll m).
Proof.
  intros Hm. intros s. induction s as [s IH] using str_length_ind.
  destruct s as [|c s]; [split; reflexivity|].
  destruct (m (c :: s)) as [[k r]|] eqn:E.
  - destruct (Hm _ _ _ E) as [Hk Hr]. destruct k as [|n]; [lia|].
    rewrite (replaceAll_some _ _ _ E).
    destruct (IH (skipn n s)) as [L _]; [rewrite length_skipn; simpl; lia|].
    rewrite length_skipn in L. rewrite length_app. simpl in *. split; lia.
  - rewrite (replaceAll_none _ _ _ E).
    destruct (IH s) as [L Eq]; [simpl; lia|]. simpl. split; [lia|].
    intros H. f_equal. apply Eq. lia.
Qed.

Lemma removeAll_shrinks (tag : str) : tag <> [] -> shrinks (removeAll tag).
Proof.
  intros Hne s. induction s as [s IH] using str_length_ind.
  destruct s as [|x s]; [rewrite (removeAll_nil Hne); split; reflexivity|].
  destruct (startsWith tag (x :: s)) eqn:E.
  - pose proof (startsWith_app _ _ E) as Hs.
    destruct (length_pos Hne) as [n Hn].
    assert (L0 : (List.length (skipn (List.length tag) (x :: s))
                  < List.length (x :: s))%nat)
      by (rewrite length_skipn, Hn; simpl; lia).
    rewrite Hs at 1 3. rewrite (removeAll_hit Hne).
    destruct (IH _ L0) as [L _]. split; lia.
  - rewrite (removeAll_miss Hne _ _ E).
    destruct (IH s) as [L Eq]; [simpl; lia|]. simpl. split; [lia|].
    intros H. f_equal. apply Eq. lia.
Qed.

Lemma dropSpaces_shrinks : shrinks dropSpaces.
Proof.
  intros s. split; [apply dropSpaces_length|].
  destruct s as [|c s]; [reflexivity|]. simpl.
  destruct (isWhiteSpace c); [|reflexivity].
  pose proof (dropSpaces_length s). lia.
Qed.

Lemma trim_shrinks : shrinks trim.
Proof.
  intros s. rewrite trim_dropTrailing. unfold dropTrailing.
  destruct (dropSpaces_shrinks s) as [L1 E1].
  destruct (dropSpaces_shrinks (rev (dropSpaces s))) as [L2 E2].
  rewrite length_rev in *. split; [lia|]. intros H.
  rewrite E2 by lia. rewrite rev_involutive. apply E1. lia.
Qed.

Lemma removeTag_shrinks (ref : Reference) : shrinks (fun t => removeTag t ref).
Proof.
  intros s. rewrite removeTag_activeTag.
  destruct (activeTag ref) as [tag|] eqn:E; [|split; reflexivity].
  apply removeAll_shrinks. unfold activeTag in E.
  destruct (negb (truthyFlag (isSelected ref)) && truthyStr (citationTag ref));
    [|discriminate].
  destruct (citationTag ref) as [t|]; [|discriminate].
  destruct (nonEmpty (trim t)) eqn:F; [|discriminate].
  inversion E; subst tag. intros Hnil. rewrite Hnil in F. discriminate.
Qed.

Lemma removeTags_shrinks (refs : list Reference) :
  shrinks (fun t => removeTags t refs).
Proof.
  unfold removeTags. induction refs as [|ref refs IH]; [split; reflexivity|].
  simpl. exact (shrinks_compose (removeTag_shrinks ref) IH).
Qed.

Lemma cleanup_shrinks : shrinks cleanup.
Proof.
  unfold cleanup.
  repeat (apply (@shrinks_compose _ _); [|first
    [ apply trim_shrinks
    | apply replaceAll_shrinks;
      first [ apply spaceBeforePunct_contracting | apply emptyBrackets_contracting
            | apply emptyParens_contracting | apply commaParen_contracting
            | apply parenComma_contracting | apply spaceRun_contracting ] ]]).
  apply replaceAll_shrinks, commaComma_contracting.
Qed.

Lemma render_contracts (refs : list Reference) :
  shrinks (fun text => getFilteredCitedText text refs).
Proof. exact (shrinks_compose (removeTags_shrinks refs) cleanup_shrinks). Qed.

(** The rendered text is never longer than the stored text, and it is as
    long only when it is the stored text itself: a rendering either leaves
    the text as it is or makes it strictly shorter. *)
Theorem render_shrinks (text : str) (refs : list Reference) :
  (List.length (getFilteredCitedText text refs) <= List.length text)%nat
  /\ (List.length (getFilteredCitedText text refs) = List.length text ->
      getFilteredCitedText text refs = text).
Proof.
  exact (render_contracts refs text).
Qed.

Lemma render_shrinks_witness :
  getFilteredCitedText (lit "Drafts matter (Lee, 2023).") [Examples.ref1]
  = lit "Drafts matter (Lee, 2023).".
Proof.
  apply (proj2 (render_shrinks (lit "Drafts matter (Lee, 2023).") [Examples.ref1])).
  vm_compute. reflexivity.
Defined.

(** Rendering again and again settles: after at most as many renderings
    as the text has characters, a further rendering changes nothing. *)
Theorem render_settles (refs : list Reference) (text : str) :
  exists n,
    (n <= List.length text)%nat
    /\ getFilteredCitedText
         (Nat.iter n (fun t => getFilteredCitedText t refs) text) refs
       = Nat.iter n (fun t => getFilteredCitedText t refs) text.
Proof.
  induction text as [text IH] using str_length_ind.
  destruct (list_eq_dec N.eq_dec (getFilteredCitedText text refs) text) as [E|E].
  - exists O. split; [lia|exact E].
  - destruct (render_contracts refs text) as [L Eq].
    assert (Lt : (List.length (getFilteredCitedText text refs)
                  < List.length text)%nat).
    { destruct (Nat.eq_dec (List.length (getFilteredCitedText text refs))
                  (List.length text)) as [H|H]; [now apply Eq in H|lia]. }
    destruct (IH _ Lt) as (n & Hn & Hfix).
    exists (S n). split; [lia|].
    rewrite Nat.iter_succ_r. exact Hfix.
Qed.

(* ------------------------------------------------------------------ *)
(** ** Toggling twice *)

Lemma activeTag_flags (r r' : Reference) :
  truthyFlag (isSelected r') = truthyFlag (isSelected r) ->
  citationTag r' = citationTag r ->
  activeTag r' = activeTag r.
Proof. intros H1 H2. unfold activeTag. now rewrite H1, H2. Qed.

Lemma toggleRef_twice (refId : Z) (r : Reference) :
  truthyFlag (isSelected (Toggle.toggleRef refId (Toggle.toggleRef refId r)))
  = truthyFlag (isSelected r)
  /\ citationTag (Toggle.toggleRef refId (Toggle.toggleRef refId r))
     = citationTag r
  /\ (isSelected r <> None ->
      Toggle.toggleRef refId (Toggle.toggleRef refId r) = r).
Proof.
  unfold Toggle.toggleRef.
  destruct (Z.eqb (id r) refId) eqn:E; [|rewrite E; repeat split].
  simpl. rewrite E. destruct r as [i t a y j u g l sn cr rc os sp ss [[|]|] ct];
    simpl; repeat split; congruence.
Qed.

Lemma toggleRefs_twice (refId : Z) (refs : list Reference) :
  activeTags (map (Toggle.toggleRef refId) (map (Toggle.toggleRef refId) refs))
  = activeTags refs
  /\ (Forall (fun r => isSelected r <> None) refs ->
      map (Toggle.toggleRef refId) (map (Toggle.toggleRef refId) refs) = refs).
Proof.
  induction refs as [|r refs [IH1 IH2]]; [split; reflexivity|].
  destruct (toggleRef_twice refId r) as (Hf & Ht & Hr).
  split.
  - unfold activeTags in *. simpl. rewrite IH1.
    now rewrite (activeTag_flags _ _ Hf Ht).
  - intros H. inversion H; subst. simpl. rewrite Hr, IH2; auto.
Qed.

(** Toggling the same reference twice brings every session back to the
    text it displayed before; and when every reference carries an explicit
    flag, as the references built by the service do, the history itself is
    back to what it was. *)
Theorem toggle_twice (sessionTimestamp refId : Z) (prev : list SavedCitation) :
  map rendered
    (Toggle.toggleReferenceSelection sessionTimestamp refId
       (Toggle.toggleReferenceSelection sessionTimestamp refId prev))
  = map rendered prev
  /\ (Forall (fun s => Forall (fun r => isSelected r <> None) (references s)) prev ->
      Toggle.toggleReferenceSelection sessionTimestamp refId
        (Toggle.toggleReferenceSelection sessionTimestamp refId prev)
      = prev).
Proof.
  unfold Toggle.toggleReferenceSelection.
  induction prev as [|s prev [IH1 IH2]]; [split; reflexivity|].
  assert (Hs : rendered (Toggle.toggleSession sessionTimestamp refId
                           (Toggle.toggleSession sessionTimestamp refId s))
               = rendered s
          /\ (Forall (fun r => isSelected r <> None) (references s) ->
              Toggle.toggleSession sessionTimestamp refId
                (Toggle.toggleSession sessionTimestamp refId s) = s)).
  { unfold Toggle.toggleSession.
    destruct (Z.eqb (timestamp s) sessionTimestamp) eqn:E;
      [|rewrite E; split; reflexivity].
    simpl. rewrite E. destruct (toggleRefs_twice refId (references s)) as [H1 H2].
    split.
    - unfold rendered. simpl. now apply render_same_tags.
    - intros H. simpl. rewrite (H2 H). now destruct s. }
  destruct Hs as [Hs1 Hs2]. split.
  - simpl. now rewrite Hs1, IH1.
  - intros H. inversion H; subst. simpl. rewrite Hs2, IH2; auto.
Qed.

Lemma toggle_twice_witness :
  Toggle.toggleReferenceSelection 200 1
    (Toggle.toggleReferenceSelection 200 1
       [mkSavedCitation (lit "other") (lit "Other (Lee, 2023).")
          [tagRef 1 (Some (lit "(Lee, 2023)")) (Some false)] [] 200])
  = [mkSavedCitation (lit "other") (lit "Other (Lee, 2023).")
       [tagRef 1 (Some (lit "(Lee, 2023)")) (Some false)] [] 200].
Proof.
  apply (proj2 (toggle_twice 200 1
                  [mkSavedCitation (lit "other") (lit "Other (Lee, 2023).")
                     [tagRef 1 (Some (lit "(Lee, 2023)")) (Some false)] [] 200])).
  repeat constructor; discriminate.
Defined.

(* ------------------------------------------------------------------ *)
(** ** The active session *)

Lemma find_timestamp (t : Z) (l : list SavedCitation) (s : SavedCitation) :
  find (fun x => Z.eqb (timestamp x) t) l = Some s ->
  exists before after,
    l = before ++ s :: after /\ timestamp s = t
    /\ Forall (fun x => timestamp x <> t) before.
Proof.
  induction l as [|x l IH]; simpl; [discriminate|].
  destruct (Z.eqb_spec (timestamp x) t) as [E|E].
  - intros H. inversion H; subst. exists [], l. repeat split. constructor.
  - intros H. destruct (IH H) as (b & a & -> & Ht & Hb).
    exists (x :: b), a. repeat split; auto.
Qed.

Lemma activeSession_member (st : App.State) (s : SavedCitation) :
  App.activeSession st = Some s -> In s (App.savedCitations st).
Proof.
  destruct st as [l sel stat err]. unfold App.activeSession. simpl.
  destruct sel as [t|]; [destruct (Z.eqb t 0)|];
    try (destruct l; simpl; [discriminate|intros H; inversion H; now left]).
  destruct (find _ l) eqn:F.
  - intros H. inversion H; subst. apply find_some in F as [Hin _]. exact Hin.
  - destruct l; simpl; [discriminate|intros H; inversion H; now left].
Qed.

(** There is an active session exactly when the history is not empty, and
    it is always one of the sessions of the history.  When a timestamp other
    than 0 is selected and some session carries it, the active session is
    the first such session; otherwise it is the most recent session. *)
Theorem activeSession_choice (st : App.State) :
  (App.activeSession st = None <-> App.savedCitations st = [])
  /\ (forall s, App.activeSession st = Some s -> In s (App.savedCitations st))
  /\ (forall t s,
        App.selectedSessionTimestamp st = Some t -> t <> 0%Z ->
        In s (App.savedCitations st) -> timestamp s = t ->
        exists s' before after,
          App.activeSession st = Some s'
          /\ App.savedCitations st = before ++ s' :: after
          /\ timestamp s' = t
          /\ Forall (fun x => timestamp x <> t) before)
  /\ ((App.selectedSessionTimestamp st = None
       \/ App.selectedSessionTimestamp st = Some 0%Z
       \/ exists t, App.selectedSessionTimestamp st = Some t
                    /\ Forall (fun x => timestamp x <> t) (App.savedCitations st)) ->
      App.activeSession st = hd_error (App.savedCitations st)).
Proof.
  destruct st as [l sel stat err]. unfold App.activeSession. simpl.
  repeat split.
  - destruct sel as [t|]; [destruct (Z.eqb t 0)|]; try (now destruct l).
    destruct (find _ l) eqn:F; [discriminate|]. now destruct l.
  - intros ->. destruct sel as [t|]; [destruct (Z.eqb t 0)|]; reflexivity.
  - intros s. destruct sel as [t|]; [destruct (Z.eqb t 0)|];
      try (destruct l; simpl; [discriminate|intros H; inversion H; now left]).
    destruct (find _ l) eqn:F.
    + intros H. inversion H; subst. apply find_some in F as [Hin _]. exact Hin.
    + destruct l; simpl; [discriminate|intros H; inversion H; now left].
  - intros t s Hsel Ht Hin Hts. subst sel.
    destruct (Z.eqb_spec t 0) as [E|_]; [congruence|].
    destruct (find (fun x => Z.eqb (timestamp x) t) l) as [s'|] eqn:F.
    + destruct (find_timestamp _ _ F) as (b & a & Hl & Hs' & Hb).
      exists s', b, a. repeat split; assumption.
    + exfalso. apply (find_none _ _ F) in Hin. rewrite Hts, Z.eqb_refl in Hin.
      discriminate.
  - intros [->|[->|(t & -> & H)]]; try reflexivity.
    destruct (Z.eqb t 0); [reflexivity|].
    destruct (find (fun x => Z.eqb (timestamp x) t) l) as [s'|] eqn:F;
      [|reflexivity].
    apply find_some in F as [Hin E]. apply Z.eqb_eq in E.
    exfalso. revert E. now apply (proj1 (Forall_forall _ _) H).
Qed.

Lemma activeSession_choice_witness :
  exists s' before after,
    App.activeSession (App.mkState Examples.sessions0 (Some 100%Z) App.IDLE None)
    = Some s'
    /\ Examples.sessions0 = before ++ s' :: after
    /\ timestamp s' = 100%Z
    /\ Forall (fun x => timestamp x <> 100%Z) before.
Proof.
  apply (proj1 (proj2 (proj2 (activeSession_choice
           (App.mkState Examples.sessions0 (Some 100%Z) App.IDLE None))))
           100%Z (nth 1 Examples.sessions0 (mkSavedCitation [] [] [] [] 0))).
  - reflexivity.
  - discriminate.
  - simpl. right. left. reflexivity.
  - reflexivity.
Defined.

Lemma find_toggle (ts refId t : Z) (l : list SavedCitation) :
  find (fun x => Z.eqb (timestamp x) t)
    (Toggle.toggleReferenceSelection ts refId l)
  = option_map (Toggle.toggleSession ts refId)
      (find (fun x => Z.eqb (timestamp x) t) l).
Proof.
  unfold Toggle.toggleReferenceSelection.
  induction l as [|x l IH]; [reflexivity|]. simpl.
  assert (E : timestamp (Toggle.toggleSession ts refId x) = timestamp x)
    by (unfold Toggle.toggleSession; destruct (Z.eqb (timestamp x) ts); reflexivity).
  rewrite E. destruct (Z.eqb (timestamp x) t); [reflexivity|exact IH].
Qed.

(** A toggle does not change which session is active: the active session
    after the toggle is the previously active session, toggled; and the
    history keeps its length and the timestamps of its sessions. *)
Theorem toggle_keeps_active_session (sessionTimestamp refId : Z) (st : App.State) :
  App.activeSession (App.toggleReferenceSelection sessionTimestamp refId st)
  = option_map (Toggle.toggleSession sessionTimestamp refId) (App.activeSession st)
  /\ map timestamp
       (App.savedCitations (App.toggleReferenceSelection sessionTimestamp refId st))
     = map timestamp (App.savedCitations st).
Proof.
  destruct st as [l sel stat err].
  unfold App.activeSession, App.toggleReferenceSelection. simpl.
  assert (Hhd : hd_error (Toggle.toggleReferenceSelection sessionTimestamp refId l)
                = option_map (Toggle.toggleSession sessionTimestamp refId)
                    (hd_error l)) by (destruct l; reflexivity).
  split.
  - destruct sel as [t|]; [|exact Hhd].
    destruct (Z.eqb t 0); [exact Hhd|].
    rewrite find_toggle.
    destruct (find (fun x => Z.eqb (timestamp x) t) l); [reflexivity|exact Hhd].
  - unfold Toggle.toggleReferenceSelection. rewrite map_map.
    apply map_ext. intros x. unfold Toggle.toggleSession.
    destruct (Z.eqb (timestamp x) sessionTimestamp); reflexivity.
Qed.

(* ------------------------------------------------------------------ *)
(** ** A citation request *)

(** A request with a blank input changes nothing.  Otherwise, when the
    call succeeds the new session is put in front of the history, which is
    otherwise kept as it was, and becomes the active session; when the call
    fails the history and the selection are untouched, the status is the
    error status and the message recorded is the message of the thrown
    value when it has a non-empty one, and the fixed default message, which
    is not empty, when it has none or an empty one. *)
Theorem cite_action (inputText : str) (now : Z) (st : App.State) :
  (trim inputText = [] ->
   forall outcome, App.handleCiteAction inputText now outcome st = st)
  /\ (trim inputText <> [] ->
      (forall data,
         App.savedCitations (App.handleCiteAction inputText now (App.Resolved data) st)
         = App.stamp data now :: App.savedCitations st
         /\ App.activeSession
              (App.handleCiteAction inputText now (App.Resolved data) st)
            = Some (App.stamp data now)
         /\ App.status (App.handleCiteAction inputText now (App.Resolved data) st)
            = App.COMPLETED)
      /\ (forall message,
            App.savedCitations
              (App.handleCiteAction inputText now (App.Rejected message) st)
            = App.savedCitations st
            /\ App.activeSession
                 (App.handleCiteAction inputText now (App.Rejected message) st)
               = App.activeSession st
            /\ App.status
                 (App.handleCiteAction inputText now (App.Rejected message) st)
               = App.ERROR
            /\ (forall m, message = Some m -> m <> [] ->
                 App.error
                   (App.handleCiteAction inputText now (App.Rejected message) st)
                 = Some m)
            /\ (message = None \/ message = Some [] ->
                 App.error
                   (App.handleCiteAction inputText now (App.Rejected message) st)
                 = Some App.defaultError)
            /\ App.defaultError <> []
            /\ exists m,
                 App.error
                   (App.handleCiteAction inputText now (App.Rejected message) st)
                 = Some m /\ m <> [])).
Proof.
  unfold App.handleCiteAction. split.
  - intros H outcome. now rewrite H.
  - intros H. rewrite (nonEmpty_true H). simpl. split.
    + intros data. split; [reflexivity|]. split; [|reflexivity].
      unfold App.activeSession. simpl.
      destruct (Z.eqb now 0); [reflexivity|]. now rewrite Z.eqb_refl.
    + intros message. do 3 (split; [reflexivity|]).
      split; [|split; [|split; [discriminate|]]].
      * intros m -> Hm. destruct m; [now elim Hm|reflexivity].
      * intros [->| ->]; reflexivity.
      * destruct message as [[|c m]|]; eexists; (split; [reflexivity|discriminate]).
Qed.

Lemma cite_action_witness :
  App.savedCitations
    (App.handleCiteAction (lit " <p>draft</p> ") 300
       (App.Resolved (App.mkCitationResult (lit "draft") (lit "Draft [1].") [] []))
       (App.mkState Examples.sessions0 (Some 100%Z) App.IDLE None))
  = App.stamp (App.mkCitationResult (lit "draft") (lit "Draft [1].") [] []) 300
    :: Examples.sessions0
  /\ App.error
       (App.handleCiteAction (lit " <p>draft</p> ") 300
          (App.Rejected (Some (lit "quota exceeded")))
          (App.mkState Examples.sessions0 (Some 100%Z) App.IDLE None))
     = Some (lit "quota exceeded")
  /\ App.error
       (App.handleCiteAction (lit " <p>draft</p> ") 300
          (App.Rejected (Some []))
          (App.mkState Examples.sessions0 (Some 100%Z) App.IDLE None))
     = Some App.defaultError.
Proof.
  pose proof (proj2 (cite_action (lit " <p>draft</p> ") 300
                (App.mkState Examples.sessions0 (Some 100%Z) App.IDLE None))
                ltac:(vm_compute; discriminate)) as [Hok Hfail].
  split; [exact (proj1 (Hok _))|]. split.
  - destruct (Hfail (Some (lit "quota exceeded"))) as (_ & _ & _ & Hmsg & _).
    apply (Hmsg (lit "quota exceeded") eq_refl). vm_compute. discriminate.
  - destruct (Hfail (Some [])) as (_ & _ & _ & _ & Hdefault & _).
    apply Hdefault. now right.
Defined.

(* ------------------------------------------------------------------ *)
(** ** What an evidence export is given *)

Lemma truthyFlag_true (b : option bool) : truthyFlag b = true -> b = Some true.
Proof. destruct b as [[|]|]; simpl; congruence. Qed.

Lemma activeReferences_selected (refs : list Reference) :
  Forall (fun r => isSelected r = Some true) (App.activeReferences refs).
Proof.
  apply Forall_forall. intros r H. apply filter_In in H as [_ H].
  now apply truthyFlag_true.
Qed.

Lemma activeReferences_nil (refs : list Reference) :
  App.activeReferences refs = []
  <-> forall r, In r refs -> truthyFlag (isSelected r) = false.
Proof.
  unfold App.activeReferences. induction refs as [|r refs IH]; simpl.
  - split; [intros _ r []|reflexivity].
  - destruct (truthyFlag (isSelected r)) eqn:E; split.
    + discriminate.
    + intros H. specialize (H r (or_introl eq_refl)). congruence.
    + intros H x [<-|Hx]; [exact E|now apply IH].
    + intros H. apply IH. auto.
Qed.

(** Every session handed to the evidence exporter stems from a session of
    the history, which for the scope [SELECTED] is the active session; it
    holds at least one reference, and holds exactly the references of that
    session whose flag is [true], in their order.  For the scope [SELECTED]
    there is at most one such session, and there is one exactly when the
    active session has a selected reference; for the scope [ALL] every
    session of the history with a selected reference is handed over.  No
    download is triggered exactly when there is no such session, which for
    the scope [ALL] is when no reference of the history is selected; a
    download that is triggered holds what the generator of the chosen
    format makes of these sessions. *)
Theorem export_targets (scope : App.Scope) (st : App.State) :
  Forall (fun t =>
            references t <> []
            /\ Forall (fun r => isSelected r = Some true) (references t)
            /\ exists s,
                 In s (App.savedCitations st)
                 /\ (scope = App.SELECTED -> App.activeSession st = Some s)
                 /\ t = mkSavedCitation (originalText s) (citedText s)
                          (App.activeReferences (references s))
                          (groundingUrls s) (timestamp s))
    (App.filteredTargets scope st)
  /\ (List.length (App.filteredTargets App.SELECTED st) <= 1)%nat
  /\ (forall s, App.activeSession st = Some s ->
                App.activeReferences (references s) <> [] ->
                App.filteredTargets App.SELECTED st
                = [mkSavedCitation (originalText s) (citedText s)
                     (App.activeReferences (references s))
                     (groundingUrls s) (timestamp s)])
  /\ (forall s, In s (App.savedCitations st) ->
                App.activeReferences (references s) <> [] ->
                In (mkSavedCitation (originalText s) (citedText s)
                      (App.activeReferences (references s))
                      (groundingUrls s) (timestamp s))
                   (App.filteredTargets App.ALL st))
  /\ (forall generateEvidenceMD generateEvidenceDoc format now,
        (App.handleExportResources generateEvidenceMD generateEvidenceDoc
           format scope now st = None
         <-> App.filteredTargets scope st = [])
        /\ forall d,
             App.handleExportResources generateEvidenceMD generateEvidenceDoc
               format scope now st = Some d ->
             App.content d
             = match format with
               | App.MD => generateEvidenceMD (App.filteredTargets scope st)
               | App.DOC => generateEvidenceDoc (App.filteredTargets scope st)
               end)
  /\ (App.filteredTargets App.ALL st = []
      <-> forall s r, In s (App.savedCitations st) -> In r (references s) ->
                      truthyFlag (isSelected r) = false).
Proof.
  split; [|split; [|split; [|split; [|split]]]].
  - apply Forall_forall. intros t H. unfold App.filteredTargets in H.
    apply filter_In in H as [H Hlen]. apply in_map_iff in H as (s & <- & Hs).
    simpl in *. split; [now destruct (App.activeReferences (references s))|].
    split; [apply activeReferences_selected|].
    exists s. destruct scope.
    + destruct (App.activeSession st) as [a|] eqn:E; [|destruct Hs].
      destruct Hs as [<-|[]].
      split; [now apply activeSession_member|]. split; [reflexivity|reflexivity].
    + split; [exact Hs|]. split; [discriminate|reflexivity].
  - unfold App.filteredTargets.
    destruct (App.activeSession st) as [a|]; simpl; [|lia].
    destruct (App.activeReferences (references a)); simpl; lia.
  - intros s Hs Hne. unfold App.filteredTargets. rewrite Hs. simpl.
    destruct (App.activeReferences (references s)); [now elim Hne|reflexivity].
  - intros s Hin Hne. unfold App.filteredTargets. apply filter_In. split.
    + apply in_map_iff. exists s. split; [reflexivity|exact Hin].
    + simpl. destruct (App.activeReferences (references s));
        [now elim Hne|reflexivity].
  - intros genMD genDoc format now. unfold App.handleExportResources.
    destruct (App.filteredTargets scope st) as [|t ts]; simpl.
    + split; [split; reflexivity|discriminate].
    + destruct format; (split; [split; discriminate|]);
        intros d H; inversion H; reflexivity.
  - unfold App.filteredTargets.
    induction (App.savedCitations st) as [|s l IH]; simpl.
    + split; [intros _ s r []|reflexivity].
    + destruct (App.activeReferences (references s)) as [|r0 rs] eqn:E; simpl.
      * rewrite IH. pose proof (proj1 (activeReferences_nil _) E) as E'. split.
        -- intros H x r [<-|Hx]; [apply E'|apply H; exact Hx].
        -- intros H x r Hx. apply H. now right.
      * split; [discriminate|]. intros H.
        assert (N : App.activeReferences (references s) = [])
          by (apply activeReferences_nil; intros r Hr; apply (H s r); auto).
        congruence.
Qed.

Lemma export_targets_witness :
  App.filteredTargets App.SELECTED
    (App.mkState Examples.sessions0 (Some 100%Z) App.IDLE None)
  = [mkSavedCitation (lit "draft") (lit "Draft [1] [2].")
       [tagRef 1 (Some (lit "[1]")) (Some true)] [] 100]
  /\ App.filteredTargets App.ALL
       (App.mkState
          [mkSavedCitation (lit "other") (lit "Other (Lee, 2023).")
             [tagRef 1 (Some (lit "(Lee, 2023)")) (Some false)] [] 200]
          None App.IDLE None)
     = [].
Proof.
  split.
  - apply (proj1 (proj2 (proj2
             (export_targets App.SELECTED
                (App.mkState Examples.sessions0 (Some 100%Z) App.IDLE None))))
             (mkSavedCitation (lit "draft") (lit "Draft [1] [2].")
                [tagRef 1 (Some (lit "[1]")) (Some true);
                 tagRef 2 (Some (lit "[2]")) None] [] 100)).
    + reflexivity.
    + discriminate.
  - apply (proj2 (proj2 (proj2 (proj2 (proj2 (proj2
             (export_targets App.ALL
                (App.mkState
                   [mkSavedCitation (lit "other") (lit "Other (Lee, 2023).")
                      [tagRef 1 (Some (lit "(Lee, 2023)")) (Some false)] [] 200]
                   None App.IDLE None)))))))).
    intros s r [<-|[]] [<-|[]]. reflexivity.
Defined.

(* ------------------------------------------------------------------ *)
(** ** The word diff keeps the text and ignores positions *)

Lemma splitSpaces_concat (s : str) : forall cur run,
  List.concat (splitSpaces cur run s) = rev cur ++ rev run ++ s.
Proof.
  induction s as [|c s IH]; intros cur run; simpl.
  - destruct run; simpl; now rewrite ?app_nil_r.
  - destruct (isWhiteSpace c).
    + rewrite IH. simpl. now rewrite <- !app_assoc.
    + destruct run as [|d run].
      * rewrite IH. simpl. now rewrite <- !app_assoc.
      * simpl List.concat. rewrite IH. simpl. now rewrite <- !app_assoc.
Qed.

(** When neither text is empty, putting the texts of the spans one after
    the other gives back the text content of the revised text, whitespace
    included. *)
Theorem diff_lossless (stripHtml : str -> str) (oldStr newStr : str) :
  oldStr <> [] -> newStr <> [] ->
  exists spans,
    getWordDiff stripHtml oldStr newStr = Spans spans
    /\ List.concat (map snd spans) = stripHtml newStr.
Proof.
  intros Ho Hn. unfold getWordDiff.
  rewrite (nonEmpty_true Ho), (nonEmpty_true Hn). simpl.
  eexists. split; [reflexivity|].
  rewrite classify_text. unfold words. now rewrite splitSpaces_concat.
Qed.

Lemma diff_lossless_witness :
  exists spans,
    getWordDiff (fun s => s) (lit "old text") (lit " new  text here ")
    = Spans spans
    /\ List.concat (map snd spans) = lit " new  text here ".
Proof.
  apply (@diff_lossless (fun s => s) (lit "old text") (lit " new  text here "));
    discriminate.
Defined.

Lemma existsb_In (w : str) (l : list str) :
  existsb (str_eqb w) l = true <-> In w l.
Proof.
  rewrite existsb_exists. split.
  - intros (x & Hx & E). apply str_eqb_eq in E. now subst.
  - intros H. exists w. split; [exact H|apply str_eqb_refl].
Qed.

(** When neither text is empty, the spans are the tokens of the revised
    text, one span per token and in their order, and a token is marked as
    added exactly when it is not blank and is not one of the tokens of the
    baseline, wherever either stands; so two baselines with the same tokens
    give the same result. *)
Theorem diff_by_membership (stripHtml : str -> str) (newStr : str) :
  newStr <> [] ->
  (forall oldStr, oldStr <> [] ->
     exists spans,
       getWordDiff stripHtml oldStr newStr = Spans spans
       /\ map snd spans = words (stripHtml newStr)
       /\ forall c w, In (c, w) spans ->
            (c = Whitespace <-> blank w = true)
            /\ (c = Added <->
                blank w = false /\ ~ In w (words (stripHtml oldStr)))
            /\ (c = Unchanged <->
                blank w = false /\ In w (words (stripHtml oldStr))))
  /\ (forall old1 old2, old1 <> [] -> old2 <> [] ->
        (forall w, In w (words (stripHtml old1)) <-> In w (words (stripHtml old2))) ->
        getWordDiff stripHtml old1 newStr = getWordDiff stripHtml old2 newStr).
Proof.
  intros Hn. split.
  - intros oldStr Ho. unfold getWordDiff.
    rewrite (nonEmpty_true Ho), (nonEmpty_true Hn). simpl.
    eexists. split; [reflexivity|]. split; [apply classify_text|].
    intros c w Hin. apply in_map_iff in Hin as (w' & Hc & _).
    unfold classify in Hc.
    destruct (blank w') eqn:B.
    + inversion Hc; subst. repeat split; try congruence; intros [? _]; congruence.
    + destruct (existsb (str_eqb w') (words (stripHtml oldStr))) eqn:E;
        inversion Hc; subst.
      * apply existsb_In in E.
        repeat split; try congruence; try tauto; intros [_ H]; tauto.
      * assert (N : ~ In w (words (stripHtml oldStr)))
          by (intros H; apply existsb_In in H; congruence).
        repeat split; try congruence; try tauto; intros [_ H]; tauto.
  - intros old1 old2 H1 H2 Hsame. unfold getWordDiff.
    rewrite (nonEmpty_true H1), (nonEmpty_true H2), (nonEmpty_true Hn). simpl.
    f_equal. apply map_ext. intros w. unfold classify.
    destruct (blank w); [reflexivity|].
    assert (E : existsb (str_eqb w) (words (stripHtml old1))
                = existsb (str_eqb w) (words (stripHtml old2))).
    { destruct (existsb (str_eqb w) (words (stripHtml old1))) eqn:E1;
      destruct (existsb (str_eqb w) (words (stripHtml old2))) eqn:E2;
        try reflexivity.
      - apply existsb_In, Hsame, existsb_In in E1. congruence.
      - apply existsb_In, Hsame, existsb_In in E2. congruence. }
    now rewrite E.
Qed.

Lemma diff_by_membership_witness :
  (exists spans,
     getWordDiff (fun s => s) (lit "alpha beta") (lit "gamma beta alpha")
     = Spans spans
     /\ map snd spans = words (lit "gamma beta alpha")
     /\ forall c w, In (c, w) spans ->
          (c = Whitespace <-> blank w = true)
          /\ (c = Added <-> blank w = false /\ ~ In w (words (lit "alpha beta")))
          /\ (c = Unchanged <-> blank w = false /\ In w (words (lit "alpha beta"))))
  /\ getWordDiff (fun s => s) (lit "alpha beta") (lit "gamma beta alpha")
     = getWordDiff (fun s => s) (lit "beta alpha beta") (lit "gamma beta alpha").
Proof.
  pose proof (@diff_by_membership (fun s => s) (lit "gamma beta alpha")
                ltac:(discriminate)) as [Hspans Hsame].
  split.
  - apply (Hspans (lit "alpha beta")). discriminate.
  - apply (Hsame (lit "alpha beta") (lit "beta alpha beta")); try discriminate.
    intros w. vm_compute. tauto.
Defined.

(* ------------------------------------------------------------------ *)
(** ** The span taken for the payload, both ways *)

Lemma indexOf_split (c : N) (s : str) (f : nat) :
  indexOf c s = Some f ->
  exists pre rest, s = pre ++ c :: rest /\ List.length pre = f /\ ~ In c pre.
Proof.
  revert f. induction s as [|d s IH]; simpl; intros f; [discriminate|].
  destruct (N.eqb_spec d c) as [->|Hd].
  - intros H. inversion H; subst. exists [], s. repeat split. intros [].
  - destruct (indexOf c s) as [g|]; simpl; [|discriminate].
    intros H. inversion H; subst.
    destruct (IH g eq_refl) as (pre & rest & -> & Hl & Hn).
    exists (d :: pre), rest. simpl. repeat split; [congruence|].
    intros [E|E]; [congruence|auto].
Qed.

Lemma lastIndexOf_split (c : N) (s : str) (l : nat) :
  lastIndexOf c s = Some l ->
  exists pre post, s = pre ++ c :: post /\ List.length pre = l /\ ~ In c post.
Proof.
  revert l. induction s as [|d s IH]; simpl; intros l; [discriminate|].
  destruct (lastIndexOf c s) as [g|] eqn:E.
  - intros H. inversion H; subst.
    destruct (IH g eq_refl) as (pre & post & -> & Hl & Hn).
    exists (d :: pre), post. simpl. repeat split; [congruence|exact Hn].
  - destruct (N.eqb_spec d c) as [->|Hd]; [|discriminate].
    intros H. inversion H; subst. exists [], s. repeat split.
    intros Hin. clear IH. revert E Hin.
    induction s as [|x s IHs]; simpl; [intros _ []|].
    destruct (lastIndexOf c s); [discriminate|].
    destruct (N.eqb_spec x c) as [->|Hx]; [discriminate|].
    intros _ [Hc|Hc]; [congruence|]. now apply IHs.
Qed.

Lemma extractJsonArray_decompose (text span : str) :
  extractJsonArray text = Some span ->
  exists pre body post,
    text = pre ++ lbrack :: body ++ rbrack :: post
    /\ ~ In lbrack pre /\ ~ In rbrack post
    /\ span = lbrack :: body ++ [rbrack].
Proof.
  intros H. pose proof H as H0. unfold extractJsonArray in H.
  destruct (indexOf lbrack text) as [f|] eqn:Ef; [|discriminate].
  destruct (lastIndexOf rbrack text) as [l|] eqn:El; [|discriminate].
  destruct (f <? l)%nat eqn:Lt; [|discriminate]. apply Nat.ltb_lt in Lt.
  destruct (indexOf_split _ _ Ef) as (pre & rest & Hs & Hf & Hpre).
  destruct (lastIndexOf_split _ _ El) as (pre' & post & Hs' & Hl & Hpost).
  assert (Hb : exists body, rest = body ++ rbrack :: post).
  { assert (E : pre ++ lbrack :: rest = pre' ++ rbrack :: post) by congruence.
    apply app_eq_app in E as (l0 & [[E1 E2]|[E1 E2]]).
    - exfalso. apply (f_equal (@List.length N)) in E1.
      rewrite length_app in E1. lia.
    - destruct l0 as [|x l1].
      + exfalso. rewrite app_nil_r in E1. subst pre'. lia.
      + simpl in E2. inversion E2. now exists l1. }
  destruct Hb as (body & ->).
  exists pre, body, post. repeat split; try assumption.
  rewrite Hs in H0. rewrite extractJsonArray_span in H0 by assumption.
  congruence.
Qed.

(** [extractJsonArray] returns a span exactly when the text has an opening
    bracket before its last closing bracket, and the span then runs from
    the first opening bracket of the text to its last closing bracket. *)
Theorem extractJsonArray_exact (text span : str) :
  extractJsonArray text = Some span
  <-> exists pre body post,
        text = pre ++ lbrack :: body ++ rbrack :: post
        /\ ~ In lbrack pre /\ ~ In rbrack post
        /\ span = lbrack :: body ++ [rbrack].
Proof.
  split.
  - apply extractJsonArray_decompose.
  - intros (pre & body & post & -> & Hpre & Hpost & ->).
    now apply extractJsonArray_span.
Qed.

Lemma extractJsonArray_exact_witness :
  extractJsonArray (lit "see " ++ lbrack :: lit "1, [2]" ++ rbrack :: lit " end")
  = Some (lbrack :: lit "1, [2]" ++ [rbrack]).
Proof.
  apply (proj2 (extractJsonArray_exact
                  (lit "see " ++ lbrack :: lit "1, [2]" ++ rbrack :: lit " end")
                  (lbrack :: lit "1, [2]" ++ [rbrack]))).
  exists (lit "see "), (lit "1, [2]"), (lit " end").
  split; [reflexivity|]. split; [|split; [|reflexivity]].
  - vm_compute. intuition discriminate.
  - vm_compute. intuition discriminate.
Defined.

(* ------------------------------------------------------------------ *)
(** ** A response without the sentinel *)

Lemma split_from_pass (j : str) (pre : str) : forall cur s,
  j <> [] ->
  Forall (fun x => startsWith [x] j = false) pre ->
  split_from j O cur (pre ++ s) = split_from j O (rev pre ++ cur) s.
Proof.
  induction pre as [|x pre IH]; intros cur s Hj H; [reflexivity|].
  inversion H as [|? ? Hx Hpre]; subst. simpl app at 1. simpl split_from.
  rewrite (@startsWith_head x j (pre ++ s) Hj Hx). rewrite IH by assumption.
  simpl. now rewrite <- app_assoc.
Qed.

Lemma split_first_piece (j pre post : str) :
  j <> [] ->
  Forall (fun x => startsWith [x] j = false) pre ->
  nth 0 (split j (pre ++ j ++ post)) [] = pre.
Proof.
  intros Hj Hpre. rewrite (split_eq _ Hj), split_from_pass by assumption.
  pose proof (startsWith_prefix j post) as H.
  destruct (j ++ post) as [|c r] eqn:E; [destruct j; [congruence|discriminate]|].
  simpl split_from. rewrite H. simpl. rewrite app_nil_r. apply rev_involutive.
Qed.

Lemma without_sentinel_step (JSON_parse : str -> option json) :
  (forall pre body post,
     includes sentinel (pre ++ lbrack :: body ++ rbrack :: post) = false ->
     ~ In lbrack pre -> ~ In rbrack post ->
     parseStep JSON_parse (pre ++ lbrack :: body ++ rbrack :: post)
     = (stripLabel pre, tryParse JSON_parse (lbrack :: body ++ [rbrack])))
  /\ (forall fullResponse,
        includes sentinel fullResponse = false ->
        extractJsonArray fullResponse = None ->
        parseStep JSON_parse fullResponse = (trim fullResponse, JArr [])).
Proof.
  split.
  - intros pre body post Hinc Hpre Hpost. unfold parseStep.
    rewrite Hinc, extractJsonArray_span by assumption. simpl nonEmpty. cbv iota.
    f_equal. f_equal.
    replace (pre ++ lbrack :: body ++ rbrack :: post)
      with (pre ++ (lbrack :: body ++ [rbrack]) ++ post)
      by (simpl; now rewrite <- app_assoc).
    apply split_first_piece; [discriminate|].
    apply Forall_forall. intros x Hx. simpl.
    destruct (N.eqb_spec x lbrack); [subst; contradiction|reflexivity].
  - intros fullResponse Hinc Hnone. unfold parseStep.
    now rewrite Hinc, Hnone.
Qed.

(* ------------------------------------------------------------------ *)
(** ** When the post-processing throws, and what it returns *)

Lemma keeps_throws (v : json) (e : JsError) : keeps v = Throws e <-> v = JNull.
Proof.
  split.
  - intros H. destruct v; try reflexivity; try discriminate.
    unfold keeps in H. simpl in H.
    destruct (truthy (lookup (lit "title") fields)); [|discriminate].
    destruct (truthy (lookup (lit "originalSourceSentence") fields)); discriminate.
  - intros ->. now destruct e.
Qed.

Lemma filterO_outcome (items : list json) :
  (In JNull items /\ filterO keeps items = Throws TypeError)
  \/ (Forall (fun v => v <> JNull) items
      /\ filterO keeps items = Returns (filter keptRecord items)).
Proof.
  induction items as [|v items IH]; [right; split; [constructor|reflexivity]|].
  assert (Hv : v = JNull \/ v <> JNull)
    by (destruct v; (now left) || (right; discriminate)).
  destruct Hv as [->|Hv]; [left; split; [now left|reflexivity]|].
  simpl filterO. rewrite (keeps_keptRecord Hv). simpl.
  destruct IH as [[Hin Ht]|[Hall Hr]].
  - left. split; [now right|]. now rewrite Ht.
  - right. split; [now constructor|]. rewrite Hr. simpl.
    now destruct (keptRecord v).
Qed.

(** The post-processing throws exactly when the decoded payload is an
    array one of whose entries is [null]; in every other case it returns. *)
Theorem throws_on_null_entry (JSON_parse : str -> option json)
    (randomInt : nat -> Z) (k : nat) (input fullResponse : str) :
  processResponse JSON_parse randomInt k input fullResponse = Throws TypeError
  <-> exists items,
        snd (parseStep JSON_parse fullResponse) = JArr items /\ In JNull items.
Proof.
  unfold processResponse.
  destruct (parseStep JSON_parse fullResponse) as [citedText raw]. simpl.
  destruct raw as [| | | |items|]; simpl;
    try (split; [discriminate|intros (items & H & _); discriminate]).
  destruct (filterO_outcome items) as [[Hin Ht]|[Hall Hr]].
  - rewrite Ht. simpl. split; [intros _; now exists items|reflexivity].
  - rewrite Hr. simpl.
    assert (Hk : Forall (fun v => v <> JNull) (filter keptRecord items)).
    { apply Forall_forall. intros v Hv. apply filter_In in Hv as [Hv _].
      revert v Hv. now apply Forall_forall. }
    destruct (mapNormalize_normalizedAs randomInt k Hk) as (refs & k' & Hm & _).
    rewrite Hm. simpl. split; [discriminate|].
    intros (items' & E & Hin). inversion E; subst items'.
    destruct (proj1 (Forall_forall _ _) Hall JNull Hin eq_refl).
Qed.

Lemma throws_on_null_entry_witness :
  processResponse JsonText.parse (fun _ => 5%Z) 0 (lit "in")
    (lit "Drafts matter. " ++ sentinel ++ lit " [null] ")
  = Throws TypeError.
Proof.
  apply (proj2 (throws_on_null_entry JsonText.parse (fun _ => 5%Z) 0 (lit "in")
                  (lit "Drafts matter. " ++ sentinel ++ lit " [null] "))).
  exists [JNull]. split; [vm_compute; reflexivity|now left].
Defined.

Lemma normalizedAs_kept (randomInt : nat -> Z) (v w : json) :
  keptRecord v = true -> normalizedAs randomInt v w ->
  keptRecord w = true
  /\ exists fields, w = JObj fields
                    /\ lookup (lit "isSelected") fields = Some (JBool true).
Proof.
  intros Hk (fields & -> & Hsel & _ & Hrest).
  split; [|now exists fields].
  destruct v as [| | | | |vf]; try discriminate. simpl in *.
  now rewrite !Hrest by discriminate.
Qed.

Lemma mapNormalize_counter (randomInt : nat -> Z) (items : list json) :
  forall k refs k',
    mapNormalize randomInt k items = Returns (refs, k') ->
    List.length refs = List.length items
    /\ (k <= k' <= k + List.length items)%nat.
Proof.
  induction items as [|v items IH]; intros k refs k' H; simpl in H.
  - inversion H; subst. simpl. lia.
  - destruct (normalize randomInt k v) as [[w k1]|] eqn:En; [|discriminate].
    simpl in H.
    destruct (mapNormalize randomInt k1 items) as [[ws k2]|] eqn:Em;
      [|discriminate].
    simpl in H. inversion H; subst.
    destruct (IH _ _ _ Em) as [L Hk].
    assert (Hk1 : (k <= k1 <= S k)%nat).
    { unfold normalize in En.
      destruct (getProp v (lit "id")) as [i|]; [|discriminate]. simpl in En.
      destruct i as [x|]; [destruct (truthy (Some x))|]; inversion En; lia. }
    simpl. lia.
Qed.

(** Whenever the post-processing returns, the original text of the result
    is the input, its cited text is not empty, it has no grounding links,
    and each of its references is an object with a truthy title, source
    sentence and tag whose [isSelected] is [true]; the references are no
    more than the entries of the decoded payload, and [Math.random] has been
    called at most once per reference. *)
Theorem result_invariants (JSON_parse : str -> option json)
    (randomInt : nat -> Z) (k k' : nat) (input fullResponse : str)
    (r : CitationResult) :
  processResponse JSON_parse randomInt k input fullResponse = Returns (r, k') ->
  r_originalText r = input
  /\ r_citedText r <> []
  /\ r_groundingUrls r = []
  /\ Forall (fun w =>
               keptRecord w = true
               /\ exists fields,
                    w = JObj fields
                    /\ lookup (lit "isSelected") fields = Some (JBool true))
       (r_references r)
  /\ (forall items, snd (parseStep JSON_parse fullResponse) = JArr items ->
        (List.length (r_references r) <= List.length items)%nat)
  /\ (k <= k' <= k + List.length (r_references r))%nat.
Proof.
  unfold processResponse.
  destruct (parseStep JSON_parse fullResponse) as [citedText raw]. simpl.
  assert (Htext : (if nonEmpty citedText then citedText else fallbackText) <> [])
    by (destruct citedText; discriminate).
  destruct raw as [| | | |items|]; simpl;
    try (intros H; inversion H; subst; simpl;
         repeat split; try assumption; try constructor; try lia;
         intros items; discriminate).
  destruct (filterO_outcome items) as [[Hin Ht]|[Hall Hr]];
    [rewrite Ht; discriminate|].
  rewrite Hr. simpl.
  assert (Hk : Forall (fun v => v <> JNull) (filter keptRecord items)).
  { apply Forall_forall. intros v Hv. apply filter_In in Hv as [Hv _].
    revert v Hv. now apply Forall_forall. }
  destruct (mapNormalize_normalizedAs randomInt k Hk) as (refs & k2 & Hm & Hn).
  rewrite Hm. simpl. intros H. inversion H; subst. simpl.
  destruct (mapNormalize_counter _ _ _ Hm) as [L Hc].
  repeat split; try assumption; try lia.
  - assert (Hf : Forall (fun v => keptRecord v = true) (filter keptRecord items))
      by (apply Forall_forall; intros v Hv; now apply filter_In in Hv).
    clear - Hn Hf. induction Hn as [|v w vs ws Hvw _ IH]; constructor.
    + inversion Hf; subst. eapply normalizedAs_kept; eassumption.
    + inversion Hf; subst. now apply IH.
  - intros items' E. inversion E; subst items'. rewrite L.
    apply filter_length_le.
Qed.

Lemma result_invariants_witness :
  exists r k',
    processResponse JsonText.parse (fun _ => 5%Z) 0 (lit "in") Examples.plainResponse
    = Returns (r, k')
    /\ r_originalText r = lit "in" /\ r_citedText r <> []
    /\ List.length (r_references r) = 1%nat.
Proof.
  destruct (processResponse JsonText.parse (fun _ => 5%Z) 0 (lit "in")
              Examples.plainResponse) as [[r k']|e] eqn:E.
  - exists r, k'. split; [reflexivity|].
    destruct (@result_invariants JsonText.parse (fun _ => 5%Z) 0 k' (lit "in")
                Examples.plainResponse r E) as (H1 & H2 & _).
    split; [exact H1|]. split; [exact H2|].
    vm_compute in E. inversion E. reflexivity.
  - vm_compute in E. discriminate E.
Defined.

(* ------------------------------------------------------------------ *)
(** ** Paragraphs of an uploaded document *)

Lemma spaces_app (ws r : str) :
  forallb isWhiteSpace ws = true ->
  spaces (ws ++ r) = (List.length ws + spaces r)%nat.
Proof.
  induction ws as [|c ws IH]; simpl; [reflexivity|].
  intros H. apply andb_prop in H as [Hc Hws]. rewrite Hc, (IH Hws). reflexivity.
Qed.

Lemma lastIndexOf_none (c : N) (s : str) :
  Service.lastIndexOf c s = None -> ~ In c s.
Proof.
  induction s as [|d s IH]; simpl; [intros _ []|].
  destruct (Service.lastIndexOf c s); [discriminate|].
  destruct (N.eqb_spec d c) as [->|Hd]; [discriminate|].
  intros _ [H|H]; [now apply Hd|now apply IH].
Qed.

Lemma blankLine_complete (ws rest : str) :
  forallb isWhiteSpace ws = true ->
  App.blankLine (10%N :: ws ++ 10%N :: rest) <> None.
Proof.
  intros Hws. unfold App.blankLine. simpl N.eqb. cbv iota.
  rewrite (@spaces_app ws _ Hws). simpl spaces.
  replace (isWhiteSpace 10) with true by reflexivity.
  rewrite firstn_app_2. simpl firstn.
  destruct (Service.lastIndexOf 10%N (ws ++ 10%N :: firstn (spaces rest) rest))
    eqn:E; [discriminate|].
  exfalso. apply (lastIndexOf_none _ _ E). apply in_elt.
Qed.

Lemma blankLine_pos (s : str) (n : nat) :
  App.blankLine s = Some n -> (2 <= n)%nat.
Proof.
  destruct s as [|c r]; simpl; [discriminate|].
  destruct (N.eqb c 10); [|discriminate].
  destruct (Service.lastIndexOf 10%N (firstn (spaces r) r)); [|discriminate].
  intros H. inversion H. lia.
Qed.

Lemma pieces_no_blank (s : str) : forall skip cur,
  skip = O \/ cur = [] ->
  (forall pre x, rev cur = pre ++ x -> x <> [] -> App.blankLine (x ++ s) = None) ->
  forall p, In p (App.splitBy_from App.blankLine skip cur s) ->
            ~ App.holdsBlankLine p.
Proof.
  induction s as [|c s IH]; intros skip cur Hskip Hinv p Hp.
  - simpl in Hp. destruct Hp as [<-|[]].
    intros (pre & ws & post & Hws & E).
    specialize (Hinv pre (10%N :: ws ++ 10%N :: post) E).
    rewrite app_nil_r in Hinv.
    apply (@blankLine_complete ws post Hws). apply Hinv. discriminate.
  - cbn [App.splitBy_from] in Hp. destruct skip as [|k].
    + destruct (App.blankLine (c :: s)) as [[|n]|] eqn:E.
      * apply blankLine_pos in E. lia.
      * destruct Hp as [<-|Hp].
        -- intros (pre & ws & post & Hws & E').
           specialize (Hinv pre (10%N :: ws ++ 10%N :: post) E').
           apply (@blankLine_complete ws (post ++ c :: s) Hws).
           replace (10%N :: ws ++ 10%N :: post ++ c :: s)
             with ((10%N :: ws ++ 10%N :: post) ++ c :: s)
             by (simpl; now rewrite <- app_assoc).
           apply Hinv. discriminate.
        -- apply (IH n []); [now right| |exact Hp].
           intros pre x Hx Hne. simpl in Hx.
           destruct pre; destruct x; try discriminate. now elim Hne.
      * apply (IH O (c :: cur)); [now left| |exact Hp].
        intros pre x Hx Hne.
        destruct (exists_last Hne) as (x' & l & ->).
        simpl in Hx. rewrite app_assoc in Hx.
        apply app_inj_tail in Hx as [Hx <-].
        rewrite <- app_assoc. simpl.
        destruct x' as [|y x'']; [exact E|].
        apply (Hinv pre); [exact Hx|discriminate].
    + destruct Hskip as [Hk| ->]; [discriminate|].
      apply (IH k []); [now right| |exact Hp].
      intros pre x Hx Hne. simpl in Hx.
      destruct pre; destruct x; try discriminate. now elim Hne.
Qed.

Lemma pieces_substring (m : str -> option nat) (s : str) : forall skip cur,
  skip = O \/ cur = [] ->
  forall p, In p (App.splitBy_from m skip cur s) ->
            exists a b, rev cur ++ s = a ++ p ++ b.
Proof.
  induction s as [|c s IH]; intros skip cur Hskip p Hp.
  - simpl in Hp. destruct Hp as [<-|[]]. exists [], []. now rewrite app_nil_r.
  - cbn [App.splitBy_from] in Hp. destruct skip as [|k].
    + destruct (m (c :: s)) as [[|n]|] eqn:E.
      * destruct (IH O (c :: cur) (or_introl eq_refl) p Hp) as (a & b & H).
        exists a, b. rewrite <- H. simpl. now rewrite <- app_assoc.
      * destruct Hp as [<-|Hp]; [exists [], (c :: s); reflexivity|].
        destruct (IH n [] (or_intror eq_refl) p Hp) as (a & b & H).
        simpl in H. exists (rev cur ++ c :: a), b. rewrite H.
        now rewrite <- app_assoc.
      * destruct (IH O (c :: cur) (or_introl eq_refl) p Hp) as (a & b & H).
        exists a, b. rewrite <- H. simpl. now rewrite <- app_assoc.
    + destruct Hskip as [Hk| ->]; [discriminate|].
      destruct (IH k [] (or_intror eq_refl) p Hp) as (a & b & H).
      simpl in H. exists (c :: a), b. simpl. now rewrite H.
Qed.

Lemma dropSpaces_suffix (s : str) : exists a, s = a ++ dropSpaces s.
Proof.
  induction s as [|c s [a IH]]; [now exists []|]. simpl.
  destruct (isWhiteSpace c); [|now exists []].
  exists (c :: a). simpl. now rewrite <- IH.
Qed.

Lemma trim_slice (s : str) : exists a b, s = a ++ trim s ++ b.
Proof.
  destruct (dropSpaces_suffix s) as [a Ha].
  destruct (dropSpaces_suffix (rev (dropSpaces s))) as [b Hb].
  exists a, (rev b). unfold trim. rewrite <- rev_app_distr, <- Hb, rev_involutive.
  exact Ha.
Qed.

(** Every paragraph [processFile] keeps is a slice of the document text,
    has no whitespace at either end, is longer than 40 characters and holds
    no blank line. *)
Theorem paragraphs_clean (fullText p : str) :
  In p (App.paragraphsOf fullText) ->
  (exists a b, fullText = a ++ p ++ b)
  /\ trim p = p
  /\ (40 < List.length p)%nat
  /\ ~ App.holdsBlankLine p.
Proof.
  unfold App.paragraphsOf. intros H.
  apply filter_In in H as [H Hlen]. apply in_map_iff in H as (q & <- & Hq).
  destruct (trim_slice q) as (a & b & Hslice).
  split; [|split; [apply trim_idempotent|split; [now apply Nat.ltb_lt|]]].
  - destruct (@pieces_substring App.blankLine fullText O [] (or_introl eq_refl) q Hq)
      as (a' & b' & H').
    simpl in H'. exists (a' ++ a), (b ++ b'). rewrite H'.
    rewrite Hslice at 1. now rewrite <- !app_assoc.
  - intros (pre & ws & post & Hws & E).
    apply (@pieces_no_blank fullText O [] (or_introl eq_refl)) with (p := q);
      [|exact Hq|].
    + intros pre' x Hx Hne. simpl in Hx.
      destruct pre'; destruct x; try discriminate. now elim Hne.
    + exists (a ++ pre), ws, (post ++ b). split; [exact Hws|].
      rewrite Hslice at 1. rewrite E. rewrite <- !app_assoc. simpl.
      now rewrite <- !app_assoc.
Qed.

Lemma paragraphs_clean_witness :
  let p := lit "A paragraph that is long enough to be kept as one." in
  let fullText := lit "  " ++ p ++ [10; 32; 10]%N ++ lit "short" in
  In p (App.paragraphsOf fullText)
  /\ trim p = p /\ (40 < List.length p)%nat /\ ~ App.holdsBlankLine p.
Proof.
  assert (H : In (lit "A paragraph that is long enough to be kept as one.")
                (App.paragraphsOf
                   (lit "  " ++ lit "A paragraph that is long enough to be kept as one."
                    ++ [10; 32; 10]%N ++ lit "short")))
    by (vm_compute; left; reflexivity).
  split; [exact H|].
  exact (proj2 (paragraphs_clean _ _ H)).
Defined.

(* ------------------------------------------------------------------ *)
(** ** What the bibliographic exports hold *)

Lemma line_split (a b x y : str) :
  Bibliography.lineFree a = true -> Bibliography.lineFree b = true ->
  a ++ 10%N :: x = b ++ 10%N :: y -> a = b /\ x = y.
Proof.
  revert b. induction a as [|c a IH]; intros [|d b] Ha Hb E; simpl in *.
  - inversion E. now split.
  - inversion E; subst d. now rewrite N.eqb_refl in Hb.
  - inversion E; subst c. now rewrite N.eqb_refl in Ha.
  - apply andb_prop in Ha as [_ Ha]. apply andb_prop in Hb as [_ Hb].
    inversion E; subst d. destruct (IH b Ha Hb H1) as [-> ->]. now split.
Qed.

Lemma field_split (label a b x y : str) :
  Bibliography.lineFree a = true -> Bibliography.lineFree b = true ->
  label ++ a ++ Bibliography.nl ++ x = label ++ b ++ Bibliography.nl ++ y ->
  a = b /\ x = y.
Proof.
  intros Ha Hb E. apply app_inv_head in E. now apply line_split.
Qed.

Lemma enwStep_shape (acc : str) (ref : Reference) :
  Bibliography.enwStep acc ref
  = acc ++ lit "%0 Journal Article" ++ Bibliography.nl
    ++ lit "%T " ++ title ref ++ Bibliography.nl
    ++ lit "%A " ++ authors ref ++ Bibliography.nl
    ++ lit "%D " ++ year ref ++ Bibliography.nl
    ++ lit "%J " ++ journal ref ++ Bibliography.nl
    ++ lit "%U " ++ url ref ++ Bibliography.nl ++ Bibliography.nl.
Proof. unfold Bibliography.enwStep. now rewrite <- !app_assoc. Qed.

Lemma risStep_shape (acc : str) (ref : Reference) :
  Bibliography.risStep acc ref
  = acc ++ lit "TY  - JOUR" ++ Bibliography.nl
    ++ lit "TI  - " ++ title ref ++ Bibliography.nl
    ++ lit "AU  - " ++ authors ref ++ Bibliography.nl
    ++ lit "PY  - " ++ year ref ++ Bibliography.nl
    ++ lit "JO  - " ++ journal ref ++ Bibliography.nl
    ++ lit "UR  - " ++ url ref ++ Bibliography.nl
    ++ lit "ER  - " ++ Bibliography.nl ++ Bibliography.nl.
Proof. unfold Bibliography.risStep. now rewrite <- !app_assoc. Qed.

Lemma fold_step_concat (step : str -> Reference -> str) (refs : list Reference) :
  (forall acc ref, step acc ref = acc ++ step [] ref) ->
  forall acc, fold_left step refs acc = acc ++ List.concat (map (step []) refs).
Proof.
  intros Hstep. induction refs as [|r refs IH]; intros acc; simpl.
  - now rewrite app_nil_r.
  - rewrite IH, (Hstep acc r). now rewrite <- app_assoc.
Qed.

Lemma enwStep_acc (acc : str) (ref : Reference) :
  Bibliography.enwStep acc ref = acc ++ Bibliography.enwStep [] ref.
Proof. now rewrite !enwStep_shape. Qed.

Lemma risStep_acc (acc : str) (ref : Reference) :
  Bibliography.risStep acc ref = acc ++ Bibliography.risStep [] ref.
Proof. now rewrite !risStep_shape. Qed.

Lemma fieldsLineFree_fields (ref : Reference) :
  Bibliography.fieldsLineFree ref = true ->
  Bibliography.lineFree (title ref) = true
  /\ Bibliography.lineFree (authors ref) = true
  /\ Bibliography.lineFree (year ref) = true
  /\ Bibliography.lineFree (journal ref) = true
  /\ Bibliography.lineFree (url ref) = true.
Proof.
  unfold Bibliography.fieldsLineFree, Bibliography.bibFields. simpl.
  rewrite !andb_true_iff. tauto.
Qed.

Lemma enw_record_split (r1 r2 : Reference) (x y : str) :
  Bibliography.fieldsLineFree r1 = true -> Bibliography.fieldsLineFree r2 = true ->
  Bibliography.enwStep [] r1 ++ x = Bibliography.enwStep [] r2 ++ y ->
  Bibliography.bibFields r1 = Bibliography.bibFields r2 /\ x = y.
Proof.
  intros H1 H2 E.
  apply fieldsLineFree_fields in H1 as (T1 & A1 & Y1 & J1 & U1).
  apply fieldsLineFree_fields in H2 as (T2 & A2 & Y2 & J2 & U2).
  rewrite !enwStep_shape, !app_nil_l in E.
  rewrite <- !app_assoc in E. apply app_inv_head in E. apply app_inv_head in E.
  apply (@field_split _ _ _ _ _ T1 T2) in E as [Et E].
  apply (@field_split _ _ _ _ _ A1 A2) in E as [Ea E].
  apply (@field_split _ _ _ _ _ Y1 Y2) in E as [Ey E].
  apply (@field_split _ _ _ _ _ J1 J2) in E as [Ej E].
  apply (@field_split _ _ _ _ _ U1 U2) in E as [Eu E].
  apply app_inv_head in E.
  unfold Bibliography.bibFields. now rewrite Et, Ea, Ey, Ej, Eu.
Qed.

Lemma ris_record_split (r1 r2 : Reference) (x y : str) :
  Bibliography.fieldsLineFree r1 = true -> Bibliography.fieldsLineFree r2 = true ->
  Bibliography.risStep [] r1 ++ x = Bibliography.risStep [] r2 ++ y ->
  Bibliography.bibFields r1 = Bibliography.bibFields r2 /\ x = y.
Proof.
  intros H1 H2 E.
  apply fieldsLineFree_fields in H1 as (T1 & A1 & Y1 & J1 & U1).
  apply fieldsLineFree_fields in H2 as (T2 & A2 & Y2 & J2 & U2).
  rewrite !risStep_shape, !app_nil_l in E.
  rewrite <- !app_assoc in E. apply app_inv_head in E. apply app_inv_head in E.
  apply (@field_split _ _ _ _ _ T1 T2) in E as [Et E].
  apply (@field_split _ _ _ _ _ A1 A2) in E as [Ea E].
  apply (@field_split _ _ _ _ _ Y1 Y2) in E as [Ey E].
  apply (@field_split _ _ _ _ _ J1 J2) in E as [Ej E].
  apply (@field_split _ _ _ _ _ U1 U2) in E as [Eu E].
  apply app_inv_head in E. apply app_inv_head in E. apply app_inv_head in E.
  unfold Bibliography.bibFields. now rewrite Et, Ea, Ey, Ej, Eu.
Qed.

Lemma records_faithful (step : str -> Reference -> str) :
  (forall r, step [] r <> []) ->
  (forall r1 r2 x y,
      Bibliography.fieldsLineFree r1 = true ->
      Bibliography.fieldsLineFree r2 = true ->
      step [] r1 ++ x = step [] r2 ++ y ->
      Bibliography.bibFields r1 = Bibliography.bibFields r2 /\ x = y) ->
  forall refs1 refs2,
    forallb Bibliography.fieldsLineFree refs1 = true ->
    forallb Bibliography.fieldsLineFree refs2 = true ->
    List.concat (map (step []) refs1) = List.concat (map (step []) refs2) ->
    map Bibliography.bibFields refs1 = map Bibliography.bibFields refs2.
Proof.
  intros Hne Hsplit.
  induction refs1 as [|r1 refs1 IH]; intros [|r2 refs2] H1 H2 E; simpl in *.
  - reflexivity.
  - symmetry in E. apply app_eq_nil in E as [E _]. now apply Hne in E.
  - apply app_eq_nil in E as [E _]. now apply Hne in E.
  - apply andb_prop in H1 as [F1 H1]. apply andb_prop in H2 as [F2 H2].
    destruct (Hsplit _ _ _ _ F1 F2 E) as [Ef Er].
    now rewrite Ef, (IH refs2 H1 H2 Er).
Qed.

Lemma fields_determine (step : str -> Reference -> str) :
  (forall r1 r2, Bibliography.bibFields r1 = Bibliography.bibFields r2 ->
                 step [] r1 = step [] r2) ->
  forall refs1 refs2,
    map Bibliography.bibFields refs1 = map Bibliography.bibFields refs2 ->
    List.concat (map (step []) refs1) = List.concat (map (step []) refs2).
Proof.
  intros Hstep.
  induction refs1 as [|r1 refs1 IH]; intros [|r2 refs2] E; simpl in *;
    try discriminate; [reflexivity|].
  inversion E as [[Et Ea Ey Ej Eu Er]].
  rewrite (IH refs2 Er). f_equal. apply Hstep.
  unfold Bibliography.bibFields. now rewrite Et, Ea, Ey, Ej, Eu.
Qed.

(** Two lists of references give the same EndNote export exactly when
    they agree, reference by reference, on title, authors, year, journal and
    link, provided none of these fields holds a line feed: the export
    depends on nothing else, and loses none of the five fields. *)
Theorem enw_faithful (refs1 refs2 : list Reference) :
  forallb Bibliography.fieldsLineFree refs1 = true ->
  forallb Bibliography.fieldsLineFree refs2 = true ->
  (Bibliography.generateENW refs1 = Bibliography.generateENW refs2
   <-> map Bibliography.bibFields refs1 = map Bibliography.bibFields refs2).
Proof.
  intros H1 H2. unfold Bibliography.generateENW.
  rewrite !(fold_step_concat _ _ enwStep_acc). simpl. split.
  - apply (@records_faithful Bibliography.enwStep); try assumption.
    + intros r E. rewrite enwStep_shape in E. discriminate E.
    + apply enw_record_split.
  - apply (@fields_determine Bibliography.enwStep).
    intros r1 r2 E. unfold Bibliography.bibFields in E.
    inversion E as [[Et Ea Ey Ej Eu]].
    rewrite !enwStep_shape. now rewrite Et, Ea, Ey, Ej, Eu.
Qed.

Lemma enw_faithful_witness :
  Bibliography.generateENW [Examples.ref1; Examples.ref2]
  = Bibliography.generateENW
      [flipSelected Examples.ref1; flipSelected Examples.ref2].
Proof.
  apply (proj2 (@enw_faithful [Examples.ref1; Examples.ref2]
                  [flipSelected Examples.ref1; flipSelected Examples.ref2]
                  eq_refl eq_refl)).
  reflexivity.
Defined.

(** The same for the RIS export. *)
Theorem ris_faithful (refs1 refs2 : list Reference) :
  forallb Bibliography.fieldsLineFree refs1 = true ->
  forallb Bibliography.fieldsLineFree refs2 = true ->
  (Bibliography.generateRIS refs1 = Bibliography.generateRIS refs2
   <-> map Bibliography.bibFields refs1 = map Bibliography.bibFields refs2).
Proof.
  intros H1 H2. unfold Bibliography.generateRIS.
  rewrite !(fold_step_concat _ _ risStep_acc). simpl. split.
  - apply (@records_faithful Bibliography.risStep); try assumption.
    + intros r E. rewrite risStep_shape in E. discriminate E.
    + apply ris_record_split.
  - apply (@fields_determine Bibliography.risStep).
    intros r1 r2 E. unfold Bibliography.bibFields in E.
    inversion E as [[Et Ea Ey Ej Eu]].
    rewrite !risStep_shape. now rewrite Et, Ea, Ey, Ej, Eu.
Qed.

Lemma ris_faithful_witness :
  Bibliography.generateRIS [Examples.ref1; Examples.ref2]
  = Bibliography.generateRIS
      [flipSelected Examples.ref1; flipSelected Examples.ref2].
Proof.
  apply (proj2 (@ris_faithful [Examples.ref1; Examples.ref2]
                  [flipSelected Examples.ref1; flipSelected Examples.ref2]
                  eq_refl eq_refl)).
  reflexivity.
Defined.

(* ------------------------------------------------------------------ *)
(** ** The label in front of the narrative *)

Lemma replaceFirst_no_match (m : matcher) (s : str) :
  anyMatch m s = false -> replaceFirst m s = s.
Proof.
  induction s as [|c s IH]; [reflexivity|]. simpl.
  destruct (m (c :: s)); [discriminate|]. intros H. now rewrite (IH H).
Qed.

Lemma startsWithCI_app (a s x : str) :
  Service.startsWithCI a s = true -> Service.startsWithCI a (s ++ x) = true.
Proof.
  revert s. induction a as [|c a IH]; intros [|d s]; simpl; try easy.
  intros H. apply andb_prop in H as [-> H]. now rewrite (IH _ H).
Qed.

Lemma colonSpaces_app (seps rest : str) :
  Service.colonSpaces seps = List.length seps ->
  Service.colonSpaces (seps ++ rest)
  = (List.length seps + Service.colonSpaces rest)%nat.
Proof.
  induction seps as [|c seps IH];
    cbn [Service.colonSpaces List.length app Nat.add]; [reflexivity|].
  destruct ((c =? ch ":")%N || isWhiteSpace c); [|discriminate].
  intros H. apply eq_add_S in H. now rewrite (IH H).
Qed.

Lemma skipn_length_app (A : Type) (a b : list A) (n : nat) :
  List.length a = n -> skipn n (a ++ b) = b.
Proof. intros <-. now rewrite skipn_app, skipn_all, Nat.sub_diag. Qed.

(** A text without the words [cited text], in any letter case, is only
    trimmed.  When the text starts with them, the words and every colon and
    whitespace character that follows them are removed, whatever their
    letter case, before the rest is trimmed. *)
Theorem stripLabel_cases :
  (forall s, anyMatch Service.citedTextLabel s = false ->
             Service.stripLabel s = trim s)
  /\ (forall label seps rest,
        List.length label = 10%nat ->
        Service.startsWithCI (lit "cited text") label = true ->
        Service.colonSpaces seps = List.length seps ->
        Service.colonSpaces rest = O ->
        Service.stripLabel (label ++ seps ++ rest) = trim rest).
Proof.
  split.
  - intros s H. unfold Service.stripLabel. now rewrite replaceFirst_no_match by exact H.
  - intros label seps rest Hlen Hci Hseps Hrest. unfold Service.stripLabel.
    f_equal.
    destruct label as [|c label]; [discriminate|].
    cbn [app replaceFirst]. unfold Service.citedTextLabel at 1.
    change (c :: label ++ seps ++ rest) with ((c :: label) ++ seps ++ rest).
    rewrite startsWithCI_app by exact Hci.
    rewrite (@skipn_length_app _ (c :: label) (seps ++ rest) 10 Hlen).
    rewrite colonSpaces_app by exact Hseps. rewrite Hrest.
    rewrite Nat.add_0_r, app_nil_l, app_assoc.
    apply skipn_length_app. rewrite length_app. now rewrite Hlen.
Qed.

Lemma stripLabel_cases_witness :
  Service.stripLabel (lit "CITED Text" ++ lit " :: " ++ lit "Drafts matter. ")
  = trim (lit "Drafts matter. ")
  /\ Service.stripLabel (lit " no label here ") = trim (lit " no label here ").
Proof.
  split.
  - apply (proj2 stripLabel_cases); reflexivity.
  - apply (proj1 stripLabel_cases). reflexivity.
Defined.

(* ------------------------------------------------------------------ *)
(** ** Editing the narrative of a session (earlier App.tsx) *)

(** [updateCitedText] keeps the order and the timestamps of the history;
    afterwards every session with the given timestamp (not only the first
    one) holds the new text; a history without that timestamp is unchanged;
    of two edits of the same timestamp the last one wins, and edits of
    different timestamps commute. *)
Theorem updateCitedText_laws (t u : Z) (a b : str) (h : list SavedCitation) :
  map timestamp (EarlierApp.updateCitedText t a h) = map timestamp h
  /\ map references (EarlierApp.updateCitedText t a h) = map references h
  /\ (forall s, In s (EarlierApp.updateCitedText t a h) ->
                timestamp s = t -> citedText s = a)
  /\ (~ In t (map timestamp h) -> EarlierApp.updateCitedText t a h = h)
  /\ EarlierApp.updateCitedText t b (EarlierApp.updateCitedText t a h)
     = EarlierApp.updateCitedText t b h
  /\ (t <> u ->
      EarlierApp.updateCitedText t a (EarlierApp.updateCitedText u b h)
      = EarlierApp.updateCitedText u b (EarlierApp.updateCitedText t a h)).
Proof.
  unfold EarlierApp.updateCitedText. repeat split.
  - rewrite map_map. apply map_ext. intros c.
    now destruct (Z.eqb (timestamp c) t).
  - rewrite map_map. apply map_ext. intros c.
    now destruct (Z.eqb (timestamp c) t).
  - intros s Hin Hs. apply in_map_iff in Hin as (c & <- & _).
    destruct (Z.eqb_spec (timestamp c) t) as [E|E]; [reflexivity|].
    now elim E.
  - intros Hnot. rewrite <- (map_id h) at 2. apply map_ext_in. intros c Hc.
    destruct (Z.eqb_spec (timestamp c) t) as [E|E]; [|reflexivity].
    elim Hnot. rewrite <- E. now apply in_map.
  - rewrite map_map. apply map_ext. intros c.
    destruct (Z.eqb_spec (timestamp c) t) as [E|E]; simpl.
    + now rewrite E, Z.eqb_refl.
    + now destruct (Z.eqb_spec (timestamp c) t).
  - intros Htu. rewrite !map_map. apply map_ext. intros c.
    destruct (Z.eqb_spec (timestamp c) u) as [Eu|Eu];
      destruct (Z.eqb_spec (timestamp c) t) as [Et|Et]; simpl.
    + elim Htu. now rewrite <- Et, <- Eu.
    + destruct (Z.eqb_spec (timestamp c) t); [contradiction|].
      destruct (Z.eqb_spec (timestamp c) u); [reflexivity|contradiction].
    + destruct (Z.eqb_spec (timestamp c) t); [|contradiction].
      destruct (Z.eqb_spec (timestamp c) u); [contradiction|reflexivity].
    + destruct (Z.eqb_spec (timestamp c) t); [contradiction|].
      destruct (Z.eqb_spec (timestamp c) u); [contradiction|reflexivity].
Qed.

Lemma updateCitedText_laws_witness :
  EarlierApp.updateCitedText 5 (lit "edited") Examples.sessions0
  = Examples.sessions0.
Proof.
  apply (proj1 (proj2 (proj2 (proj2
           (updateCitedText_laws 5 0 (lit "edited") [] Examples.sessions0))))).
  simpl. intros [H|[H|[]]]; discriminate H.
Defined.

(* ------------------------------------------------------------------ *)
(** ** The year box (earlier App.tsx and service) *)

Lemma filter_all (A : Type) (f : A -> bool) (l : list A) :
  forallb f l = true -> filter f l = l.
Proof.
  induction l as [|x l IH]; simpl; [reflexivity|].
  intros H. apply andb_prop in H as [-> H]. now rewrite (IH H).
Qed.

Lemma forallb_firstn (A : Type) (f : A -> bool) (n : nat) (l : list A) :
  forallb f l = true -> forallb f (firstn n l) = true.
Proof.
  revert n. induction l as [|x l IH]; intros [|n]; simpl; try reflexivity.
  intros H. apply andb_prop in H as [-> H]. now rewrite (IH n H).
Qed.

Lemma forallb_filter (A : Type) (f : A -> bool) (l : list A) :
  forallb f (filter f l) = true.
Proof.
  induction l as [|x l IH]; simpl; [reflexivity|].
  destruct (f x) eqn:E; simpl; [now rewrite E|exact IH].
Qed.

(** Whatever is typed into the year box, the value kept is made of at
    most four decimal digits and typing it again changes nothing; the
    service then reads the request as a custom year exactly when four digits
    or more were typed, or when the selected range is itself four digits. *)
Theorem year_box (value selectedYear : str) :
  let customYear := EarlierApp.typedYear value in
  (List.length customYear <= 4)%nat
  /\ forallb EarlierApp.isDigit customYear = true
  /\ EarlierApp.typedYear customYear = customYear
  /\ EarlierApp.isCustomYear (EarlierApp.finalYear customYear selectedYear)
     = (4 <=? List.length (filter EarlierApp.isDigit value))%nat
       || EarlierApp.isCustomYear selectedYear.
Proof.
  unfold EarlierApp.typedYear. cbv zeta.
  assert (Hd : forallb EarlierApp.isDigit
                 (firstn 4 (filter EarlierApp.isDigit value)) = true)
    by (apply forallb_firstn, forallb_filter).
  repeat split.
  - apply firstn_le_length.
  - exact Hd.
  - rewrite (filter_all _ _ Hd). apply firstn_all2. apply firstn_le_length.
  - unfold EarlierApp.finalYear. rewrite length_firstn.
    destruct (Nat.leb_spec 4 (List.length (filter EarlierApp.isDigit value)))
      as [Hge|Hlt].
    + rewrite Nat.min_l by exact Hge. simpl Nat.eqb. cbv iota.
      unfold EarlierApp.isCustomYear. rewrite Hd, length_firstn.
      rewrite Nat.min_l by exact Hge. reflexivity.
    + destruct (Nat.eqb_spec
                  (Nat.min 4 (List.length (filter EarlierApp.isDigit value))) 4)
        as [E|E]; [lia|reflexivity].
Qed.

(* ------------------------------------------------------------------ *)
(** ** The display and the export of a result card share one selection *)

Lemma activeTags_selected (refs : list Reference) :
  activeTags (App.activeReferences refs) = [].
Proof.
  unfold activeTags, App.activeReferences.
  induction refs as [|r refs IH]; [reflexivity|]. simpl.
  destruct (truthyFlag (isSelected r)) eqn:E; [|exact IH].
  simpl. rewrite IH. unfold activeTag. now rewrite E.
Qed.

Lemma activeTags_unselected (refs : list Reference) :
  activeTags (filter (fun r => negb (truthyFlag (isSelected r))) refs)
  = activeTags refs.
Proof.
  unfold activeTags.
  induction refs as [|r refs IH]; [reflexivity|]. simpl.
  destruct (truthyFlag (isSelected r)) eqn:E; simpl.
  - rewrite IH. unfold activeTag. now rewrite E.
  - now rewrite IH.
Qed.

(** A result card shows the text and exports the references from one
    selection: the references that go into the [.enw] file remove nothing
    from the text, the text shown is decided by the other references alone,
    and every reference is on exactly one of the two sides. *)
Theorem card_selection (res : SavedCitation) :
  let exported := App.activeReferences (references res) in
  let others :=
    filter (fun r => negb (truthyFlag (isSelected r))) (references res) in
  getFilteredCitedText (citedText res) exported = cleanup (citedText res)
  /\ rendered res = getFilteredCitedText (citedText res) others
  /\ (forall r, In r (references res) ->
                (In r exported /\ ~ In r others /\ activeTag r = None)
                \/ (In r others /\ ~ In r exported))
  /\ App.content (App.exportEnw res) = Bibliography.generateENW exported.
Proof.
  cbv zeta. unfold rendered, getFilteredCitedText. repeat split.
  - now rewrite removeTags_activeTags, activeTags_selected.
  - now rewrite !removeTags_activeTags, activeTags_unselected.
  - intros r Hr. unfold App.activeReferences.
    destruct (truthyFlag (isSelected r)) eqn:E; [left|right]; repeat split.
    + apply filter_In. now split.
    + intros H. apply filter_In in H as [_ H]. now rewrite E in H.
    + unfold activeTag. now rewrite E.
    + apply filter_In. split; [exact Hr|now rewrite E].
    + intros H. apply filter_In in H as [_ H]. now rewrite E in H.
Qed.

Lemma card_selection_witness :
  let res := mkSavedCitation (lit "draft") (lit "Draft [1] [2].")
               [tagRef 1 (Some (lit "[1]")) (Some true);
                tagRef 2 (Some (lit "[2]")) None] [] 100 in
  let r := tagRef 2 (Some (lit "[2]")) None in
  (In r (App.activeReferences (references res))
   /\ ~ In r (filter (fun r => negb (truthyFlag (isSelected r))) (references res))
   /\ activeTag r = None)
  \/ (In r (filter (fun r => negb (truthyFlag (isSelected r))) (references res))
      /\ ~ In r (App.activeReferences (references res))).
Proof.
  cbv zeta.
  apply (proj1 (proj2 (proj2
           (card_selection
              (mkSavedCitation (lit "draft") (lit "Draft [1] [2].")
                 [tagRef 1 (Some (lit "[1]")) (Some true);
                  tagRef 2 (Some (lit "[2]")) None] [] 100))))).
  simpl. right. left. reflexivity.
Defined.

(* ------------------------------------------------------------------ *)
(** ** The earlier service and the current one *)

Lemma extractJsonArray_nonEmpty (text span : str) :
  extractJsonArray text = Some span -> nonEmpty span = true.
Proof.
  unfold extractJsonArray.
  destruct (indexOf lbrack text) as [f|] eqn:Ef; [|discriminate].
  destruct (lastIndexOf rbrack text) as [l|] eqn:El; [|discriminate].
  destruct (Nat.ltb_spec f l) as [Hfl|]; [|discriminate].
  intros H. inversion H; subst span. clear H.
  destruct (lastIndexOf_split _ _ El) as (pre & post & -> & Hlen & _).
  unfold substring.
  destruct (firstn (l + 1 - f) (skipn f (pre ++ rbrack :: post))) eqn:E;
    [|reflexivity].
  apply (f_equal (@List.length N)) in E.
  rewrite length_firstn, length_skipn, length_app in E. simpl in E. lia.
Qed.

(** On an answer that holds the sentinel, the earlier service (regular
    expression) and the current one (first and last bracket) read the same
    narrative and hand the same text to [JSON.parse]. *)
Theorem services_agree_after_sentinel (JSON_parse : str -> option json)
    (fullResponse : str) :
  includes sentinel fullResponse = true ->
  Legacy.parseStep JSON_parse fullResponse = parseStep JSON_parse fullResponse.
Proof.
  intros Hinc. unfold Legacy.parseStep, parseStep. rewrite Hinc, legacy_span.
  destruct (extractJsonArray (nth 1 (split sentinel fullResponse) [])) as [span|]
    eqn:E; [|reflexivity].
  now rewrite (extractJsonArray_nonEmpty _ E).
Qed.

Lemma services_agree_after_sentinel_witness :
  Legacy.parseStep JsonText.parse Examples.plainResponse
  = parseStep JsonText.parse Examples.plainResponse.
Proof.
  apply (@services_agree_after_sentinel JsonText.parse Examples.plainResponse).
  vm_compute. reflexivity.
Defined.

(* ------------------------------------------------------------------ *)
(** ** Paragraphs and pages *)

Lemma trim_length_head (c : N) (q : str) :
  isWhiteSpace c = true -> (List.length (trim (c :: q)) <= List.length q)%nat.
Proof.
  intros Hc. unfold trim. simpl dropSpaces. rewrite Hc, length_rev.
  pose proof (dropSpaces_length (rev (dropSpaces q))) as L1.
  pose proof (dropSpaces_length q) as L2. rewrite length_rev in L1. lia.
Qed.

Lemma trim_length_last (l : str) (c : N) :
  isWhiteSpace c = true -> (List.length (trim (l ++ [c])) <= List.length l)%nat.
Proof.
  intros Hc. unfold trim. rewrite dropSpaces_app, length_rev.
  destruct (forallb isWhiteSpace l).
  - simpl. rewrite Hc. simpl. lia.
  - rewrite rev_app_distr. simpl. rewrite Hc.
    pose proof (dropSpaces_length (rev (dropSpaces l))) as L1.
    pose proof (dropSpaces_length l) as L2. rewrite length_rev in L1. lia.
Qed.

Lemma slice_within_segment (p : str) :
  p <> [] -> trim p = p -> ~ App.holdsBlankLine p ->
  forall segs x y,
    List.concat (map (fun s => s ++ [10; 10]%N) segs) = x ++ p ++ y ->
    exists s a b, In s segs /\ s = a ++ p ++ b.
Proof.
  intros Hne Htrim Hblank.
  assert (Hhead : forall q, p <> 10%N :: q).
  { intros q E. pose proof (@trim_length_head 10%N q eq_refl) as L.
    rewrite <- E, Htrim, E in L. simpl in L. lia. }
  assert (Hstart : forall y r, p ++ y <> 10%N :: r).
  { intros y r E. destruct p as [|c q]; [now elim Hne|].
    inversion E; subst c. now apply (Hhead q). }
  induction segs as [|s1 segs IH]; intros x y E; simpl in E.
  - symmetry in E. apply app_eq_nil in E as [_ E].
    apply app_eq_nil in E as [E _]. now elim Hne.
  - rewrite <- app_assoc in E. simpl in E.
    apply app_eq_app in E as (l & [[Hs E]|[Hx E]]).
    + apply app_eq_app in E as (m & [[Hp E]|[Hl E]]).
      * destruct m as [|c m].
        -- exists s1, x, []. split; [now left|].
           rewrite Hs, Hp. now rewrite !app_nil_r.
        -- exfalso. simpl in E. inversion E as [[Hc E']]. subst c.
           destruct m as [|d m].
           ++ pose proof (@trim_length_last l 10%N eq_refl) as L.
              rewrite <- Hp, Htrim, Hp, length_app in L. simpl in L. lia.
           ++ simpl in E'. inversion E' as [[Hd E'']]. subst d.
              apply Hblank. exists l, [], m. split; [reflexivity|exact Hp].
      * exists s1, x, m. split; [now left|]. now rewrite Hs, Hl.
    + destruct l as [|c l]; [simpl in E; symmetry in E; now apply Hstart in E|].
      simpl in E. inversion E as [[Hc E']]. subst c.
      destruct l as [|d l]; [simpl in E'; symmetry in E'; now apply Hstart in E'|].
      simpl in E'. inversion E' as [[Hd E'']]. subst d.
      destruct (IH l y E'') as (s & a & b & Hin & Hsab).
      exists s, a, b. split; [now right|exact Hsab].
Qed.

Lemma fullTextOf_concat (pages : list (list str)) : forall acc,
  fold_left (fun fullText items => fullText ++ join (lit " ") items ++ [10; 10]%N)
    pages acc
  = acc ++ List.concat
             (map (fun s => s ++ [10; 10]%N) (map (join (lit " ")) pages)).
Proof.
  induction pages as [|items pages IH]; intros acc;
    cbn [fold_left map List.concat].
  - now rewrite app_nil_r.
  - rewrite IH. now rewrite <- !app_assoc.
Qed.

(** A paragraph never spans two pages: every paragraph [processFile] keeps
    is a slice of the text of one single page of the document. *)
Theorem paragraph_within_page (pages : list (list str)) (p : str) :
  In p (App.paragraphsOf (App.fullTextOf pages)) ->
  exists items a b,
    In items pages /\ join (lit " ") items = a ++ p ++ b.
Proof.
  unfold App.paragraphsOf. intros H.
  apply filter_In in H as [H Hlen]. apply in_map_iff in H as (q & <- & Hq).
  apply Nat.ltb_lt in Hlen.
  destruct (trim_slice q) as (a & b & Hslice).
  destruct (@pieces_substring App.blankLine (App.fullTextOf pages) O []
              (or_introl eq_refl) q Hq) as (a' & b' & H').
  simpl in H'. unfold App.fullTextOf in H'.
  rewrite fullTextOf_concat in H'. simpl in H'.
  destruct (@slice_within_segment (trim q)) with
    (segs := map (join (lit " ")) pages) (x := a' ++ a) (y := b ++ b')
    as (s & a0 & b0 & Hin & Hs).
  - intros E. rewrite E in Hlen. simpl in Hlen. lia.
  - apply trim_idempotent.
  - intros (pre & ws & post & Hws & E).
    apply (@pieces_no_blank (App.fullTextOf pages) O [] (or_introl eq_refl))
      with (p := q); [|exact Hq|].
    + intros pre' x Hx Hne. simpl in Hx.
      destruct pre'; destruct x; try discriminate. now elim Hne.
    + exists (a ++ pre), ws, (post ++ b). split; [exact Hws|].
      rewrite Hslice at 1. rewrite E. rewrite <- !app_assoc. simpl.
      now rewrite <- !app_assoc.
  - rewrite H'. rewrite Hslice at 1. now rewrite <- !app_assoc.
  - apply in_map_iff in Hin as (items & <- & Hitems).
    exists items, a0, b0. split; [exact Hitems|exact Hs].
Qed.

Lemma paragraph_within_page_witness :
  exists items a b,
    In items
      [[lit "A first page whose text is long enough"; lit "to be kept."];
       [lit "Second page."]]
    /\ join (lit " ") items
       = a ++ lit "A first page whose text is long enough to be kept." ++ b.
Proof.
  apply (@paragraph_within_page
           [[lit "A first page whose text is long enough"; lit "to be kept."];
            [lit "Second page."]]
           (lit "A first page whose text is long enough to be kept.")).
  vm_compute. left. reflexivity.
Defined.

(* ------------------------------------------------------------------ *)
(** ** What the narrative is *)

Lemma trim_ws_prefix (ws r : str) :
  forallb isWhiteSpace ws = true -> trim (ws ++ r) = trim r.
Proof. intros H. unfold trim. now rewrite dropSpaces_app, H. Qed.

Lemma stripLabel_trimmed (s : str) : trim (stripLabel s) = stripLabel s.
Proof. unfold stripLabel. apply trim_idempotent. Qed.

Lemma stripLabel_absent (s : str) :
  anyMatch citedTextLabel s = false -> stripLabel s = trim s.
Proof. intros H. unfold stripLabel. now rewrite replaceFirst_no_match by exact H. Qed.

Lemma citedTextLabel_at (label seps rest : str) :
  List.length label = 10%nat ->
  startsWithCI (lit "cited text") label = true ->
  colonSpaces seps = List.length seps ->
  colonSpaces rest = O ->
  citedTextLabel (label ++ seps ++ rest) = Some ((10 + List.length seps)%nat, [])
  /\ skipn (10 + List.length seps) (label ++ seps ++ rest) = rest.
Proof.
  intros Hlen Hci Hseps Hrest. unfold citedTextLabel.
  rewrite startsWithCI_app by exact Hci.
  rewrite (@skipn_length_app _ label (seps ++ rest) 10 Hlen).
  rewrite colonSpaces_app by exact Hseps. rewrite Hrest, Nat.add_0_r.
  split; [reflexivity|].
  rewrite app_assoc. apply skipn_length_app. rewrite length_app. now rewrite Hlen.
Qed.

Lemma stripLabel_first (front label seps rest : str) :
  (forall a b, front = a ++ b -> b <> [] ->
               startsWithCI (lit "cited text") (b ++ label ++ seps ++ rest) = false) ->
  List.length label = 10%nat ->
  startsWithCI (lit "cited text") label = true ->
  colonSpaces seps = List.length seps ->
  colonSpaces rest = O ->
  stripLabel (front ++ label ++ seps ++ rest) = trim (front ++ rest).
Proof.
  intros Hfront Hlen Hci Hseps Hrest. unfold stripLabel. f_equal.
  destruct (citedTextLabel_at label seps rest Hlen Hci Hseps Hrest) as [Hm Hskip].
  induction front as [|c front IH].
  - destruct label as [|c label]; [discriminate|].
    cbn [app replaceFirst] in *. rewrite Hm. cbn [app]. exact Hskip.
  - cbn [app replaceFirst].
    assert (Hc : citedTextLabel (c :: front ++ label ++ seps ++ rest) = None).
    { unfold citedTextLabel.
      change (c :: front ++ label ++ seps ++ rest)
        with ((c :: front) ++ label ++ seps ++ rest).
      rewrite (Hfront [] (c :: front) eq_refl); [reflexivity|discriminate]. }
    rewrite Hc. f_equal. apply IH.
    intros a b E Hb. apply (Hfront (c :: a) b); [now rewrite E|exact Hb].
Qed.

Lemma label_not_whitespace (w : N) (s : str) :
  isWhiteSpace w = true -> startsWithCI (lit "cited text") (w :: s) = false.
Proof.
  intros Hw. change (lit "cited text") with (99%N :: lit "ited text").
  cbn [startsWithCI].
  destruct (N.eqb_spec 99%N (lower w)) as [E|E]; [|reflexivity].
  exfalso. unfold lower in E.
  destruct ((65 <=? w)%N && (w <=? 90)%N) eqn:U.
  - assert (w = 67%N) by lia. subst w. discriminate Hw.
  - subst w. discriminate Hw.
Qed.

Lemma stripLabel_leading (ws label seps rest : str) :
  forallb isWhiteSpace ws = true ->
  List.length label = 10%nat ->
  startsWithCI (lit "cited text") label = true ->
  colonSpaces seps = List.length seps ->
  colonSpaces rest = O ->
  stripLabel (ws ++ label ++ seps ++ rest) = trim rest.
Proof.
  intros Hws Hlen Hci Hseps Hrest.
  rewrite stripLabel_first; try assumption.
  - now apply trim_ws_prefix.
  - intros a b E Hb. destruct b as [|w b]; [now elim Hb|].
    cbn [app]. apply label_not_whitespace.
    rewrite E, forallb_app in Hws. apply andb_prop in Hws as [_ Hws].
    simpl in Hws. now apply andb_prop in Hws as [Hws _].
Qed.

(* ------------------------------------------------------------------ *)
(** ** A payload that does not decode: what is returned *)

(** C5, as the code has it.  The sentinel is present and the response
    splits at it into [before], [after] and possibly more.  When [after]
    holds no bracketed span that decodes (it has no opening bracket before
    a later closing one, or [JSON.parse] throws on the span from its first
    opening bracket to its last closing one), the parse step of both
    variants gives an empty payload and a narrative, and the whole call
    returns, without an error, a result with no references whose text is
    that narrative (or the fixed message when the narrative is empty).  The
    narrative is trimmed; it is [before] trimmed when [before] nowhere holds
    the words of the label, and when [before] starts, after optional
    whitespace, with the label in any letter case, it is what follows the
    label and the colons and whitespace after it, trimmed. *)
Theorem C5_undecodable_payload (JSON_parse : str -> option json)
    (fullResponse before after : str) (more : list str) :
  includes sentinel fullResponse = true ->
  split sentinel fullResponse = before :: after :: more ->
  (forall pre body post,
     after = pre ++ lbrack :: body ++ rbrack :: post ->
     ~ In lbrack pre -> ~ In rbrack post ->
     JSON_parse (lbrack :: body ++ [rbrack]) = None) ->
  fullResponse = before ++ sentinel ++ join sentinel (after :: more)
  /\ includes sentinel before = false
  /\ exists narrative,
       parseStep JSON_parse fullResponse = (narrative, JArr [])
       /\ Legacy.parseStep JSON_parse fullResponse = (narrative, JArr [])
       /\ (forall randomInt k input,
             processResponse JSON_parse randomInt k input fullResponse
             = Returns
                 (mkCitationResult input
                    (if nonEmpty narrative then narrative else fallbackText)
                    [] [],
                  k))
       /\ trim narrative = narrative
       /\ (anyMatch citedTextLabel before = false -> narrative = trim before)
       /\ (forall ws label seps rest,
             before = ws ++ label ++ seps ++ rest ->
             forallb isWhiteSpace ws = true ->
             List.length label = 10%nat ->
             startsWithCI (lit "cited text") label = true ->
             colonSpaces seps = List.length seps ->
             colonSpaces rest = O ->
             narrative = trim rest).
Proof.
  intros Hinc Hsplit Hbad.
  destruct (@undecodable_step JSON_parse fullResponse Hinc)
    as (b & a & m & Hs & Hfull & Hfree & Hstep & Hcall & Hlegacy).
  { intros span Hspan. rewrite Hsplit in Hspan. simpl nth in Hspan.
    destruct (extractJsonArray_decompose _ Hspan)
      as (pre & body & post & Hafter & Hpre & Hpost & ->).
    exact (Hbad pre body post Hafter Hpre Hpost). }
  rewrite Hsplit in Hs. inversion Hs; subst b a m.
  split; [exact Hfull|]. split; [exact Hfree|].
  exists (stripLabel before).
  split; [exact Hstep|]. split; [exact Hlegacy|]. split; [exact Hcall|].
  split; [apply stripLabel_trimmed|]. split.
  - apply stripLabel_absent.
  - intros ws label seps rest -> Hws Hlen Hci Hseps Hrest.
    now apply stripLabel_leading.
Qed.

Lemma C5_witness :
  exists narrative,
    parseStep JsonText.parse
      (lit " Cited Text:  Drafts matter. " ++ sentinel ++ lit "not json")
    = (narrative, JArr [])
    /\ narrative = trim (lit "Drafts matter. ")
    /\ forall randomInt k input,
         processResponse JsonText.parse randomInt k input
           (lit " Cited Text:  Drafts matter. " ++ sentinel ++ lit "not json")
         = Returns
             (mkCitationResult input
                (if nonEmpty narrative then narrative else fallbackText) [] [],
              k).
Proof.
  destruct (@C5_undecodable_payload JsonText.parse
              (lit " Cited Text:  Drafts matter. " ++ sentinel ++ lit "not json")
              (lit " Cited Text:  Drafts matter. ") (lit "not json") [])
    as (_ & _ & narrative & Hstep & _ & Hcall & _ & _ & Hlead).
  - vm_compute. reflexivity.
  - vm_compute. reflexivity.
  - intros pre body post E _ _. exfalso.
    assert (Hin : In lbrack (lit "not json"))
      by (rewrite E; apply in_elt).
    vm_compute in Hin. intuition discriminate.
  - exists narrative. split; [exact Hstep|]. split; [|exact Hcall].
    apply (Hlead (lit " ") (lit "Cited Text") (lit ":  ") (lit "Drafts matter. "));
      reflexivity.
Defined.

(** As the specification words it the property fails.  The text after the
    sentinel can be no JSON text and still hold an array that decodes: for
    a payload wrapped in a fenced block the call returns the reference of
    the array, not an empty list.  And the words of the label are also
    removed where they stand inside the narrative. *)
Lemma C5_counterexample :
  includes sentinel Examples.fencedResponse = true
  /\ nth 1 (split sentinel Examples.fencedResponse) [] = Examples.fencedPayload
  /\ JsonText.parse Examples.fencedPayload = None
  /\ option_map (fun r => List.length (r_references (fst r)))
       (match processResponse JsonText.parse (fun _ => 5%Z) 0 (lit "in")
                Examples.fencedResponse with
        | Returns r => Some r
        | Throws _ => None
        end)
     = Some 1%nat
  /\ parseStep JsonText.parse
       (lit "We analyse the cited text: it shows X." ++ sentinel ++ lit "not json")
     = (lit "We analyse the it shows X.", JArr []).
Proof. repeat split; vm_compute; reflexivity. Qed.

(* ------------------------------------------------------------------ *)
(** ** A response without the sentinel: what is returned *)

Lemma front_without_c (front t : str) :
  forallb (fun x => negb (99 =? lower x)%N) front = true ->
  forall a b, front = a ++ b -> b <> [] ->
              startsWithCI (lit "cited text") (b ++ t) = false.
Proof.
  intros H a b -> Hb. rewrite forallb_app in H. apply andb_prop in H as [_ H].
  destruct b as [|w b]; [now elim Hb|]. cbn [forallb] in H.
  apply andb_prop in H as [H _]. apply negb_true_iff in H.
  change (lit "cited text") with (99%N :: lit "ited text").
  cbn [app startsWithCI]. now rewrite H.
Qed.

(** Without the sentinel, when the text holds a bracketed span the span
    from the first opening bracket to the last closing one is what is
    decoded, and the narrative is made from [pre], the text before the
    first opening bracket: it is trimmed; it is [pre] trimmed when [pre]
    nowhere holds the words of the label; and when [label] is the first
    occurrence of these words in [pre], in any letter case, it is [pre]
    without the label and the colons and whitespace that follow it,
    trimmed.  When the text holds no bracketed span, the narrative is the
    whole text trimmed, label included, and there is no payload. *)
Theorem response_without_sentinel (JSON_parse : str -> option json) :
  (forall pre body post,
     includes sentinel (pre ++ lbrack :: body ++ rbrack :: post) = false ->
     ~ In lbrack pre -> ~ In rbrack post ->
     exists narrative,
       parseStep JSON_parse (pre ++ lbrack :: body ++ rbrack :: post)
       = (narrative, tryParse JSON_parse (lbrack :: body ++ [rbrack]))
       /\ trim narrative = narrative
       /\ (anyMatch citedTextLabel pre = false -> narrative = trim pre)
       /\ (forall front label seps rest,
             pre = front ++ label ++ seps ++ rest ->
             (forall a b, front = a ++ b -> b <> [] ->
                startsWithCI (lit "cited text") (b ++ label ++ seps ++ rest)
                = false) ->
             List.length label = 10%nat ->
             startsWithCI (lit "cited text") label = true ->
             colonSpaces seps = List.length seps ->
             colonSpaces rest = O ->
             narrative = trim (front ++ rest)))
  /\ (forall fullResponse,
        includes sentinel fullResponse = false ->
        extractJsonArray fullResponse = None ->
        parseStep JSON_parse fullResponse = (trim fullResponse, JArr [])).
Proof.
  destruct (without_sentinel_step JSON_parse) as [Hspan Hnone].
  split; [|exact Hnone].
  intros pre body post Hinc Hpre Hpost. exists (stripLabel pre).
  split; [now apply Hspan|]. split; [apply stripLabel_trimmed|]. split.
  - apply stripLabel_absent.
  - intros front label seps rest -> Hfront Hlen Hci Hseps Hrest.
    now apply stripLabel_first.
Qed.

Lemma response_without_sentinel_witness :
  exists narrative,
    parseStep JsonText.parse
      (lit "Result - CITED text: Drafts matter. " ++ lbrack :: Examples.draftStudyBody
       ++ rbrack :: lit " end")
    = (narrative,
       tryParse JsonText.parse (lbrack :: Examples.draftStudyBody ++ [rbrack]))
    /\ narrative = trim (lit "Result - " ++ lit "Drafts matter. ").
Proof.
  destruct (proj1 (response_without_sentinel JsonText.parse)
              (lit "Result - CITED text: Drafts matter. ")
              Examples.draftStudyBody (lit " end"))
    as (narrative & Hstep & _ & _ & Hfirst).
  - vm_compute. reflexivity.
  - vm_compute. intuition discriminate.
  - vm_compute. intuition discriminate.
  - exists narrative. split; [exact Hstep|].
    apply (Hfirst (lit "Result - ") (lit "CITED text") (lit ": ")
             (lit "Drafts matter. ")); try reflexivity.
    apply front_without_c. reflexivity.
Defined.
